(** * A shallow embedding of the tsg node-line parser/printer and of TSGPath

    Sources:
    - src/crates/tsg-core/src/graph/node.rs : Interval, Exons, ReadData,
      ReadIdentity, Strand, NodeData with their FromStr / Display impls;
    - src/crates/tsg/src/graph/path.rs : TSGPath, its id() and validate().

    Rust [usize] is modelled as [N] below 2^64; arithmetic that overflows
    is modelled as a panic (the overflow checks of a debug build).
    [&str] and [BString] are modelled as [string], a sequence of bytes;
    a [&str] holds UTF-8, a [BString] any bytes. *)

From Stdlib Require Import Ascii String List NArith Bool Lia.
From stdpp Require Import gmap strings.
Import ListNotations.

Local Open Scope N_scope.

(** ** Results with panics *)

(** A Rust computation: a value, an [Err], or a panic (an [unwrap] on
    [Err]/[None], an index out of bounds, an arithmetic overflow). *)
Inductive outcome (E A : Type) : Type :=
| Ok (a : A)
| Err (e : E)
| Panic.
Arguments Ok {E A} a.
Arguments Err {E A} e.
Arguments Panic {E A}.

(** The [?] operator. *)
Definition obind {E A B} (m : outcome E A) (k : A -> outcome E B) : outcome E B :=
  match m with
  | Ok a => k a
  | Err e => Err e
  | Panic => Panic
  end.

Notation "'let?' x ':=' m 'in' k" := (obind m (fun x => k))
  (at level 200, x name, m at level 100, k at level 200).

(** [.map_err(f)] *)
Definition map_err {E F A} (f : E -> F) (m : outcome E A) : outcome F A :=
  match m with
  | Ok a => Ok a
  | Err e => Err (f e)
  | Panic => Panic
  end.

(** [.unwrap()] on a [Result]: an [Err] panics. *)
Definition unwrap {E A} (m : outcome E A) : outcome E A :=
  match m with
  | Ok a => Ok a
  | _ => Panic
  end.

(** [v[i]] on a [Vec]: out of bounds panics. *)
Definition index {E A} (v : list A) (i : nat) : outcome E A :=
  match nth_error v i with
  | Some a => Ok a
  | None => Panic
  end.

(** [.collect::<Result<Vec<_>, _>>()]: the first [Err] wins. *)
Fixpoint collect_results {E A} (xs : list (outcome E A)) : outcome E (list A) :=
  match xs with
  | [] => Ok []
  | x :: xs' =>
      let? a := x in
      let? rest := collect_results xs' in
      Ok (a :: rest)
  end.

(** ** Strings *)

(** [str::split] by a character predicate: always at least one piece. *)
Fixpoint split_by (p : ascii -> bool) (s : string) : list string :=
  match s with
  | EmptyString => [EmptyString]
  | String c s' =>
      let rest := split_by p s' in
      if p c then EmptyString :: rest
      else match rest with
           | [] => [String c EmptyString]
           | h :: t => String c h :: t
           end
  end.

Definition is_char (c : ascii) (d : ascii) : bool := Ascii.eqb d c.

(** [s.split(c)] *)
Definition split (c : ascii) (s : string) : list string := split_by (is_char c) s.

(** [str::from_utf8] as a check (what [BString::to_str] succeeds on):
    the well-formed UTF-8 byte sequences. *)
Definition byte_in (lo hi : nat) (c : ascii) : bool :=
  let n := nat_of_ascii c in (lo <=? n)%nat && (n <=? hi)%nat.

Definition cont_byte (c : ascii) : bool := byte_in 128 191 c.

Fixpoint utf8_valid (s : string) : bool :=
  match s with
  | EmptyString => true
  | String c rest =>
      if byte_in 0 127 c then utf8_valid rest
      else if byte_in 194 223 c then
        match rest with
        | String c1 r1 => cont_byte c1 && utf8_valid r1
        | _ => false
        end
      else if byte_in 224 239 c then
        match rest with
        | String c1 (String c2 r2) =>
            (if byte_in 224 224 c then byte_in 160 191 c1
             else if byte_in 237 237 c then byte_in 128 159 c1
             else cont_byte c1)
            && cont_byte c2 && utf8_valid r2
        | _ => false
        end
      else if byte_in 240 244 c then
        match rest with
        | String c1 (String c2 (String c3 r3)) =>
            (if byte_in 240 240 c then byte_in 144 191 c1
             else if byte_in 244 244 c then byte_in 128 143 c1
             else cont_byte c1)
            && cont_byte c2 && cont_byte c3 && utf8_valid r3
        | _ => false
        end
      else false
  end.

(** [.to_str()] on a [BString]. *)
Definition to_str (b : string) : option string := if utf8_valid b then Some b else None.

(** [char::is_whitespace] on a one-byte (ASCII) character: tab, LF, VT,
    FF, CR and space. *)
Definition is_ascii_whitespace (c : ascii) : bool :=
  let n := nat_of_ascii c in
  ((9 <=? n)%nat && (n <=? 13)%nat) || (n =? 32)%nat.

(** [char::is_whitespace] on the characters above ASCII, as their UTF-8
    bytes: the other code points of Unicode's White_Space property.
    Two bytes: U+0085 and U+00A0. *)
Definition whitespace2 (c0 c1 : ascii) : bool :=
  byte_in 194 194 c0 && (byte_in 133 133 c1 || byte_in 160 160 c1).

(** Three bytes: U+1680; U+2000 to U+200A, U+2028, U+2029, U+202F;
    U+205F; U+3000. *)
Definition whitespace3 (c0 c1 c2 : ascii) : bool :=
  (byte_in 225 225 c0 && byte_in 154 154 c1 && byte_in 128 128 c2)
  || (byte_in 226 226 c0 && byte_in 128 128 c1
      && (byte_in 128 138 c2 || byte_in 168 169 c2 || byte_in 175 175 c2))
  || (byte_in 226 226 c0 && byte_in 129 129 c1 && byte_in 159 159 c2)
  || (byte_in 227 227 c0 && byte_in 128 128 c1 && byte_in 128 128 c2).

(** A byte added at the front of the first piece. *)
Definition push (c : ascii) (pieces : list string) : list string :=
  match pieces with
  | [] => [String c EmptyString]
  | h :: t => String c h :: t
  end.

(** [s.split(char::is_whitespace)] on the UTF-8 bytes of a [&str]: a
    whitespace character (one, two or three bytes) ends a piece. In UTF-8
    text the lead bytes of these characters are never continuation bytes,
    so a match is always a whole character. *)
Fixpoint split_by_whitespace (s : string) : list string :=
  match s with
  | EmptyString => [EmptyString]
  | String c r =>
      if is_ascii_whitespace c then EmptyString :: split_by_whitespace r
      else match r with
           | String c1 r1 =>
               if whitespace2 c c1 then EmptyString :: split_by_whitespace r1
               else match r1 with
                    | String c2 r2 =>
                        if whitespace3 c c1 c2 then EmptyString :: split_by_whitespace r2
                        else push c (split_by_whitespace r)
                    | EmptyString => push c (split_by_whitespace r)
                    end
           | EmptyString => push c (split_by_whitespace r)
           end
  end.

Definition is_emptyb (s : string) : bool :=
  match s with EmptyString => true | _ => false end.

(** [s.split_whitespace()] = [s.split(char::is_whitespace)] without the
    empty pieces. *)
Definition split_whitespace (s : string) : list string :=
  List.filter (fun t => negb (is_emptyb t)) (split_by_whitespace s).

(** [.join(sep)] *)
Fixpoint join (sep : string) (xs : list string) : string :=
  match xs with
  | [] => EmptyString
  | [x] => x
  | x :: xs' => x +:+ sep +:+ join sep xs'
  end.

Definition str1 (c : ascii) : string := String c EmptyString.

(** [.is_empty()] on a [Vec]. *)
Definition is_nil {A} (l : list A) : bool := match l with [] => true | _ => false end.

(** ** usize: [FromStr] and [Display] *)

Definition USIZE_BOUND : N := 2 ^ 64.

Inductive IntErrorKind := Empty | InvalidDigit | PosOverflow.

(** The [Display] of [ParseIntError]. *)
Definition int_error_msg (k : IntErrorKind) : string :=
  match k with
  | Empty => "cannot parse integer from empty string"
  | InvalidDigit => "invalid digit found in string"
  | PosOverflow => "number too large to fit in target type"
  end.

(** [char::to_digit(10)] *)
Definition to_digit (c : ascii) : option N :=
  let n := nat_of_ascii c in
  if ((48 <=? n)%nat && (n <=? 57)%nat) then Some (N.of_nat (n - 48)) else None.

(** The digit loop of [u64::from_str_radix]: [checked_mul] then
    [checked_add], an overflow is [PosOverflow]. *)
Fixpoint parse_digits (acc : N) (s : string) : outcome IntErrorKind N :=
  match s with
  | EmptyString => Ok acc
  | String c s' =>
      match to_digit c with
      | None => Err InvalidDigit
      | Some d =>
          let acc' := acc * 10 + d in
          if acc' <? USIZE_BOUND then parse_digits acc' s' else Err PosOverflow
      end
  end.

(** [s.parse::<usize>()]: empty is [Empty]; a lone sign is [InvalidDigit];
    one leading [+] is skipped; [-] is an invalid digit of an unsigned type. *)
Definition usize_from_str (s : string) : outcome IntErrorKind N :=
  match s with
  | EmptyString => Err Empty
  | String c rest =>
      if (is_char "+" c || is_char "-" c) && is_emptyb rest then Err InvalidDigit
      else if is_char "+" c then parse_digits 0 rest
      else parse_digits 0 s
  end.

Definition digit_char (d : N) : ascii := ascii_of_nat (48 + N.to_nat d).

Fixpoint show_digits (fuel : nat) (n : N) (acc : string) : string :=
  match fuel with
  | O => acc
  | S f =>
      let acc' := String (digit_char (n mod 10)) acc in
      if n <? 10 then acc' else show_digits f (n / 10) acc'
  end.

(** [format!("{}", n)] for a [usize]: decimal, no sign, no padding; a
    [usize] (below 2^64) has at most 20 decimal digits. *)
Definition usize_to_string (n : N) : string :=
  show_digits 20 n EmptyString.

(** ** node.rs: Interval *)

(** [io::Error] of kind [InvalidData], carried by its message. *)
Definition io_error := string.

Record Interval := mkInterval { start : N; end_ : N }.

(** [Interval::span]: [self.end - self.start]; [None] is the panic of the
    [usize] subtraction when [start > end]. *)
Definition Interval_span (i : Interval) : option N :=
  if end_ i <? start i then None else Some (end_ i - start i).

(** [impl FromStr for Interval] *)
Definition Interval_from_str (s : string) : outcome io_error Interval :=
  let parts := split "-" s in
  if negb (length parts =? 2)%nat then
    Err ("Invalid exon coordinates format: " +:+ s)
  else
    let? p0 := index parts 0 in
    let? start := map_err (fun e => "Invalid start coordinate: " +:+ int_error_msg e)
                          (usize_from_str p0) in
    let? p1 := index parts 1 in
    let? end_ := map_err (fun e => "Invalid end coordinate: " +:+ int_error_msg e)
                         (usize_from_str p1) in
    Ok (mkInterval start end_).

(** ** node.rs: Exons *)

Record Exons := mkExons { exons : list Interval }.

(** [impl FromStr for Exons] *)
Definition Exons_from_str (s : string) : outcome io_error Exons :=
  let? exons := collect_results (map Interval_from_str (split "," s)) in
  Ok (mkExons exons).

(** [impl Display for Exons] *)
Definition Exons_to_string (e : Exons) : string :=
  join ","
    (map (fun x => usize_to_string (start x) +:+ "-" +:+ usize_to_string (end_ x))
         (exons e)).

(** The body of the loop of [Exons::introns] at index [i]:
    [Interval { start: self.exons[i].end + 1, end: self.exons[i + 1].start }];
    [None] is a panic (the [+ 1] overflowing, or an index out of range). *)
Definition intron_at (xs : list Interval) (i : nat) : option Interval :=
  match nth_error xs i, nth_error xs (S i) with
  | Some a, Some b =>
      let s := end_ a + 1 in
      if s <? USIZE_BOUND then Some (mkInterval s (start b)) else None
  | _, _ => None
  end.

(** [for i in 0..self.exons.len().saturating_sub(1) { introns.push(..) }];
    [nat] subtraction is the saturating one. *)
Definition introns (e : Exons) : option (list Interval) :=
  fold_left
    (fun acc i =>
       match acc with
       | None => None
       | Some l => match intron_at (exons e) i with
                   | Some v => Some (l ++ [v])
                   | None => None
                   end
       end)
    (seq 0 (length (exons e) - 1)) (Some []).

(** [self.exons.iter().map(|e| e.span()).sum()]: a left fold of [+] from 0,
    each addition checked for overflow. *)
Fixpoint sum_spans (acc : N) (xs : list Interval) : option N :=
  match xs with
  | [] => Some acc
  | x :: xs' =>
      match Interval_span x with
      | None => None
      | Some s => if acc + s <? USIZE_BOUND then sum_spans (acc + s) xs' else None
      end
  end.

(** [Exons::span] *)
Definition Exons_span (e : Exons) : option N := sum_spans 0 (exons e).

(** ** node.rs: reads and strand *)

Inductive ReadIdentity := SO | IN | SI.

(** [impl FromStr for ReadIdentity] *)
Definition ReadIdentity_from_str (s : string) : outcome io_error ReadIdentity :=
  if String.eqb s "SO" then Ok SO
  else if String.eqb s "IN" then Ok IN
  else if String.eqb s "SI" then Ok SI
  else Err ("Invalid read identity: " +:+ s).

(** The derived [Debug] of [ReadIdentity] (same text as its [Display]). *)
Definition ReadIdentity_debug (r : ReadIdentity) : string :=
  match r with SO => "SO" | IN => "IN" | SI => "SI" end.

(** [impl From<&str> for ReadIdentity]: [s.parse().unwrap()]. *)
Definition ReadIdentity_from (s : string) : outcome io_error ReadIdentity :=
  unwrap (ReadIdentity_from_str s).

Module ReadData.
Record t := mk { id : string; identity : ReadIdentity }.
End ReadData.

(** [impl FromStr for ReadData]: [<id>:<identity>]. *)
Definition ReadData_from_str (s : string) : outcome io_error ReadData.t :=
  let fields := split ":" s in
  if negb (length fields =? 2)%nat then Err ("Invalid read line format: " +:+ s)
  else
    let? f0 := index fields 0 in
    let? f1 := index fields 1 in
    let? identity := ReadIdentity_from_str f1 in
    Ok (ReadData.mk f0 identity).

(** [format!("{}", b)] for a [BString] [b]: the bytes when they are UTF-8;
    otherwise bstr's lossy decoding [utf8_lossy], which writes each invalid
    sequence as U+FFFD (the sources do not depend on its details). *)
Definition bstr_display (utf8_lossy : string -> string) (b : string) : string :=
  if utf8_valid b then b else utf8_lossy b.

(** [impl Display for ReadData]: [write!(f, "{}:{:?}", self.id, self.identity)]. *)
Definition ReadData_to_string (utf8_lossy : string -> string) (r : ReadData.t) : string :=
  bstr_display utf8_lossy (ReadData.id r) +:+ ":" +:+ ReadIdentity_debug (ReadData.identity r).

Inductive Strand := Forward | Reverse.

(** [impl FromStr for Strand] (an [anyhow::Error], carried by its message). *)
Definition Strand_from_str (s : string) : outcome string Strand :=
  if String.eqb s "+" then Ok Forward
  else if String.eqb s "-" then Ok Reverse
  else Err ("Invalid strand: " +:+ s).

Definition Strand_to_string (s : Strand) : string :=
  match s with Forward => "+" | Reverse => "-" end.

(** ** node.rs: NodeData *)

(** [crate::graph::Attribute], with the fields node.rs uses. *)
Record Attribute := mkAttribute { tag : string; attribute_type : ascii; value : string }.

Module NodeData.
Record t := mk {
  id : string;
  reference_id : string;
  strand : Strand;
  exons : Exons;
  reads : list ReadData.t;
  sequence : option string;
  attributes : gmap string Attribute
}.
End NodeData.

Definition TAB : string := String (ascii_of_nat 9) EmptyString.

(** [impl Display for NodeData]:
    [write!(f, "N\t{}\t{}:{}:{}\t{}\t{}", id, reference_id, strand, exons,
    reads joined by ",", sequence or "")]. *)
Definition NodeData_to_string (utf8_lossy : string -> string) (n : NodeData.t) : string :=
  "N" +:+ TAB +:+ bstr_display utf8_lossy (NodeData.id n) +:+ TAB
  +:+ bstr_display utf8_lossy (NodeData.reference_id n) +:+ ":"
  +:+ Strand_to_string (NodeData.strand n) +:+ ":" +:+ Exons_to_string (NodeData.exons n)
  +:+ TAB +:+ join "," (map (ReadData_to_string utf8_lossy) (NodeData.reads n))
  +:+ TAB +:+ bstr_display utf8_lossy
                (match NodeData.sequence n with Some q => q | None => EmptyString end).

(** [impl FromStr for NodeData]. The reads go through
    [s.parse().context(..).unwrap()]: a read that does not parse panics. *)
Definition NodeData_from_str (s : string) : outcome io_error NodeData.t :=
  let fields := split_whitespace s in
  if (length fields <? 4)%nat then Err ("Invalid node line format: " +:+ s)
  else
    let? id := index fields 1 in
    let? f2 := index fields 2 in
    let reference_and_exons := split ":" f2 in
    let? reference_id := index reference_and_exons 0 in
    let? strand_str := index reference_and_exons 1 in
    let? strand := map_err (fun e => "Failed to parse strand: " +:+ e)
                           (Strand_from_str strand_str) in
    let? exons_str := index reference_and_exons 2 in
    let? exons := map_err (fun e => "Failed to parse exons: " +:+ e)
                          (Exons_from_str exons_str) in
    let? f3 := index fields 3 in
    let? reads := collect_results (map (fun r => unwrap (ReadData_from_str r))
                                       (split "," f3)) in
    let sequence :=
      if (4 <? length fields)%nat && negb (is_emptyb (nth 4 fields EmptyString))
      then Some (nth 4 fields EmptyString) else None in
    Ok (NodeData.mk id reference_id strand exons reads sequence ∅).

(** ** path.rs: TSGPath *)

(** [Option::unwrap] (and [.ok_or_else(..).unwrap()],
    [.context(..).unwrap()] on an [Option]): [None] panics. *)
Definition unwrap_opt {E A} (o : option A) : outcome E A :=
  match o with
  | Some a => Ok a
  | None => Panic
  end.

(** Petgraph's [NodeIndex] and [EdgeIndex]. *)
Definition NodeIndex := nat.
Definition EdgeIndex := nat.

Section PathModel.

(** [GraphSection] and its [node_by_idx] live in graph.rs, which is not
    among the sources: any section type with a node lookup by index. *)
Variable GraphSection : Type.
Variable node_by_idx : GraphSection -> NodeIndex -> option NodeData.t.

(** The digest underlying [to_hash_identifier]: any fixed function. *)
Variable hash : string -> N.

Definition hex_digit (d : N) : ascii :=
  if d <? 10 then ascii_of_nat (48 + N.to_nat d) else ascii_of_nat (87 + N.to_nat d).

(** [w] lowercase hexadecimal digits of [n mod 16^w], most significant first. *)
Fixpoint hex_fixed (w : nat) (n : N) (acc : string) : string :=
  match w with
  | O => acc
  | S w' => hex_fixed w' (n / 16) (String (hex_digit (n mod 16)) acc)
  end.

(** Modelled from the spec: [to_hash_identifier] (graph/utils.rs, not
    among the sources). "maps the result through a fixed, well-distributed
    hash truncated/encoded to a fixed-width (16-character) textual form":
    the digest [hash s] written as [len] hexadecimal characters (16 when no
    length is given). *)
Definition to_hash_identifier (s : string) (len : option nat) : outcome string string :=
  Ok (hex_fixed (match len with Some l => l | None => 16%nat end) (hash s) EmptyString).

(** [pub struct TSGPath<'a>]: node and edge indices, the borrowed section
    [graph: Option<&'a GraphSection>], and the attributes. *)
Record TSGPath := mkTSGPath {
  nodes : list NodeIndex;
  edges : list EdgeIndex;
  graph : option GraphSection;
  path_attributes : list Attribute
}.

(** [TSGPath::new()] ([Default]): everything empty, no section. *)
Definition TSGPath_new : TSGPath := mkTSGPath [] [] None [].

(** The closure of [TSGPath::id] for one node index:
    [self.graph.ok_or_else(..).unwrap().node_by_idx(i).context(..).unwrap()]
    then [node_data.id.to_str().unwrap()]. *)
Definition node_id_str (p : TSGPath) (i : NodeIndex) : outcome string string :=
  let? g := unwrap_opt (graph p) in
  let? node_data := unwrap_opt (node_by_idx g i) in
  unwrap_opt (to_str (NodeData.id node_data)).

(** [TSGPath::id] *)
Definition TSGPath_id (p : TSGPath) : outcome string string :=
  if is_nil (nodes p) then Err "No nodes in path"
  else
    let? ids := collect_results (map (node_id_str p) (nodes p)) in
    let node_id_string := join "-" ids in
    let? id := to_hash_identifier node_id_string (Some 16%nat) in
    Ok id.

(** [TSGPath::validate] (the same in src/src/graph/path.rs). *)
Definition TSGPath_validate (p : TSGPath) : outcome string unit :=
  if negb (length (nodes p) =? length (edges p) + 1)%nat then
    Err "Invalid path: node count must be edge count + 1"
  else Ok tt.

(** The node ids a list of indices resolves to in a section. *)
Fixpoint resolve_ids (g : GraphSection) (idxs : list NodeIndex) : option (list string) :=
  match idxs with
  | [] => Some []
  | i :: rest =>
      match node_by_idx g i, resolve_ids g rest with
      | Some nd, Some ids => Some (NodeData.id nd :: ids)
      | _, _ => None
      end
  end.

End PathModel.

Arguments TSGPath {GraphSection}.
Arguments mkTSGPath {GraphSection} nodes edges graph path_attributes.
Arguments nodes {GraphSection} t.
Arguments edges {GraphSection} t.
Arguments graph {GraphSection} t.
Arguments path_attributes {GraphSection} t.
Arguments TSGPath_validate {GraphSection} p.
Arguments TSGPath_id {GraphSection} node_by_idx hash p.
Arguments resolve_ids {GraphSection} node_by_idx g idxs.
Arguments node_id_str {GraphSection} node_by_idx p i.
Arguments TSGPath_new {GraphSection}.

(** A concrete section for the examples: the nodes in index order. *)
Definition ListSection := list NodeData.t.
Definition list_node_by_idx (g : ListSection) (i : NodeIndex) : option NodeData.t :=
  nth_error g i.

(** ** Character classes of tokens *)

Fixpoint str_all (f : ascii -> bool) (s : string) : bool :=
  match s with
  | EmptyString => true
  | String c s' => f c && str_all f s'
  end.

Definition is_digit (c : ascii) : bool :=
  let n := nat_of_ascii c in (48 <=? n)%nat && (n <=? 57)%nat.

(** ** Well-formedness predicates used by the statements *)

(** The characters of a rendered exon list. *)
Definition exon_char (c : ascii) : bool := is_digit c || is_char "-" c || is_char "," c.

Definition Interval_to_string (x : Interval) : string :=
  usize_to_string (start x) +:+ "-" +:+ usize_to_string (end_ x).

Definition interval_in_usize (x : Interval) : bool :=
  (start x <? USIZE_BOUND) && (end_ x <? USIZE_BOUND).

(** [s] starts with a whitespace character, read as [split_by_whitespace]
    reads it. *)
Definition starts_with_whitespace (s : string) : bool :=
  match s with
  | EmptyString => false
  | String c r =>
      is_ascii_whitespace c
      || match r with
         | EmptyString => false
         | String c1 r1 =>
             whitespace2 c c1
             || match r1 with EmptyString => false | String c2 _ => whitespace3 c c1 c2 end
         end
  end.

(** No whitespace character starts at any byte of [s]. *)
Fixpoint no_whitespace (s : string) : bool :=
  match s with
  | EmptyString => true
  | String _ r => negb (starts_with_whitespace s) && no_whitespace r
  end.

(** A read id that survives the node line: no whitespace, [:] or [,]. *)
Definition read_well_formed (r : ReadData.t) : bool :=
  no_whitespace (ReadData.id r)
  && str_all (fun c => negb (is_char ":" c || is_char "," c)) (ReadData.id r).

(** A node whose fields survive the tab-separated line: a non-empty id
    without whitespace, a reference id without whitespace or [:], a
    non-empty exon list within [usize], at least one read, every read id
    well formed, and a sequence (if any) that is non-empty and has no
    whitespace. *)
Definition node_well_formed (n : NodeData.t) : bool :=
  negb (is_emptyb (NodeData.id n))
  && no_whitespace (NodeData.id n)
  && no_whitespace (NodeData.reference_id n)
  && str_all (fun c => negb (is_char ":" c)) (NodeData.reference_id n)
  && negb (is_nil (exons (NodeData.exons n)))
  && forallb interval_in_usize (exons (NodeData.exons n))
  && negb (is_nil (NodeData.reads n))
  && forallb read_well_formed (NodeData.reads n)
  && match NodeData.sequence n with
     | None => true
     | Some q => negb (is_emptyb q) && no_whitespace q
     end.

(** The [BString] fields of a node hold UTF-8, so that [Display] writes
    their bytes. *)
Definition node_utf8 (n : NodeData.t) : bool :=
  utf8_valid (NodeData.id n) && utf8_valid (NodeData.reference_id n)
  && forallb (fun r => utf8_valid (ReadData.id r)) (NodeData.reads n)
  && match NodeData.sequence n with None => true | Some q => utf8_valid q end.

Definition sequence_field (q : option string) : string :=
  match q with Some s => s | None => EmptyString end.

(** The sum of the lengths [end - start] of a list of intervals. *)
Definition total_length (xs : list Interval) : N :=
  fold_right (fun x acc => end_ x - start x + acc) 0 xs.

(** Every exon but the last ends below [usize::MAX], so that [end + 1]
    does not overflow. *)
Fixpoint inner_ends_fit (xs : list Interval) : bool :=
  match xs with
  | a :: ((_ :: _) as rest) => (end_ a + 1 <? USIZE_BOUND) && inner_ends_fit rest
  | _ => true
  end.

(** ** Concrete inputs *)

Definition line_read_without_colon : string :=
  "N" +:+ TAB +:+ "n1" +:+ TAB +:+ "chr1:+:1000-2000" +:+ TAB +:+ "read1".

Definition line_bad_read_identity : string :=
  "N" +:+ TAB +:+ "n1" +:+ TAB +:+ "chr1:+:1000-2000" +:+ TAB +:+ "read1:XX".

Definition line_two_part_location : string :=
  "N" +:+ TAB +:+ "n1" +:+ TAB +:+ "chr1:+" +:+ TAB +:+ "read1:SO".

Definition line_three_fields : string :=
  "N" +:+ TAB +:+ "n1" +:+ TAB +:+ "chr1:+:1000-2000".

Definition line_two_fields : string := "N" +:+ TAB +:+ "node".

Definition node_n1 : NodeData.t :=
  NodeData.mk "n1" "chr1" Forward (mkExons [mkInterval 1000 2000])
              [ReadData.mk "read1" SO] None ∅.

Definition node_n1_with_attribute : NodeData.t :=
  NodeData.mk "n1" "chr1" Forward (mkExons [mkInterval 1000 2000])
              [ReadData.mk "read1" SO] None
              {[ "ptc" := mkAttribute "ptc" "Z" "1" ]}.

(** U+FFFD REPLACEMENT CHARACTER, as UTF-8. *)
Definition REPLACEMENT_CHAR : string :=
  String (ascii_of_nat 239) (String (ascii_of_nat 191) (String (ascii_of_nat 189) EmptyString)).

(** A lossy decoding that writes its input as one U+FFFD: what bstr does
    on a string made of one invalid byte, the only non-UTF-8 input the
    examples display. *)
Definition lossy_one_replacement (s : string) : string := REPLACEMENT_CHAR.

(** A node whose id is the byte 0xFF, which is not UTF-8. *)
Definition node_id_ff : NodeData.t :=
  NodeData.mk (str1 (ascii_of_nat 255)) "chr1" Forward (mkExons [mkInterval 1000 2000])
              [ReadData.mk "read1" SO] None ∅.

(** A node whose id is "a", U+00A0 (no-break space, two bytes), "b". *)
Definition node_id_nbsp : NodeData.t :=
  NodeData.mk (String "a" (String (ascii_of_nat 194) (String (ascii_of_nat 160) (str1 "b"))))
              "chr1" Forward (mkExons [mkInterval 1000 2000]) [ReadData.mk "read1" SO] None ∅.

Definition example_exons : Exons :=
  mkExons [mkInterval 100 200; mkInterval 300 400; mkInterval 500 600].

Definition exons_with_max_end : Exons :=
  mkExons [mkInterval 0 (USIZE_BOUND - 1); mkInterval 5 6].

(** A section [n1, n2, n3] and a concrete digest (a 31-multiplier
    polynomial hash modulo 2^64) for the path examples. *)
Definition section_n123 : ListSection :=
  [NodeData.mk "n1" "chr1" Forward (mkExons [mkInterval 100 200]) [ReadData.mk "r1" SO] None ∅;
   NodeData.mk "n2" "chr1" Forward (mkExons [mkInterval 300 400]) [ReadData.mk "r1" IN] None ∅;
   NodeData.mk "n3" "chr1" Forward (mkExons [mkInterval 500 600]) [ReadData.mk "r1" SI] None ∅].

Fixpoint poly_hash (acc : N) (s : string) : N :=
  match s with
  | EmptyString => acc
  | String c s' => poly_hash ((acc * 31 + N_of_ascii c) mod USIZE_BOUND) s'
  end.

Definition example_hash (s : string) : N := poly_hash 7 s.

Definition path_n123 : @TSGPath ListSection := mkTSGPath [0; 1; 2]%nat [0; 1]%nat (Some section_n123) [].

Definition path_n123_no_section : @TSGPath ListSection := mkTSGPath [0; 1; 2]%nat [0; 1]%nat None [].

Definition empty_path : @TSGPath ListSection := TSGPath_new.





(** The path [n1, n2, n3] with a single edge. *)
Definition path_n123_one_edge : @TSGPath ListSection :=
  mkTSGPath [0; 1; 2]%nat [0]%nat (Some section_n123) [].

(** ** node.rs: the other methods of Exons and NodeData *)

(** [Exons::is_empty] *)
Definition Exons_is_empty (e : Exons) : bool := is_nil (exons e).

(** [Exons::first_exon]: [&self.exons[0]]; [None] is the index panic. *)
Definition first_exon (e : Exons) : option Interval := nth_error (exons e) 0.

(** [Exons::last_exon]: [&self.exons[self.exons.len() - 1]]; [None] is a
    panic, of the [usize] subtraction on an empty list. *)
Definition last_exon (e : Exons) : option Interval :=
  match exons e with
  | [] => None
  | _ => nth_error (exons e) (length (exons e) - 1)
  end.

(** [NodeData::reference_start] and [NodeData::reference_end]. *)
Definition reference_start (n : NodeData.t) : option N :=
  match first_exon (NodeData.exons n) with Some x => Some (start x) | None => None end.

Definition reference_end (n : NodeData.t) : option N :=
  match last_exon (NodeData.exons n) with Some x => Some (end_ x) | None => None end.

(** [impl Display for ReadIdentity] *)
Definition ReadIdentity_to_string (r : ReadIdentity) : string :=
  match r with SO => "SO" | IN => "IN" | SI => "SI" end.

Definition NL : string := String (ascii_of_nat 10) EmptyString.
Definition QUOTE : string := String (ascii_of_nat 34) EmptyString.

(** [format!("{:03}", n)]: the decimal digits, left-padded with [0] to
    three characters. *)
Fixpoint zeros (k : nat) : string :=
  match k with O => EmptyString | S k' => String "0" (zeros k') end.

Definition pad03 (n : N) : string :=
  let s := usize_to_string n in zeros (3 - String.length s) +:+ s.

(** [enumerate()] *)
Definition enumerate {A} (xs : list A) : list (nat * A) := combine (seq 0 (length xs)) xs.

Section BStrDisplay.

(** bstr's [Display] of a [BString] that is not UTF-8 (see [bstr_display]). *)
Variable utf8_lossy : string -> string.

(** One attribute in an exon line: [format!("{} \"{}\"; ", attr.tag, attr.value)]. *)
Definition exon_attr_gtf (a : Attribute) : string :=
  bstr_display utf8_lossy (tag a) +:+ " " +:+ QUOTE +:+ bstr_display utf8_lossy (value a)
  +:+ QUOTE +:+ "; ".

(** The line of [NodeData::to_gtf] for exon number [idx] (from 0).
    [vals] are the values of [self.attributes] in the iteration order of the
    hash map, which the code does not fix. *)
Definition exon_gtf_line (vals : list Attribute) (n : NodeData.t)
    (attributes : option (list Attribute)) (idx : nat) (exon : Interval)
    : outcome string string :=
  let? rid := unwrap_opt (to_str (NodeData.reference_id n)) in
  Ok (rid +:+ TAB +:+ "tsg" +:+ TAB +:+ "exon" +:+ TAB
      +:+ usize_to_string (start exon) +:+ TAB +:+ usize_to_string (end_ exon) +:+ TAB
      +:+ "." +:+ TAB +:+ Strand_to_string (NodeData.strand n) +:+ TAB +:+ "." +:+ TAB
      +:+ "exon_id " +:+ QUOTE +:+ pad03 (N.of_nat idx + 1) +:+ QUOTE +:+ "; "
      +:+ String.concat "" (map exon_attr_gtf vals)
      +:+ match attributes with
          | Some l => String.concat "" (map exon_attr_gtf (rev l))
          | None => EmptyString
          end).

(** [NodeData::to_gtf]: one line per exon, joined by ["\n"]. *)
Definition NodeData_to_gtf (vals : list Attribute) (n : NodeData.t)
    (attributes : option (list Attribute)) : outcome string string :=
  let? lines := collect_results
                  (map (fun '(idx, exon) => exon_gtf_line vals n attributes idx exon)
                       (enumerate (exons (NodeData.exons n)))) in
  Ok (join NL lines).

End BStrDisplay.

(** ** path.rs: the other methods of TSGPath *)

Section PathMethods.

Context {GraphSection : Type}.
Variable node_by_idx : GraphSection -> NodeIndex -> option NodeData.t.
(** The id of the edge [GraphSection::edge_by_idx] finds (graph.rs is not
    among the sources). *)
Variable edge_id_by_idx : GraphSection -> EdgeIndex -> option string.
Variable hash : string -> N.
Variable utf8_lossy : string -> string.
(** The iteration order of a node's attribute map. *)
Variable attr_values : gmap string Attribute -> list Attribute.

(** [TSGPath::add_node] and [TSGPath::add_edge]: [push]. *)
Definition TSGPath_add_node (p : @TSGPath GraphSection) (n : NodeIndex) : @TSGPath GraphSection :=
  mkTSGPath (nodes p ++ [n]) (edges p) (graph p) (path_attributes p).

Definition TSGPath_add_edge (p : @TSGPath GraphSection) (e : EdgeIndex) : @TSGPath GraphSection :=
  mkTSGPath (nodes p) (edges p ++ [e]) (graph p) (path_attributes p).

(** [TSGPath::is_empty] *)
Definition TSGPath_is_empty (p : @TSGPath GraphSection) : bool := is_nil (nodes p).

(** The loop of [TSGPath::to_fa], from the sequence built so far. *)
Fixpoint to_fa_loop (p : @TSGPath GraphSection) (seq : string) (idxs : list NodeIndex)
    : outcome string string :=
  match idxs with
  | [] => Ok seq
  | i :: rest =>
      let? g := unwrap_opt (graph p) in
      let? node_data := unwrap_opt (node_by_idx g i) in
      let? node_seq := match NodeData.sequence node_data with
                       | Some q => Ok q
                       | None => Err "Node sequence not found"
                       end in
      to_fa_loop p (seq +:+ node_seq) rest
  end.

(** [TSGPath::to_fa] *)
Definition TSGPath_to_fa (p : @TSGPath GraphSection) : outcome string string :=
  to_fa_loop p EmptyString (nodes p).

(** [Option::ok_or_else(|| anyhow!(..))?] *)
Definition ok_or {A} (o : option A) (e : string) : outcome string A :=
  match o with Some a => Ok a | None => Err e end.

(** One path attribute in the transcript line:
    [format!("{} \"{}\";", attr.tag, attr.value)]. *)
Definition transcript_attr_gtf (a : Attribute) : string :=
  bstr_display utf8_lossy (tag a) +:+ " " +:+ QUOTE +:+ bstr_display utf8_lossy (value a)
  +:+ QUOTE +:+ ";".

(** [Attribute::builder().tag(..).value(..).build()]: the attribute type is
    left to the builder's default, which [to_gtf] does not read. *)
Definition gtf_attribute (t v : string) : Attribute := mkAttribute t "Z" v.

(** The body of the node loop of [TSGPath::to_gtf]. *)
Definition path_node_gtf (p : @TSGPath GraphSection) (id : string) (idx : nat) (node_idx : NodeIndex)
    : outcome string string :=
  let? g := ok_or (graph p) "Graph not available" in
  let? node_data := ok_or (node_by_idx g node_idx)
                          ("Node not found for index: " +:+ usize_to_string (N.of_nat node_idx)) in
  let node_attributes := [gtf_attribute "transcript_id" id;
                          gtf_attribute "segment_id" (pad03 (N.of_nat idx + 1))] in
  NodeData_to_gtf utf8_lossy (attr_values (NodeData.attributes node_data)) node_data
                  (Some node_attributes).

(** [TSGPath::to_gtf] *)
Definition TSGPath_to_gtf (p : @TSGPath GraphSection) : outcome string string :=
  let? id := TSGPath_id node_by_idx hash p in
  let transcript :=
    "." +:+ TAB +:+ "tsg" +:+ TAB +:+ "transcript" +:+ TAB +:+ "." +:+ TAB +:+ "."
    +:+ TAB +:+ "." +:+ TAB +:+ "." +:+ TAB +:+ "." +:+ TAB
    +:+ "transcript_id " +:+ QUOTE +:+ bstr_display utf8_lossy id +:+ QUOTE +:+ ";"
    +:+ String.concat "" (map transcript_attr_gtf (path_attributes p)) in
  let? exons := collect_results (map (fun '(idx, i) => path_node_gtf p id idx i)
                                     (enumerate (nodes p))) in
  let? exon_strs := collect_results (map (fun b => unwrap_opt (to_str b))
                                         (transcript :: exons)) in
  Ok (join NL exon_strs).

(** The items [impl Display for TSGPath] writes for node number [idx]:
    the node id with [+], then, unless it is the last node, the id of edge
    [self.edges[idx]] with [+]. *)
Definition display_node_items (p : @TSGPath GraphSection) (idx : nat) (node_idx : NodeIndex)
    : outcome string (list string) :=
  let? g := unwrap_opt (graph p) in
  let? node_data := unwrap_opt (node_by_idx g node_idx) in
  let node_item := bstr_display utf8_lossy (NodeData.id node_data) +:+ "+" in
  if (idx <? length (nodes p) - 1)%nat then
    let? e := index (edges p) idx in
    let? g' := unwrap_opt (graph p) in
    let? edge_id := unwrap_opt (edge_id_by_idx g' e) in
    Ok [node_item; bstr_display utf8_lossy edge_id +:+ "+"]
  else Ok [node_item].

(** [impl Display for TSGPath]: ["P"], [self.id().unwrap()], then the node
    and edge items, joined by tabs. *)
Definition TSGPath_display (p : @TSGPath GraphSection) : outcome string string :=
  let? id := unwrap (TSGPath_id node_by_idx hash p) in
  let? id_str := unwrap_opt (to_str id) in
  let? items := collect_results (map (fun '(idx, i) => display_node_items p idx i)
                                     (enumerate (nodes p))) in
  Ok (join TAB ("P" :: id_str :: concat items)).

End PathMethods.

(** The fields of a path line: node and edge items alternating. *)
Fixpoint interleave (ns es : list string) : list string :=
  match ns, es with
  | n :: ns', e :: es' => n :: e :: interleave ns' es'
  | _, _ => ns
  end.

(** Exons in order: each with [start <= end], each ending no later than the
    next one starts. *)
Fixpoint exons_ordered (xs : list Interval) : bool :=
  match xs with
  | [] => true
  | [a] => start a <=? end_ a
  | a :: ((b :: _) as rest) => (start a <=? end_ a) && (end_ a <=? start b) && exons_ordered rest
  end.

(** Exons in strict order: each with [start <= end], each ending before
    the next one starts. *)
Fixpoint exons_separated (xs : list Interval) : bool :=
  match xs with
  | [] => true
  | [a] => start a <=? end_ a
  | a :: ((b :: _) as rest) => (start a <=? end_ a) && (end_ a <? start b) && exons_separated rest
  end.

(** The intervals the loop of [Exons::introns] builds when no [+ 1]
    overflows: [(end + 1, next start)] for each consecutive pair. *)
Fixpoint intron_pairs (xs : list Interval) : list Interval :=
  match xs with
  | a :: ((b :: _) as rest) => mkInterval (end_ a + 1) (start b) :: intron_pairs rest
  | _ => []
  end.

(** Text that stays on one line and is written unchanged. *)
Definition one_line_text (s : string) : bool :=
  utf8_valid s && str_all (fun c => negb (is_char (ascii_of_nat 10) c)) s.

Definition attr_one_line (a : Attribute) : bool :=
  one_line_text (tag a) && one_line_text (value a).

(** A node whose GTF lines stay one line each: its reference id and the
    attributes [vals] written with it on one line, and at least one exon. *)
Definition node_gtf_ready (vals : list Attribute) (n : NodeData.t) : bool :=
  one_line_text (NodeData.reference_id n) && forallb attr_one_line vals
  && negb (is_nil (exons (NodeData.exons n))).

(** Text that stays in one tab-separated field and is written unchanged. *)
Definition field_text (s : string) : bool :=
  utf8_valid s && str_all (fun c => negb (is_char (ascii_of_nat 9) c)) s.

(** A node line with doubled separators, a signed coordinate and leading
    zeros, two reads and a sequence. *)
Definition line_spaced : string :=
  "N" +:+ TAB +:+ TAB +:+ "n1 chr1:-:+1000-02000,2100-2200" +:+ TAB
  +:+ "read1:SO,read2:IN  ACGT".

(** The node [line_spaced] describes. *)
Definition node_spaced : NodeData.t :=
  NodeData.mk "n1" "chr1" Reverse (mkExons [mkInterval 1000 2000; mkInterval 2100 2200])
              [ReadData.mk "read1" SO; ReadData.mk "read2" IN] (Some "ACGT") ∅.

(** A section whose first two nodes carry a sequence and whose third does
    not, and paths through it. *)
Definition section_with_sequences : ListSection :=
  [NodeData.mk "n1" "chr1" Forward (mkExons [mkInterval 100 200]) [ReadData.mk "r1" SO]
               (Some "ACG") ∅;
   NodeData.mk "n2" "chr1" Forward (mkExons [mkInterval 300 400; mkInterval 500 600])
               [ReadData.mk "r1" IN] (Some "TT") ∅;
   NodeData.mk "n3" "chr1" Forward (mkExons [mkInterval 700 800]) [ReadData.mk "r1" SI] None ∅].

Definition path_n12 : @TSGPath ListSection :=
  mkTSGPath [0; 1]%nat [0]%nat (Some section_with_sequences) [].

Definition path_n123_seq : @TSGPath ListSection :=
  mkTSGPath [0; 1; 2]%nat [0; 1]%nat (Some section_with_sequences) [].

(** Edge ids of the examples: [e<index>]. *)
Definition example_edge_id (_ : ListSection) (e : EdgeIndex) : option string :=
  Some ("e" +:+ usize_to_string (N.of_nat e)).

(** ** String lemmas *)

(** stdpp makes [String.append] [simpl never]: its two equations. *)
Lemma append_cons (c : ascii) (a b : string) : String c a +:+ b = String c (a +:+ b).
Proof. reflexivity. Qed.

Lemma append_empty_l (b : string) : EmptyString +:+ b = b.
Proof. reflexivity. Qed.

Lemma append_assoc_str (a b c : string) : (a +:+ b) +:+ c = a +:+ (b +:+ c).
Proof. induction a as [|x a IH]; [reflexivity|]. rewrite !append_cons, IH. reflexivity. Qed.

Lemma split_by_no_sep (p : ascii -> bool) (x : string) :
  str_all (fun c => negb (p c)) x = true -> split_by p x = [x].
Proof.
  induction x as [|c x IH]; simpl; [reflexivity|].
  intros H. apply andb_prop in H as [Hc Hx].
  rewrite IH by exact Hx. destruct (p c); [discriminate | reflexivity].
Qed.

Lemma split_by_app_sep (p : ascii -> bool) (x : string) (c : ascii) (s : string) :
  str_all (fun d => negb (p d)) x = true -> p c = true ->
  split_by p (x +:+ String c s) = x :: split_by p s.
Proof.
  intros Hx Hc. induction x as [|d x IH].
  - rewrite append_empty_l. simpl. now rewrite Hc.
  - rewrite append_cons. simpl. simpl in Hx. apply andb_prop in Hx as [Hd Hx].
    rewrite IH by exact Hx. destruct (p d); [discriminate | reflexivity].
Qed.

(** [s.join(sep).split(sep)] gives back a non-empty list of pieces free of
    the separator. *)
Lemma split_by_join (p : ascii -> bool) (c : ascii) (xs : list string) :
  p c = true -> xs <> [] ->
  Forall (fun x => str_all (fun d => negb (p d)) x = true) xs ->
  split_by p (join (str1 c) xs) = xs.
Proof.
  intros Hc Hne Hall. induction Hall as [|x xs Hx Hxs IH]; [congruence|].
  destruct xs as [|y ys].
  - simpl. now apply split_by_no_sep.
  - change (join (str1 c) (x :: y :: ys)) with (x +:+ str1 c +:+ join (str1 c) (y :: ys)).
    unfold str1. rewrite append_cons, append_empty_l.
    rewrite split_by_app_sep by assumption. f_equal. apply IH. discriminate.
Qed.

Lemma str_all_app (f : ascii -> bool) (a b : string) :
  str_all f (a +:+ b) = str_all f a && str_all f b.
Proof.
  induction a as [|c a IH]; [reflexivity|].
  rewrite append_cons. simpl. now rewrite IH, andb_assoc.
Qed.

Lemma str_all_impl (f g : ascii -> bool) (s : string) :
  (forall c, f c = true -> g c = true) -> str_all f s = true -> str_all g s = true.
Proof.
  intros Hfg. induction s as [|c s IH]; simpl; [reflexivity|].
  intros H. apply andb_prop in H as [H1 H2]. now rewrite Hfg, IH.
Qed.

Lemma str_all_join (f : ascii -> bool) (c : ascii) (xs : list string) :
  f c = true -> Forall (fun x => str_all f x = true) xs ->
  str_all f (join (str1 c) xs) = true.
Proof.
  intros Hc Hall. induction Hall as [|x xs Hx Hxs IH]; [reflexivity|].
  destruct xs as [|y ys]; [exact Hx|].
  change (join (str1 c) (x :: y :: ys)) with (x +:+ str1 c +:+ join (str1 c) (y :: ys)).
  rewrite !str_all_app, Hx, IH. unfold str1. simpl. now rewrite Hc.
Qed.

(** ** Decimal printing and parsing of [usize] *)

Lemma digit_char_digit (d : N) : d < 10 ->
  to_digit (digit_char d) = Some d /\ is_digit (digit_char d) = true.
Proof.
  intros Hd.
  assert (d = 0 \/ d = 1 \/ d = 2 \/ d = 3 \/ d = 4 \/ d = 5 \/ d = 6 \/ d = 7
          \/ d = 8 \/ d = 9) as Hcases by lia.
  repeat destruct Hcases as [-> | Hcases]; try (subst d); split; reflexivity.
Qed.

Local Arguments digit_char : simpl never.
Local Arguments to_digit : simpl never.

Lemma show_digits_all_digits (f : nat) (n : N) (s : string) :
  str_all is_digit s = true -> str_all is_digit (show_digits f n s) = true.
Proof.
  revert n s. induction f as [|f IH]; intros n s Hs; cbn [show_digits]; [exact Hs|].
  assert (Hm : n mod 10 < 10) by (apply N.mod_lt; discriminate).
  destruct (digit_char_digit _ Hm) as [_ Hdig].
  destruct (n <? 10).
  - cbn [str_all]. now rewrite Hdig, Hs.
  - apply IH. cbn [str_all]. now rewrite Hdig, Hs.
Qed.

Lemma parse_show_digits (f : nat) (n : N) (s : string) :
  n < 10 ^ N.of_nat f -> n < USIZE_BOUND ->
  parse_digits 0 (show_digits f n s) = parse_digits n s.
Proof.
  revert n s. induction f as [|f IH]; intros n s Hf Hb.
  - simpl in Hf. assert (n = 0) by lia. subst n. reflexivity.
  - assert (Hm : n mod 10 < 10) by (apply N.mod_lt; discriminate).
    destruct (digit_char_digit _ Hm) as [Hto _].
    rewrite Nat2N.inj_succ, N.pow_succ_r' in Hf.
    cbn [show_digits]. destruct (N.ltb_spec n 10) as [Hlt | Hge].
    + cbn [parse_digits]. rewrite Hto.
      rewrite N.mod_small by exact Hlt. rewrite N.mul_0_l, N.add_0_l.
      destruct (N.ltb_spec n USIZE_BOUND); [reflexivity | lia].
    + rewrite IH.
      * cbn [parse_digits]. rewrite Hto.
        assert (Hdm : n / 10 * 10 + n mod 10 = n).
        { rewrite N.mul_comm. symmetry. apply N.div_mod. discriminate. }
        rewrite Hdm. destruct (N.ltb_spec n USIZE_BOUND); [reflexivity | lia].
      * apply N.Div0.div_lt_upper_bound; lia.
      * apply (N.le_lt_trans _ n); [apply N.Div0.div_le_upper_bound; lia | exact Hb].
Qed.

Lemma show_digits_head (f : nat) (n : N) (s : string) :
  exists c rest, show_digits (S f) n s = String c rest /\ is_digit c = true.
Proof.
  revert n s. induction f as [|f IH]; intros n s.
  - assert (Hm : n mod 10 < 10) by (apply N.mod_lt; discriminate).
    destruct (digit_char_digit _ Hm) as [_ Hdig].
    cbn [show_digits]. destruct (n <? 10); eauto.
  - assert (Hm : n mod 10 < 10) by (apply N.mod_lt; discriminate).
    destruct (digit_char_digit _ Hm) as [_ Hdig].
    change (show_digits (S (S f)) n s) with
      (if n <? 10 then String (digit_char (n mod 10)) s
       else show_digits (S f) (n / 10) (String (digit_char (n mod 10)) s)).
    destruct (n <? 10); eauto.
Qed.

Lemma usize_from_str_to_string (n : N) :
  n < USIZE_BOUND -> usize_from_str (usize_to_string n) = Ok n.
Proof.
  intros Hb. unfold usize_to_string.
  destruct (show_digits_head 19 n EmptyString) as (c & rest & Heq & Hc).
  rewrite Heq. unfold usize_from_str.
  assert (Hplus : is_char "+" c = false).
  { destruct (is_char "+" c) eqn:E; [|reflexivity].
    unfold is_char in E. apply Ascii.eqb_eq in E. subst c. discriminate. }
  assert (Hminus : is_char "-" c = false).
  { destruct (is_char "-" c) eqn:E; [|reflexivity].
    unfold is_char in E. apply Ascii.eqb_eq in E. subst c. discriminate. }
  rewrite Hplus, Hminus. cbn [orb andb]. rewrite <- Heq.
  rewrite parse_show_digits; [reflexivity | | exact Hb].
  unfold USIZE_BOUND in Hb. change (10 ^ N.of_nat 20) with (10 ^ 20). lia.
Qed.

(** ** Character facts *)

Lemma is_char_true (c d : ascii) : is_char c d = true -> d = c.
Proof. unfold is_char. now intros H%Ascii.eqb_eq. Qed.

Lemma digit_facts (c : ascii) : is_digit c = true ->
  is_ascii_whitespace c = false /\ is_char ":" c = false /\ is_char "-" c = false
  /\ is_char "," c = false.
Proof.
  intros Hd.
  assert (Hne : forall d, is_digit d = false -> is_char d c = false).
  { intros d Hd'. destruct (is_char d c) eqn:E; [|reflexivity].
    apply is_char_true in E. subst. congruence. }
  repeat split; try (apply Hne; reflexivity).
  unfold is_digit, is_ascii_whitespace in *.
  apply andb_prop in Hd as [H1 H2]. apply Nat.leb_le in H1, H2.
  destruct (Nat.leb_spec 9 (nat_of_ascii c)), (Nat.leb_spec (nat_of_ascii c) 13),
    (Nat.eqb_spec (nat_of_ascii c) 32); simpl; try reflexivity; lia.
Qed.

Lemma is_emptyb_app (a b : string) : is_emptyb (a +:+ b) = is_emptyb a && is_emptyb b.
Proof. destruct a; reflexivity. Qed.

Lemma str_all_usize (n : N) : str_all is_digit (usize_to_string n) = true.
Proof. apply show_digits_all_digits. reflexivity. Qed.

Lemma str_all_usize_impl (f : ascii -> bool) (n : N) :
  (forall c, is_digit c = true -> f c = true) -> str_all f (usize_to_string n) = true.
Proof. intros H. exact (str_all_impl _ _ _ H (str_all_usize n)). Qed.


Lemma exon_char_facts (c : ascii) : exon_char c = true ->
  is_ascii_whitespace c = false /\ is_char ":" c = false.
Proof.
  unfold exon_char. intros H.
  destruct (is_digit c) eqn:Hd.
  - destruct (digit_facts c Hd) as (? & ? & _). auto.
  - destruct (is_char "-" c) eqn:Hm; [apply is_char_true in Hm; now subst|].
    destruct (is_char "," c) eqn:Hc; [apply is_char_true in Hc; now subst|].
    discriminate.
Qed.

(** ** Whitespace *)

Lemma string_strong_ind (P : string -> Prop) :
  (forall s, (forall t, (String.length t < String.length s)%nat -> P t) -> P s) ->
  forall s, P s.
Proof.
  intros H. assert (G : forall n s, (String.length s <= n)%nat -> P s).
  { induction n as [|n IH]; intros s Hs; apply H; intros t Ht; [lia|]. apply IH. lia. }
  intros s. exact (G _ s (le_n _)).
Qed.

Lemma byte_in_ascii_high (c : ascii) (lo hi : nat) :
  byte_in 0 127 c = true -> (128 <= lo)%nat -> byte_in lo hi c = false.
Proof.
  unfold byte_in. cbv zeta. intros H Hlo. apply andb_prop in H as [_ H].
  apply Nat.leb_le in H. destruct (Nat.leb_spec lo (nat_of_ascii c)); [lia | reflexivity].
Qed.

Ltac bool_atoms_false :=
  repeat match goal with
         | |- context [byte_in ?a ?b ?x] => destruct (byte_in a b x)
         end; reflexivity.

Lemma whitespace2_ascii_l (c d : ascii) : byte_in 0 127 c = true -> whitespace2 c d = false.
Proof.
  intros H. unfold whitespace2. rewrite !(byte_in_ascii_high c) by (exact H || lia).
  reflexivity.
Qed.

Lemma whitespace2_ascii_r (c d : ascii) : byte_in 0 127 d = true -> whitespace2 c d = false.
Proof.
  intros H. unfold whitespace2. rewrite !(byte_in_ascii_high d) by (exact H || lia).
  bool_atoms_false.
Qed.

Lemma whitespace3_ascii_1 (c d e : ascii) : byte_in 0 127 c = true -> whitespace3 c d e = false.
Proof.
  intros H. unfold whitespace3. rewrite !(byte_in_ascii_high c) by (exact H || lia).
  reflexivity.
Qed.

Lemma whitespace3_ascii_2 (c d e : ascii) : byte_in 0 127 d = true -> whitespace3 c d e = false.
Proof.
  intros H. unfold whitespace3. rewrite !(byte_in_ascii_high d) by (exact H || lia).
  bool_atoms_false.
Qed.

Lemma whitespace3_ascii_3 (c d e : ascii) : byte_in 0 127 e = true -> whitespace3 c d e = false.
Proof.
  intros H. unfold whitespace3. rewrite !(byte_in_ascii_high e) by (exact H || lia).
  bool_atoms_false.
Qed.

Lemma is_ascii_whitespace_ascii (c : ascii) :
  is_ascii_whitespace c = true -> byte_in 0 127 c = true.
Proof.
  unfold is_ascii_whitespace, byte_in. cbv zeta. intros H.
  apply Nat.leb_le. apply orb_prop in H as [H | H].
  - apply andb_prop in H as [_ H]. apply Nat.leb_le in H. lia.
  - apply Nat.eqb_eq in H. lia.
Qed.

Lemma push_nonempty (c : ascii) (l : list string) : push c l <> [].
Proof. destruct l; discriminate. Qed.

Lemma push_app (c : ascii) (l m : list string) :
  l <> [] -> push c (l ++ m) = push c l ++ m.
Proof. destruct l; [congruence | reflexivity]. Qed.

(** The four equations of [split_by_whitespace] on a non-empty string. *)
Lemma split_by_whitespace_ws1 (c : ascii) (r : string) :
  is_ascii_whitespace c = true ->
  split_by_whitespace (String c r) = EmptyString :: split_by_whitespace r.
Proof. intros H. cbn [split_by_whitespace]. now rewrite H. Qed.

Lemma split_by_whitespace_ws2 (c c1 : ascii) (r : string) :
  is_ascii_whitespace c = false -> whitespace2 c c1 = true ->
  split_by_whitespace (String c (String c1 r)) = EmptyString :: split_by_whitespace r.
Proof. intros H H2. cbn [split_by_whitespace]. now rewrite H, H2. Qed.

Lemma split_by_whitespace_ws3 (c c1 c2 : ascii) (r : string) :
  is_ascii_whitespace c = false -> whitespace2 c c1 = false -> whitespace3 c c1 c2 = true ->
  split_by_whitespace (String c (String c1 (String c2 r)))
  = EmptyString :: split_by_whitespace r.
Proof. intros H H2 H3. cbn [split_by_whitespace]. now rewrite H, H2, H3. Qed.

Lemma split_by_whitespace_push (c : ascii) (r : string) :
  starts_with_whitespace (String c r) = false ->
  split_by_whitespace (String c r) = push c (split_by_whitespace r).
Proof.
  intros H.
  change (split_by_whitespace (String c r)) with
    (if is_ascii_whitespace c then EmptyString :: split_by_whitespace r
     else match r with
          | String c1 r1 =>
              if whitespace2 c c1 then EmptyString :: split_by_whitespace r1
              else match r1 with
                   | String c2 r2 =>
                       if whitespace3 c c1 c2 then EmptyString :: split_by_whitespace r2
                       else push c (split_by_whitespace r)
                   | EmptyString => push c (split_by_whitespace r)
                   end
          | EmptyString => push c (split_by_whitespace r)
          end).
  cbn [starts_with_whitespace] in H. apply orb_false_iff in H as [-> H].
  destruct r as [|c1 [|c2 r2]]; [reflexivity | |];
    apply orb_false_iff in H as [-> H]; [reflexivity|]. now rewrite H.
Qed.

Lemma split_by_whitespace_nonempty (s : string) : split_by_whitespace s <> [].
Proof.
  destruct s as [|c r]; [discriminate|].
  destruct (starts_with_whitespace (String c r)) eqn:Hw.
  - cbn [starts_with_whitespace] in Hw.
    destruct (is_ascii_whitespace c) eqn:H1; [now rewrite split_by_whitespace_ws1|].
    destruct r as [|c1 r1]; [discriminate|].
    destruct (whitespace2 c c1) eqn:H2; [now rewrite split_by_whitespace_ws2|].
    destruct r1 as [|c2 r2]; [discriminate|]. cbn [orb] in Hw.
    now rewrite split_by_whitespace_ws3.
  - rewrite split_by_whitespace_push by exact Hw. apply push_nonempty.
Qed.

Lemma starts_with_whitespace_app (a : string) (c : ascii) (b : string) :
  a <> EmptyString -> byte_in 0 127 c = true ->
  starts_with_whitespace (a +:+ String c b) = starts_with_whitespace a.
Proof.
  intros Ha Hc. destruct a as [|x [|y [|z a]]]; [congruence | | | reflexivity].
  - rewrite append_cons, append_empty_l. cbn [starts_with_whitespace].
    rewrite whitespace2_ascii_r by exact Hc.
    destruct b; [reflexivity|]. now rewrite whitespace3_ascii_2.
  - rewrite !append_cons, append_empty_l. cbn [starts_with_whitespace].
    now rewrite whitespace3_ascii_3.
Qed.

Lemma starts_with_whitespace_mono (a b : string) :
  starts_with_whitespace a = true -> starts_with_whitespace (a +:+ b) = true.
Proof.
  destruct a as [|x [|y [|z a]]]; cbn [starts_with_whitespace]; intros H;
    try discriminate; rewrite ?append_cons, ?append_empty_l; cbn [starts_with_whitespace].
  - rewrite orb_false_r in H. now rewrite H.
  - rewrite orb_false_r in H. apply orb_true_iff in H as [H | H]; rewrite H;
      [reflexivity | now rewrite orb_true_r].
  - exact H.
Qed.

Lemma split_by_whitespace_app_sep (a : string) (c : ascii) (s : string) :
  is_ascii_whitespace c = true ->
  split_by_whitespace (a +:+ String c s) = split_by_whitespace a ++ split_by_whitespace s.
Proof.
  intros Hc. pose proof (is_ascii_whitespace_ascii c Hc) as Hasc.
  induction a as [a IH] using string_strong_ind.
  destruct a as [|x r].
  - rewrite append_empty_l. now rewrite split_by_whitespace_ws1.
  - rewrite append_cons.
    destruct (starts_with_whitespace (String x r)) eqn:Hw.
    + cbn [starts_with_whitespace] in Hw.
      destruct (is_ascii_whitespace x) eqn:H1.
      { rewrite !split_by_whitespace_ws1 by exact H1. cbn [app]. f_equal.
        apply IH. cbn. lia. }
      destruct r as [|y r']; [discriminate|]. rewrite append_cons.
      destruct (whitespace2 x y) eqn:H2.
      { rewrite !split_by_whitespace_ws2 by assumption. cbn [app]. f_equal.
        apply IH. cbn. lia. }
      destruct r' as [|z r'']; [discriminate|]. rewrite append_cons. cbn [orb] in Hw.
      rewrite !split_by_whitespace_ws3 by assumption. cbn [app]. f_equal.
      apply IH. cbn. lia.
    + assert (Hw' : starts_with_whitespace (String x (r +:+ String c s)) = false).
      { rewrite <- append_cons. rewrite starts_with_whitespace_app by (discriminate || exact Hasc).
        exact Hw. }
      rewrite !split_by_whitespace_push by assumption.
      rewrite IH by (cbn; lia). apply push_app, split_by_whitespace_nonempty.
Qed.

Lemma no_whitespace_split (s : string) :
  no_whitespace s = true -> split_by_whitespace s = [s].
Proof.
  induction s as [|c r IH]; [reflexivity|]. cbn [no_whitespace].
  intros H. apply andb_prop in H as [H1 H2]. apply negb_true_iff in H1.
  rewrite split_by_whitespace_push by exact H1. now rewrite IH.
Qed.

Lemma no_whitespace_app (a : string) (c : ascii) (b : string) :
  byte_in 0 127 c = true ->
  no_whitespace (a +:+ String c b) = no_whitespace a && no_whitespace (String c b).
Proof.
  intros Hc. induction a as [|x a IH]; [reflexivity|].
  rewrite append_cons. cbn [no_whitespace]. rewrite IH, <- append_cons.
  rewrite starts_with_whitespace_app by (discriminate || exact Hc).
  now rewrite andb_assoc.
Qed.

Lemma no_whitespace_prefix (a b : string) :
  no_whitespace (a +:+ b) = true -> no_whitespace a = true.
Proof.
  induction a as [|x a IH]; [reflexivity|].
  rewrite append_cons. cbn [no_whitespace]. intros H.
  apply andb_prop in H as [H1 H2]. rewrite (IH H2), andb_true_r.
  apply negb_true_iff. destruct (starts_with_whitespace (String x a)) eqn:Hw; [|reflexivity].
  apply (starts_with_whitespace_mono _ b) in Hw. rewrite append_cons in Hw.
  rewrite Hw in H1. discriminate.
Qed.

(** A string of ASCII characters other than whitespace has no whitespace. *)
Lemma no_whitespace_ascii (s : string) :
  str_all (fun c => byte_in 0 127 c && negb (is_ascii_whitespace c)) s = true ->
  no_whitespace s = true.
Proof.
  induction s as [|c r IH]; [reflexivity|]. cbn [str_all no_whitespace].
  intros H. apply andb_prop in H as [H1 H2]. apply andb_prop in H1 as [Ha Hw].
  rewrite (IH H2), andb_true_r. apply negb_true_iff in Hw.
  cbn [starts_with_whitespace]. rewrite Hw.
  destruct r as [|c1 [|c2 r2]]; [reflexivity | |];
    rewrite whitespace2_ascii_l by exact Ha; [reflexivity|].
  now rewrite whitespace3_ascii_1.
Qed.

(** ** UTF-8 *)

Lemma utf8_valid_cons (c : ascii) (rest : string) :
  utf8_valid (String c rest) =
  if byte_in 0 127 c then utf8_valid rest
  else if byte_in 194 223 c then
    match rest with String c1 r1 => cont_byte c1 && utf8_valid r1 | _ => false end
  else if byte_in 224 239 c then
    match rest with
    | String c1 (String c2 r2) =>
        (if byte_in 224 224 c then byte_in 160 191 c1
         else if byte_in 237 237 c then byte_in 128 159 c1 else cont_byte c1)
        && cont_byte c2 && utf8_valid r2
    | _ => false
    end
  else if byte_in 240 244 c then
    match rest with
    | String c1 (String c2 (String c3 r3)) =>
        (if byte_in 240 240 c then byte_in 144 191 c1
         else if byte_in 244 244 c then byte_in 128 143 c1 else cont_byte c1)
        && cont_byte c2 && cont_byte c3 && utf8_valid r3
    | _ => false
    end
  else false.
Proof. reflexivity. Qed.

(** Well-formed UTF-8 followed by well-formed UTF-8 is well formed. *)
Lemma utf8_valid_app (a b : string) :
  utf8_valid a = true -> utf8_valid b = true -> utf8_valid (a +:+ b) = true.
Proof.
  intros Ha Hb. remember (String.length a) as n eqn:Hn. revert a Hn Ha.
  induction n as [n IH] using lt_wf_ind. intros a Hn Ha.
  destruct a as [|c rest]; [exact Hb|].
  rewrite append_cons, utf8_valid_cons. rewrite utf8_valid_cons in Ha.
  cbn [String.length] in Hn.
  destruct (byte_in 0 127 c); cbv beta iota in Ha |- *.
  { exact (IH (String.length rest) ltac:(lia) rest eq_refl Ha). }
  destruct (byte_in 194 223 c); cbv beta iota in Ha |- *.
  { destruct rest as [|c1 r1]; [discriminate|]. rewrite append_cons.
    cbv beta iota in Ha |- *.
    apply andb_prop in Ha as [H1 H2]. rewrite H1. cbn [andb].
    apply (IH (String.length r1)); [cbn [String.length] in Hn; lia | reflexivity | exact H2]. }
  destruct (byte_in 224 239 c); cbv beta iota in Ha |- *.
  { destruct rest as [|c1 [|c2 r2]]; try discriminate. rewrite !append_cons.
    cbv beta iota in Ha |- *.
    apply andb_prop in Ha as [H1 H2]. rewrite H1. cbn [andb].
    apply (IH (String.length r2)); [cbn [String.length] in Hn; lia | reflexivity | exact H2]. }
  destruct (byte_in 240 244 c); cbv beta iota in Ha |- *; [|discriminate].
  destruct rest as [|c1 [|c2 [|c3 r3]]]; try discriminate. rewrite !append_cons.
  cbv beta iota in Ha |- *.
  apply andb_prop in Ha as [H1 H2]. rewrite H1. cbn [andb].
  apply (IH (String.length r3)); [cbn [String.length] in Hn; lia | reflexivity | exact H2].
Qed.

Lemma string_length_app (a b : string) :
  String.length (a +:+ b) = (String.length a + String.length b)%nat.
Proof. induction a as [|c a IH]; [reflexivity|]. rewrite append_cons. cbn. lia. Qed.

Lemma cont_first3 (x c : ascii) :
  (if byte_in 224 224 x then byte_in 160 191 c
   else if byte_in 237 237 x then byte_in 128 159 c else cont_byte c) = true ->
  cont_byte c = true.
Proof.
  destruct (byte_in 224 224 x), (byte_in 237 237 x); intros H; try exact H;
    unfold cont_byte, byte_in in *; cbv zeta in *;
    apply andb_prop in H as [H1 H2]; apply Nat.leb_le in H1, H2;
    apply andb_true_intro; split; apply Nat.leb_le; lia.
Qed.

Lemma cont_first4 (x c : ascii) :
  (if byte_in 240 240 x then byte_in 144 191 c
   else if byte_in 244 244 x then byte_in 128 143 c else cont_byte c) = true ->
  cont_byte c = true.
Proof.
  destruct (byte_in 240 240 x), (byte_in 244 244 x); intros H; try exact H;
    unfold cont_byte, byte_in in *; cbv zeta in *;
    apply andb_prop in H as [H1 H2]; apply Nat.leb_le in H1, H2;
    apply andb_true_intro; split; apply Nat.leb_le; lia.
Qed.

(** UTF-8 cut before a byte that does not continue a character gives two
    UTF-8 strings. *)
Lemma utf8_valid_split (a : string) (c : ascii) (b : string) :
  cont_byte c = false -> utf8_valid (a +:+ String c b) = true ->
  utf8_valid a = true /\ utf8_valid (String c b) = true.
Proof.
  intros Hc. induction a as [a IH] using string_strong_ind. intros H.
  destruct a as [|x rest]; [split; [reflexivity | exact H]|].
  rewrite append_cons, utf8_valid_cons in H. rewrite utf8_valid_cons.
  destruct (byte_in 0 127 x); cbv beta iota in H |- *.
  { apply IH; [cbn; lia | exact H]. }
  destruct (byte_in 194 223 x); cbv beta iota in H |- *.
  { destruct rest as [|y r1]; rewrite ?append_empty_l, ?append_cons in H; cbv beta iota in H.
    - apply andb_prop in H as [H _]. congruence.
    - apply andb_prop in H as [Hy H]. rewrite Hy. cbn [andb].
      apply IH; [cbn; lia | exact H]. }
  destruct (byte_in 224 239 x); cbv beta iota in H |- *.
  { destruct rest as [|y [|z r2]]; rewrite ?append_empty_l, ?append_cons in H;
      cbv beta iota in H.
    - destruct b as [|z b']; [discriminate|].
      apply andb_prop in H as [H _]. apply andb_prop in H as [H _].
      apply cont_first3 in H. congruence.
    - apply andb_prop in H as [H _]. apply andb_prop in H as [_ H]. congruence.
    - apply andb_prop in H as [H H3]. apply andb_prop in H as [H1 H2].
      rewrite H1, H2. cbn [andb]. apply IH; [cbn; lia | exact H3]. }
  destruct (byte_in 240 244 x); cbv beta iota in H |- *; [|discriminate].
  destruct rest as [|y [|z [|w r3]]]; rewrite ?append_empty_l, ?append_cons in H;
    cbv beta iota in H.
  - destruct b as [|z [|w b']]; try discriminate.
    apply andb_prop in H as [H _]. apply andb_prop in H as [H _].
    apply andb_prop in H as [H _]. apply cont_first4 in H. congruence.
  - destruct b as [|w b']; [discriminate|].
    apply andb_prop in H as [H _]. apply andb_prop in H as [H _].
    apply andb_prop in H as [_ H]. congruence.
  - apply andb_prop in H as [H _]. apply andb_prop in H as [_ H]. congruence.
  - apply andb_prop in H as [H H4]. apply andb_prop in H as [H H3].
    apply andb_prop in H as [H1 H2].
    rewrite H1, H2, H3. cbn [andb]. apply IH; [cbn; lia | exact H4].
Qed.

(** A whitespace character, as [split_by_whitespace] reads it. *)
Definition whitespace_char (w : string) : bool :=
  match w with
  | String c EmptyString => is_ascii_whitespace c
  | String c (String c1 EmptyString) => negb (is_ascii_whitespace c) && whitespace2 c c1
  | String c (String c1 (String c2 EmptyString)) =>
      negb (is_ascii_whitespace c) && negb (whitespace2 c c1) && whitespace3 c c1 c2
  | _ => false
  end.

Ltac byte_cases c H :=
  destruct c as [[] [] [] [] [] [] [] []]; try (vm_compute in H; discriminate H).

(** A whitespace character is a whole UTF-8 character. *)
Lemma whitespace_char_utf8 (w : string) :
  whitespace_char w = true ->
  exists c w', w = String c w' /\ cont_byte c = false
    /\ forall rest, utf8_valid (w +:+ rest) = utf8_valid rest.
Proof.
  destruct w as [|c [|c1 [|c2 [|c3 w]]]]; cbn [whitespace_char]; intros H; try discriminate.
  - byte_cases c H; eexists _, _; (split; [reflexivity | split; [reflexivity|]]);
      intros rest; reflexivity.
  - byte_cases c H. byte_cases c1 H.
    all: eexists _, _; (split; [reflexivity | split; [reflexivity|]]); intros rest; reflexivity.
  - byte_cases c H. all: byte_cases c1 H. all: byte_cases c2 H.
    all: eexists _, _; (split; [reflexivity | split; [reflexivity|]]); intros rest; reflexivity.
Qed.

(** [split_by_whitespace] cuts its input at whitespace characters. *)
Lemma split_by_whitespace_decomp (s h : string) (t : list string) :
  split_by_whitespace s = h :: t ->
  (s = h /\ t = [])
  \/ exists w rest, s = h +:+ (w +:+ rest) /\ whitespace_char w = true
       /\ t = split_by_whitespace rest.
Proof.
  revert h t. induction s as [s IH] using string_strong_ind. intros h t E.
  destruct s as [|c r].
  - cbn in E. inversion E; subst. now left.
  - destruct (starts_with_whitespace (String c r)) eqn:Hw.
    + right. cbn [starts_with_whitespace] in Hw.
      destruct (is_ascii_whitespace c) eqn:H1.
      { rewrite split_by_whitespace_ws1 in E by exact H1. inversion E; subst.
        exists (str1 c), r. split; [reflexivity|]. split; [exact H1 | reflexivity]. }
      destruct r as [|c1 r1]; [discriminate|].
      destruct (whitespace2 c c1) eqn:H2.
      { rewrite split_by_whitespace_ws2 in E by assumption. inversion E; subst.
        exists (String c (str1 c1)), r1. split; [reflexivity|].
        split; [cbn; now rewrite H1, H2 | reflexivity]. }
      destruct r1 as [|c2 r2]; [discriminate|]. cbn [orb] in Hw.
      rewrite split_by_whitespace_ws3 in E by assumption. inversion E; subst.
      exists (String c (String c1 (str1 c2))), r2. split; [reflexivity|].
      split; [cbn; now rewrite H1, H2, Hw | reflexivity].
    + rewrite split_by_whitespace_push in E by exact Hw.
      destruct (split_by_whitespace r) as [|h' t'] eqn:Er;
        [exfalso; exact (split_by_whitespace_nonempty r Er)|].
      cbn [push] in E. inversion E; subst.
      destruct (IH r ltac:(cbn; lia) h' t Er) as [[-> ->] | (w & rest & -> & Hwc & ->)].
      * now left.
      * right. exists w, rest. split; [reflexivity|]. now split.
Qed.

Lemma split_by_nonempty (p : ascii -> bool) (s : string) : split_by p s <> [].
Proof. destruct s as [|c s]; cbn [split_by]; [discriminate|]. destruct (p c), (split_by p s); discriminate. Qed.

Lemma split_by_decomp (p : ascii -> bool) (s h : string) (t : list string) :
  split_by p s = h :: t ->
  (s = h /\ t = [])
  \/ exists c rest, p c = true /\ s = h +:+ String c rest /\ t = split_by p rest.
Proof.
  revert h t. induction s as [|c r IH]; intros h t E.
  - cbn in E. inversion E; subst. now left.
  - cbn [split_by] in E. destruct (p c) eqn:Hp.
    + inversion E; subst. right. now exists c, r.
    + destruct (split_by p r) as [|h' t'] eqn:Er;
        [exfalso; exact (split_by_nonempty p r Er)|].
      inversion E; subst.
      destruct (IH h' t eq_refl) as [[-> ->] | (d & rest & Hd & -> & ->)].
      * now left.
      * right. exists d, rest. now split.
Qed.

(** The pieces of a UTF-8 string cut at whitespace are UTF-8. *)
Lemma split_by_whitespace_utf8 (s : string) :
  utf8_valid s = true -> Forall (fun x => utf8_valid x = true) (split_by_whitespace s).
Proof.
  induction s as [s IH] using string_strong_ind. intros Hs.
  destruct (split_by_whitespace s) as [|h t] eqn:E;
    [exfalso; exact (split_by_whitespace_nonempty s E)|].
  destruct (split_by_whitespace_decomp s h t E) as [[-> ->] | (w & rest & -> & Hw & ->)].
  - now repeat constructor.
  - destruct (whitespace_char_utf8 w Hw) as (c & w' & -> & Hc & Hrest).
    rewrite append_cons in Hs. apply utf8_valid_split in Hs as [Hh Hwr]; [|exact Hc].
    rewrite <- append_cons, Hrest in Hwr.
    constructor; [exact Hh|]. apply IH; [|exact Hwr].
    rewrite !string_length_app. cbn. lia.
Qed.

(** The pieces of a UTF-8 string cut at an ASCII character are UTF-8. *)
Lemma split_utf8 (c : ascii) (s : string) :
  byte_in 0 127 c = true -> utf8_valid s = true ->
  Forall (fun x => utf8_valid x = true) (split c s).
Proof.
  intros Hc. unfold split. induction s as [s IH] using string_strong_ind. intros Hs.
  destruct (split_by (is_char c) s) as [|h t] eqn:E;
    [exfalso; exact (split_by_nonempty _ s E)|].
  destruct (split_by_decomp _ s h t E) as [[-> ->] | (d & rest & Hd & -> & ->)].
  - now repeat constructor.
  - apply is_char_true in Hd. subst d.
    apply utf8_valid_split in Hs as [Hh Hr].
    + constructor; [exact Hh|]. rewrite utf8_valid_cons, Hc in Hr.
      apply IH; [|exact Hr]. rewrite string_length_app. cbn. lia.
    + unfold cont_byte, byte_in in *. cbv zeta in *.
      apply andb_prop in Hc as [_ Hc]. apply Nat.leb_le in Hc.
      destruct (Nat.leb_spec 128 (nat_of_ascii c)); [lia | reflexivity].
Qed.

(** ** Interval and Exons round trip *)



Lemma Interval_to_string_chars (x : Interval) :
  str_all (fun c => is_digit c || is_char "-" c) (Interval_to_string x) = true.
Proof.
  unfold Interval_to_string. rewrite !str_all_app.
  rewrite !str_all_usize_impl by (intros c H; now rewrite H).
  reflexivity.
Qed.

Lemma Interval_from_to_string (x : Interval) :
  interval_in_usize x = true -> Interval_from_str (Interval_to_string x) = Ok x.
Proof.
  destruct x as [a b]. unfold interval_in_usize. simpl.
  intros [Ha Hb]%andb_prop. apply N.ltb_lt in Ha, Hb.
  unfold Interval_from_str, Interval_to_string, split. simpl start; simpl end_.
  change (usize_to_string a +:+ "-" +:+ usize_to_string b)
    with (join (str1 "-") [usize_to_string a; usize_to_string b]).
  assert (Hnd : forall n, str_all (fun d => negb (is_char "-" d)) (usize_to_string n) = true).
  { intros n. apply (str_all_impl is_digit); [|apply str_all_usize].
    intros c Hc. destruct (digit_facts c Hc) as (_ & _ & -> & _). reflexivity. }
  rewrite split_by_join by (reflexivity || discriminate || (repeat constructor; apply Hnd)).
  cbn -[usize_from_str usize_to_string].
  rewrite !usize_from_str_to_string by assumption. reflexivity.
Qed.

Lemma Exons_to_string_chars (e : Exons) : str_all exon_char (Exons_to_string e) = true.
Proof.
  unfold Exons_to_string. apply str_all_join; [reflexivity|].
  apply List.Forall_forall. intros s (x & <- & _)%in_map_iff.
  change (str_all exon_char (Interval_to_string x) = true).
  eapply str_all_impl; [|apply Interval_to_string_chars].
  intros c H. unfold exon_char. apply orb_prop in H as [-> | ->]; now rewrite ?orb_true_r.
Qed.

Lemma Exons_from_to_string (e : Exons) :
  exons e <> [] -> forallb interval_in_usize (exons e) = true ->
  Exons_from_str (Exons_to_string e) = Ok e.
Proof.
  destruct e as [xs]. simpl. intros Hne Hall.
  unfold Exons_from_str, Exons_to_string, split. simpl exons.
  change (fun x => usize_to_string (start x) +:+ "-" +:+ usize_to_string (end_ x))
    with Interval_to_string.
  change "," with (str1 ",").
  rewrite split_by_join.
  - assert (collect_results (map Interval_from_str (map Interval_to_string xs)) = Ok xs)
      as ->; [|reflexivity].
    clear Hne. induction xs as [|x xs IH]; [reflexivity|].
    simpl in Hall. apply andb_prop in Hall as [Hx Hxs].
    simpl. rewrite Interval_from_to_string by exact Hx. simpl. now rewrite IH.
  - reflexivity.
  - destruct xs; [congruence | discriminate].
  - apply List.Forall_forall. intros s (x & <- & _)%in_map_iff.
    eapply str_all_impl; [|apply Interval_to_string_chars].
    intros c H. apply orb_prop in H as [H | H].
    + now destruct (digit_facts c H) as (_ & _ & _ & ->).
    + apply is_char_true in H. now subst.
Qed.

(** ** Reads round trip *)

Lemma bstr_display_valid (utf8_lossy : string -> string) (s : string) :
  utf8_valid s = true -> bstr_display utf8_lossy s = s.
Proof. intros H. unfold bstr_display. rewrite H. reflexivity. Qed.

Lemma ReadIdentity_from_debug (i : ReadIdentity) :
  ReadIdentity_from_str (ReadIdentity_debug i) = Ok i.
Proof. destruct i; reflexivity. Qed.

Lemma starts_with_whitespace_ascii (c : ascii) (r : string) :
  byte_in 0 127 c = true -> is_ascii_whitespace c = false ->
  starts_with_whitespace (String c r) = false.
Proof.
  intros Ha Hw. cbn [starts_with_whitespace]. rewrite Hw.
  destruct r as [|c1 [|c2 r2]]; [reflexivity | |];
    rewrite whitespace2_ascii_l by exact Ha; [reflexivity|].
  now rewrite whitespace3_ascii_1.
Qed.

(** A string joined with an ASCII separator other than whitespace has no
    whitespace when its pieces have none. *)
Lemma no_whitespace_join (c : ascii) (xs : list string) :
  byte_in 0 127 c = true -> is_ascii_whitespace c = false ->
  Forall (fun x => no_whitespace x = true) xs -> no_whitespace (join (str1 c) xs) = true.
Proof.
  intros Ha Hw Hall. induction Hall as [|x xs Hx Hxs IH]; [reflexivity|].
  destruct xs as [|y ys]; [exact Hx|].
  change (join (str1 c) (x :: y :: ys)) with (x +:+ str1 c +:+ join (str1 c) (y :: ys)).
  change (str1 c +:+ join (str1 c) (y :: ys)) with (String c (join (str1 c) (y :: ys))).
  rewrite no_whitespace_app by exact Ha.
  cbn [no_whitespace]. rewrite Hx, IH, starts_with_whitespace_ascii by assumption.
  reflexivity.
Qed.

(** [s.join("\t").split(char::is_whitespace)] gives back the pieces when
    they have no whitespace. *)
Lemma split_by_whitespace_join (c : ascii) (xs : list string) :
  is_ascii_whitespace c = true -> xs <> [] ->
  Forall (fun x => no_whitespace x = true) xs ->
  split_by_whitespace (join (str1 c) xs) = xs.
Proof.
  intros Hc Hne Hall. induction Hall as [|x xs Hx Hxs IH]; [congruence|].
  destruct xs as [|y ys].
  - cbn [join]. now apply no_whitespace_split.
  - change (join (str1 c) (x :: y :: ys)) with (x +:+ str1 c +:+ join (str1 c) (y :: ys)).
    change (str1 c +:+ join (str1 c) (y :: ys)) with (String c (join (str1 c) (y :: ys))).
    rewrite split_by_whitespace_app_sep by exact Hc.
    rewrite no_whitespace_split by exact Hx. cbn [app]. f_equal. apply IH. discriminate.
Qed.

Lemma exon_char_ascii (c : ascii) : exon_char c = true ->
  byte_in 0 127 c && negb (is_ascii_whitespace c) = true.
Proof.
  intros H. destruct (exon_char_facts c H) as [-> _]. rewrite andb_true_r.
  unfold exon_char in H.
  destruct (is_digit c) eqn:Hd.
  - unfold is_digit, byte_in in *. cbv zeta in *.
    apply andb_prop in Hd as [_ Hd]. apply Nat.leb_le in Hd.
    apply andb_true_intro. split; apply Nat.leb_le; lia.
  - destruct (is_char "-" c) eqn:Hm; [apply is_char_true in Hm; now subst|].
    destruct (is_char "," c) eqn:Hc; [apply is_char_true in Hc; now subst|].
    discriminate.
Qed.

Lemma Exons_to_string_no_whitespace (e : Exons) : no_whitespace (Exons_to_string e) = true.
Proof.
  apply no_whitespace_ascii. eapply str_all_impl; [|apply Exons_to_string_chars].
  exact exon_char_ascii.
Qed.

(** The line of a read whose id is UTF-8: its bytes, [:], its identity. *)
Lemma ReadData_to_string_utf8 (utf8_lossy : string -> string) (r : ReadData.t) :
  utf8_valid (ReadData.id r) = true ->
  ReadData_to_string utf8_lossy r = ReadData.id r +:+ ":" +:+ ReadIdentity_debug (ReadData.identity r).
Proof. intros H. unfold ReadData_to_string. now rewrite bstr_display_valid. Qed.

Lemma ReadData_to_string_chars (utf8_lossy : string -> string) (r : ReadData.t) :
  read_well_formed r = true -> utf8_valid (ReadData.id r) = true ->
  str_all (fun c => negb (is_char "," c)) (ReadData_to_string utf8_lossy r) = true
  /\ no_whitespace (ReadData_to_string utf8_lossy r) = true.
Proof.
  unfold read_well_formed. intros H Hu. apply andb_prop in H as [Hws Hsep].
  rewrite ReadData_to_string_utf8 by exact Hu. split.
  - rewrite !str_all_app.
    assert (Hid : str_all (fun c => negb (is_char "," c)) (ReadData.id r) = true).
    { eapply str_all_impl; [|exact Hsep]. intros c Hc.
      cbv beta in *. destruct (is_char ":" c), (is_char "," c); easy. }
    rewrite Hid. destruct (ReadData.identity r); reflexivity.
  - change ":" with (String ":" EmptyString). rewrite append_cons, append_empty_l.
    rewrite no_whitespace_app by reflexivity. rewrite Hws.
    destruct (ReadData.identity r); reflexivity.
Qed.

Lemma ReadData_from_to_string (utf8_lossy : string -> string) (r : ReadData.t) :
  read_well_formed r = true -> utf8_valid (ReadData.id r) = true ->
  ReadData_from_str (ReadData_to_string utf8_lossy r) = Ok r.
Proof.
  intros H Hu. rewrite ReadData_to_string_utf8 by exact Hu.
  destruct r as [rid ri]. unfold read_well_formed in H. cbn [ReadData.id ReadData.identity] in *.
  apply andb_prop in H as [_ H].
  unfold ReadData_from_str, split.
  change (rid +:+ ":" +:+ ReadIdentity_debug ri)
    with (join (str1 ":") [rid; ReadIdentity_debug ri]).
  rewrite split_by_join.
  - cbn -[ReadIdentity_from_str]. now rewrite ReadIdentity_from_debug.
  - reflexivity.
  - discriminate.
  - constructor; [|constructor; [destruct ri; reflexivity | constructor]].
    eapply str_all_impl; [|exact H]. intros c Hc.
    cbv beta in *. destruct (is_char ":" c), (is_char "," c); easy.
Qed.

(** ** Node round trip *)

Lemma NodeData_to_string_join (utf8_lossy : string -> string) (n : NodeData.t) :
  node_utf8 n = true ->
  NodeData_to_string utf8_lossy n =
  join TAB ["N"; NodeData.id n;
            join (str1 ":") [NodeData.reference_id n; Strand_to_string (NodeData.strand n);
                             Exons_to_string (NodeData.exons n)];
            join (str1 ",") (map (ReadData_to_string utf8_lossy) (NodeData.reads n));
            sequence_field (NodeData.sequence n)].
Proof.
  unfold node_utf8. intros H.
  apply andb_prop in H as [H Hq]. apply andb_prop in H as [H _].
  apply andb_prop in H as [Hid Hrid].
  unfold NodeData_to_string, sequence_field. cbn [join].
  rewrite (bstr_display_valid _ (NodeData.id n)) by exact Hid.
  rewrite (bstr_display_valid _ (NodeData.reference_id n)) by exact Hrid.
  rewrite (bstr_display_valid _ (match NodeData.sequence n with
                                  | Some q => q | None => EmptyString end))
    by (destruct (NodeData.sequence n); [exact Hq | reflexivity]).
  rewrite !append_assoc_str. reflexivity.
Qed.

Lemma is_emptyb_join_cons (sep x : string) (xs : list string) :
  is_emptyb x = false -> is_emptyb (join sep (x :: xs)) = false.
Proof.
  intros Hx. destruct xs as [|y ys]; [exact Hx|].
  change (join sep (x :: y :: ys)) with (x +:+ sep +:+ join sep (y :: ys)).
  now rewrite is_emptyb_app, Hx.
Qed.

Lemma collect_reads (utf8_lossy : string -> string) (rds : list ReadData.t) :
  forallb read_well_formed rds = true ->
  forallb (fun r => utf8_valid (ReadData.id r)) rds = true ->
  collect_results (map (fun r => unwrap (ReadData_from_str r))
                       (map (ReadData_to_string utf8_lossy) rds)) = Ok rds.
Proof.
  induction rds as [|r rds IH]; intros H Hu; [reflexivity|].
  simpl in H, Hu. apply andb_prop in H as [Hr Hrs]. apply andb_prop in Hu as [Hur Hurs].
  cbn [map collect_results]. rewrite ReadData_from_to_string by assumption.
  cbn [unwrap obind]. now rewrite IH.
Qed.

(** [Display] then [FromStr] on a well-formed UTF-8 node without
    attributes. *)
Lemma NodeData_from_to_string (utf8_lossy : string -> string) (n : NodeData.t) :
  node_well_formed n = true -> node_utf8 n = true -> NodeData.attributes n = ∅ ->
  NodeData_from_str (NodeData_to_string utf8_lossy n) = Ok n.
Proof.
  intros Hwf Hutf Hattr. rewrite NodeData_to_string_join by exact Hutf.
  destruct n as [nid rid st ex rds sq attrs].
  unfold node_well_formed, node_utf8 in *.
  cbn [NodeData.id NodeData.reference_id NodeData.strand NodeData.exons NodeData.reads
       NodeData.sequence NodeData.attributes] in *.
  subst attrs.
  apply andb_prop in Hwf as [Hwf Hseq]. apply andb_prop in Hwf as [Hwf Hreads].
  apply andb_prop in Hwf as [Hwf Hrds_ne]. apply andb_prop in Hwf as [Hwf Hex_in].
  apply andb_prop in Hwf as [Hwf Hex_ne]. apply andb_prop in Hwf as [Hwf Href_sep].
  apply andb_prop in Hwf as [Hwf Href_ws]. apply andb_prop in Hwf as [Hid_ne Hid_ws].
  apply andb_prop in Hutf as [Hutf _]. apply andb_prop in Hutf as [_ Hreads_u].
  destruct rds as [|r rs]; [discriminate|].
  set (tok2 := join (str1 ":") [rid; Strand_to_string st; Exons_to_string ex]).
  set (tok3 := join (str1 ",") (map (ReadData_to_string utf8_lossy) (r :: rs))).
  assert (Hsplit2 : split ":" tok2 = [rid; Strand_to_string st; Exons_to_string ex]).
  { unfold split, tok2. apply split_by_join; [reflexivity | discriminate |].
    repeat constructor.
    - exact Href_sep.
    - destruct st; reflexivity.
    - eapply str_all_impl; [|apply Exons_to_string_chars]. intros c Hc.
      now destruct (exon_char_facts c Hc) as [_ ->]. }
  assert (Hrd : forall x, In x (r :: rs) ->
            str_all (fun c => negb (is_char "," c)) (ReadData_to_string utf8_lossy x) = true
            /\ no_whitespace (ReadData_to_string utf8_lossy x) = true).
  { intros x Hin. apply ReadData_to_string_chars.
    - exact (proj1 (forallb_forall _ _) Hreads x Hin).
    - exact (proj1 (forallb_forall _ _) Hreads_u x Hin). }
  assert (Hsplit3 : split "," tok3 = map (ReadData_to_string utf8_lossy) (r :: rs)).
  { unfold split, tok3. apply split_by_join; [reflexivity | discriminate |].
    apply List.Forall_forall. intros s (x & <- & Hin)%in_map_iff. exact (proj1 (Hrd x Hin)). }
  assert (Htok2_ws : no_whitespace tok2 = true).
  { unfold tok2. apply no_whitespace_join; [reflexivity | reflexivity |]. repeat constructor.
    - exact Href_ws.
    - destruct st; reflexivity.
    - apply Exons_to_string_no_whitespace. }
  assert (Htok3_ws : no_whitespace tok3 = true).
  { unfold tok3. apply no_whitespace_join; [reflexivity | reflexivity |].
    apply List.Forall_forall. intros s (x & <- & Hin)%in_map_iff. exact (proj2 (Hrd x Hin)). }
  assert (Htok2_ne : is_emptyb tok2 = false).
  { unfold tok2. cbn [join]. rewrite is_emptyb_app.
    destruct (is_emptyb rid); reflexivity. }
  assert (Htok3_ne : is_emptyb tok3 = false).
  { unfold tok3. cbn [map]. apply is_emptyb_join_cons.
    unfold ReadData_to_string. rewrite is_emptyb_app.
    destruct (is_emptyb (bstr_display utf8_lossy (ReadData.id r))); reflexivity. }
  assert (Hfields : split_whitespace
            (join TAB ["N"; nid; tok2; tok3; sequence_field sq])
          = ["N"; nid; tok2; tok3] ++ match sq with Some q => [q] | None => [] end).
  { unfold split_whitespace. change TAB with (str1 (ascii_of_nat 9)).
    rewrite split_by_whitespace_join; [| reflexivity | discriminate |].
    - apply negb_true_iff in Hid_ne.
      cbn [List.filter]. rewrite Hid_ne, Htok2_ne, Htok3_ne.
      destruct sq as [q|]; [|reflexivity].
      apply andb_prop in Hseq as [Hq _]. apply negb_true_iff in Hq.
      cbn [sequence_field]. now rewrite Hq.
    - repeat constructor; try assumption.
      destruct sq as [q|]; [|reflexivity].
      now apply andb_prop in Hseq as [_ Hq]. }
  assert (Hstrand : Strand_from_str (Strand_to_string st) = Ok st)
    by (destruct st; reflexivity).
  assert (Hex : Exons_from_str (Exons_to_string ex) = Ok ex).
  { apply Exons_from_to_string; [|exact Hex_in].
    intros E. rewrite E in Hex_ne. discriminate. }
  assert (Hrds := collect_reads utf8_lossy (r :: rs) Hreads Hreads_u).
  unfold NodeData_from_str. rewrite Hfields.
  destruct sq as [q|];
    cbn [app length Nat.ltb Nat.leb index nth_error obind];
    rewrite Hsplit2; cbn [index nth_error obind];
    rewrite Hstrand; cbn [map_err obind index nth_error];
    rewrite Hex; cbn [map_err obind index nth_error];
    rewrite Hsplit3, Hrds; cbn [obind nth andb negb].
  - apply andb_prop in Hseq as [Hq _]. now rewrite Hq.
  - reflexivity.
Qed.

(** C2 (amended): a node whose attribute map is empty, whose [BString]
    fields hold UTF-8 and survive the line ([node_well_formed]: no Unicode
    whitespace, no separator) is given back by [from_str] from its
    [Display], whatever bstr's lossy decoding of other bytes is. *)
Theorem node_display_from_str_roundtrip (utf8_lossy : string -> string) (n : NodeData.t) :
  node_well_formed n = true -> node_utf8 n = true -> NodeData.attributes n = ∅ ->
  NodeData_from_str (NodeData_to_string utf8_lossy n) = Ok n.
Proof. exact (NodeData_from_to_string utf8_lossy n). Qed.

(** ** Spans and introns: helper lemmas *)


Lemma sum_spans_ok (acc : N) (xs : list Interval) :
  Forall (fun x => start x <= end_ x) xs -> acc + total_length xs < USIZE_BOUND ->
  sum_spans acc xs = Some (acc + total_length xs).
Proof.
  revert acc. induction xs as [|x xs IH]; intros acc Hle Hb; simpl.
  - f_equal. lia.
  - change (total_length (x :: xs)) with (end_ x - start x + total_length xs) in *.
    inversion Hle as [|? ? Hx Hxs]; subst.
    unfold Interval_span. destruct (N.ltb_spec (end_ x) (start x)); [lia|].
    destruct (N.ltb_spec (acc + (end_ x - start x)) USIZE_BOUND); [|lia].
    rewrite IH by (assumption || lia). f_equal. lia.
Qed.

Lemma introns_fold (xs : list Interval) (idx : list nat) (l : list Interval) :
  (forall i, In i idx -> intron_at xs i <> None) ->
  exists l', fold_left
    (fun acc i => match acc with
                  | None => None
                  | Some l => match intron_at xs i with
                              | Some v => Some (l ++ [v])
                              | None => None
                              end
                  end) idx (Some l) = Some (l ++ l')
    /\ length l' = length idx
    /\ forall k i v, nth_error idx k = Some i -> intron_at xs i = Some v ->
                     nth_error l' k = Some v.
Proof.
  revert l. induction idx as [|i idx IH]; intros l Hok.
  - exists []. rewrite app_nil_r. split; [reflexivity|]. split; [reflexivity|].
    intros [|k] ? ? Hk; discriminate.
  - destruct (intron_at xs i) as [v|] eqn:Hv;
      [|exfalso; apply (Hok i); [left; reflexivity | exact Hv]].
    cbn [fold_left]. rewrite Hv.
    destruct (IH (l ++ [v])) as (l' & Hf & Hlen & Hnth).
    { intros j Hj. apply Hok. right. exact Hj. }
    exists (v :: l'). rewrite <- app_assoc in Hf. split; [exact Hf|].
    split; [simpl; now rewrite Hlen|].
    intros [|k] j w Hk Hw; simpl in Hk |- *.
    + inversion Hk; subst. congruence.
    + exact (Hnth k j w Hk Hw).
Qed.


Lemma inner_ends_fit_nth (xs : list Interval) (i : nat) (a b : Interval) :
  inner_ends_fit xs = true -> nth_error xs i = Some a -> nth_error xs (S i) = Some b ->
  end_ a + 1 < USIZE_BOUND.
Proof.
  revert i. induction xs as [|x xs IH]; intros i Hfit Ha Hb; [destruct i; discriminate|].
  destruct xs as [|y ys]; [destruct i; discriminate|].
  cbn [inner_ends_fit] in Hfit. apply andb_prop in Hfit as [Hx Hrest].
  destruct i as [|i].
  - simpl in Ha. inversion Ha; subst. now apply N.ltb_lt.
  - exact (IH i Hrest Ha Hb).
Qed.


(** ** node.rs claims *)

(** C1: [NodeData::from_str] panics, instead of returning an error, on a
    read token without [:], on a read identity outside SO/IN/SI, and on a
    location field with fewer than three [:]-separated parts; the read
    parser itself returns an error on the first two. *)
Theorem node_from_str_panics_on_malformed_fields :
  NodeData_from_str line_read_without_colon = Panic
  /\ NodeData_from_str line_bad_read_identity = Panic
  /\ NodeData_from_str line_two_part_location = Panic
  /\ ReadData_from_str "read1" = Err "Invalid read line format: read1"
  /\ ReadData_from_str "read1:XX" = Err "Invalid read identity: XX".
Proof. vm_compute. repeat split. Qed.

(** C2 (counterexample): three nodes that [Display] then [from_str] do
    not give back. A well-formed UTF-8 node with one attribute comes back
    with an empty attribute map. A node whose id is the byte 0xFF (no
    whitespace, no separator) comes back with the id U+FFFD, which bstr's
    [Display] wrote. A UTF-8 node whose id holds U+00A0 is written as a
    line whose fields [split_whitespace] shifts: [reference_and_exons[1]]
    is out of bounds and panics. *)
Lemma node_roundtrip_fails :
  (node_well_formed node_n1_with_attribute = true
   /\ node_utf8 node_n1_with_attribute = true
   /\ NodeData_from_str (NodeData_to_string lossy_one_replacement node_n1_with_attribute)
      <> Ok node_n1_with_attribute)
  /\ (node_well_formed node_id_ff = true
      /\ NodeData_from_str (NodeData_to_string lossy_one_replacement node_id_ff)
         = Ok (NodeData.mk REPLACEMENT_CHAR "chr1" Forward (mkExons [mkInterval 1000 2000])
                           [ReadData.mk "read1" SO] None ∅))
  /\ (node_utf8 node_id_nbsp = true
      /\ NodeData_from_str (NodeData_to_string lossy_one_replacement node_id_nbsp) = Panic).
Proof.
  split; [split; [reflexivity|]; split; [reflexivity|] | split; split; vm_compute; reflexivity].
  intros E.
  apply (f_equal (fun o => match o with
                           | Ok n => NodeData.attributes n !! "ptc"
                           | _ => None
                           end)) in E.
  vm_compute in E. discriminate.
Qed.

(** C2 witness. *)
Lemma node_display_from_str_roundtrip_witness :
  node_well_formed node_n1 = true /\ node_utf8 node_n1 = true
  /\ NodeData.attributes node_n1 = ∅
  /\ NodeData_from_str (NodeData_to_string lossy_one_replacement node_n1) = Ok node_n1.
Proof.
  split; [reflexivity|]. split; [reflexivity|]. split; [reflexivity|].
  apply node_display_from_str_roundtrip; reflexivity.
Defined.

(** C4 (counterexample): the parser accepts an exon ending at
    [usize::MAX]; [introns()] then overflows on [end + 1] and returns no
    interval list. *)
Lemma introns_overflow_at_usize_max :
  Exons_from_str "0-18446744073709551615,5-6" = Ok exons_with_max_end
  /\ introns exons_with_max_end = None.
Proof. vm_compute. split; reflexivity. Qed.

(** C4 (amended): when every exon but the last ends below [usize::MAX],
    [introns()] returns one interval per consecutive pair, the i-th being
    [(exon[i].end + 1, exon[i+1].start)]. *)
Theorem introns_consecutive_pairs (e : Exons) :
  inner_ends_fit (exons e) = true ->
  exists l, introns e = Some l
    /\ length l = (length (exons e) - 1)%nat
    /\ forall i a b, nth_error (exons e) i = Some a -> nth_error (exons e) (S i) = Some b ->
         nth_error l i = Some (mkInterval (end_ a + 1) (start b)).
Proof.
  intros Hfit. unfold introns.
  set (xs := exons e) in *.
  assert (Hat : forall i a b, nth_error xs i = Some a -> nth_error xs (S i) = Some b ->
                  intron_at xs i = Some (mkInterval (end_ a + 1) (start b))).
  { intros i a b Ha Hb. unfold intron_at. rewrite Ha, Hb.
    pose proof (inner_ends_fit_nth xs i a b Hfit Ha Hb) as Hlt.
    apply N.ltb_lt in Hlt. now rewrite Hlt. }
  destruct (introns_fold xs (seq 0 (length xs - 1)) []) as (l & Hf & Hlen & Hnth).
  - intros i Hi. apply in_seq in Hi as [_ Hi].
    destruct (nth_error xs i) as [a|] eqn:Ha;
      [|apply nth_error_None in Ha; lia].
    destruct (nth_error xs (S i)) as [b|] eqn:Hb;
      [|apply nth_error_None in Hb; lia].
    rewrite (Hat i a b Ha Hb). discriminate.
  - exists l. split; [exact Hf|]. split; [now rewrite Hlen, length_seq|].
    intros i a b Ha Hb. apply (Hnth i i).
    + rewrite nth_error_seq.
      assert (Hi : (i < length xs - 1)%nat).
      { assert (S i < length xs)%nat by (apply nth_error_Some; congruence). lia. }
      apply Nat.ltb_lt in Hi. now rewrite Hi.
    + exact (Hat i a b Ha Hb).
Qed.

(** C4 witness: the exons ["100-200,300-400,500-600"] give exactly
    [[(201,300),(401,500)]]. *)
Lemma introns_consecutive_pairs_witness :
  Exons_from_str "100-200,300-400,500-600" = Ok example_exons
  /\ introns example_exons = Some [mkInterval 201 300; mkInterval 401 500]
  /\ inner_ends_fit (exons example_exons) = true
  /\ exists l, introns example_exons = Some l
       /\ length l = (length (exons example_exons) - 1)%nat
       /\ forall i a b, nth_error (exons example_exons) i = Some a ->
            nth_error (exons example_exons) (S i) = Some b ->
            nth_error l i = Some (mkInterval (end_ a + 1) (start b)).
Proof.
  split; [vm_compute; reflexivity|]. split; [vm_compute; reflexivity|].
  split; [vm_compute; reflexivity|].
  apply introns_consecutive_pairs. vm_compute. reflexivity.
Defined.

(** C5 (counterexample): [Interval::span] on [200-100] has no length: the
    [usize] subtraction [end - start] underflows. *)
Lemma interval_span_no_length_when_reversed :
  Interval_span (mkInterval 200 100) = None.
Proof. reflexivity. Qed.

(** C5 (amended): for exons with [start <= end] whose total length fits in
    [usize], each [Interval::span] is [end - start] and [Exons::span] is
    their sum. *)
Theorem exons_span_sum_of_lengths (e : Exons) :
  forallb (fun x => start x <=? end_ x) (exons e) = true ->
  (total_length (exons e) <? USIZE_BOUND) = true ->
  Exons_span e = Some (total_length (exons e))
  /\ forall x, In x (exons e) -> Interval_span x = Some (end_ x - start x).
Proof.
  intros Hord Hfit. apply N.ltb_lt in Hfit.
  assert (Hle : Forall (fun x => start x <= end_ x) (exons e)).
  { apply List.Forall_forall. intros x Hx.
    apply N.leb_le. exact (proj1 (forallb_forall _ _) Hord x Hx). }
  split.
  - unfold Exons_span. rewrite sum_spans_ok; [reflexivity | exact Hle | exact Hfit].
  - intros x Hx. rewrite List.Forall_forall in Hle. specialize (Hle x Hx).
    unfold Interval_span. destruct (N.ltb_spec (end_ x) (start x)); [lia | reflexivity].
Qed.

(** C5 witness: [span()] over ["100-200,300-400,500-600"] is 300. *)
Lemma exons_span_sum_of_lengths_witness :
  Exons_from_str "100-200,300-400,500-600" = Ok example_exons
  /\ Exons_span example_exons = Some 300
  /\ Exons_span example_exons = Some (total_length (exons example_exons))
  /\ forall x, In x (exons example_exons) -> Interval_span x = Some (end_ x - start x).
Proof.
  split; [vm_compute; reflexivity|]. split; [vm_compute; reflexivity|].
  apply exons_span_sum_of_lengths; vm_compute; reflexivity.
Defined.

(** C6 (counterexample): the error for a short line is a function of the
    line alone; for a line without digits it holds no digit, hence no line
    number. *)
Lemma short_line_error_has_no_line_number :
  exists e, NodeData_from_str line_two_fields = Err e
    /\ str_all (fun c => negb (is_digit c)) e = true.
Proof. eexists. split; [vm_compute; reflexivity | vm_compute; reflexivity]. Qed.

(** C6 (amended): a line with fewer than four whitespace-separated fields
    gives the error ["Invalid node line format: " ++ line], which carries
    the raw line. *)
Theorem node_from_str_short_line_error (s : string) :
  (length (split_whitespace s) < 4)%nat ->
  NodeData_from_str s = Err ("Invalid node line format: " +:+ s).
Proof.
  intros H. unfold NodeData_from_str.
  apply Nat.ltb_lt in H. now rewrite H.
Qed.

(** C6 witness. *)
Lemma node_from_str_short_line_error_witness :
  (length (split_whitespace line_three_fields) < 4)%nat
  /\ NodeData_from_str line_three_fields
     = Err ("Invalid node line format: " +:+ line_three_fields).
Proof.
  split; [vm_compute; lia|].
  apply node_from_str_short_line_error. vm_compute. lia.
Defined.

(** C10: [Interval::span] returns a length exactly when [start <= end];
    [Interval::from_str] accepts ["200-100"], whose [span] underflows. *)
Theorem interval_span_underflow_reachable :
  (forall x, Interval_span x <> None <-> start x <= end_ x)
  /\ Interval_from_str "200-100" = Ok (mkInterval 200 100)
  /\ Interval_span (mkInterval 200 100) = None.
Proof.
  split; [|split; vm_compute; reflexivity].
  intros x. unfold Interval_span.
  destruct (N.ltb_spec (end_ x) (start x)) as [Hlt | Hge]; split; intros H; try lia; congruence.
Qed.

(** ** path.rs: helper lemmas *)


Lemma obind_ok_r {E A} (m : outcome E A) : obind m (fun x => Ok x) = m.
Proof. destruct m; reflexivity. Qed.

Section PathFacts.

Context {G : Type} (node_by_idx : G -> NodeIndex -> option NodeData.t) (hash : string -> N).

Lemma collect_node_ids (p : @TSGPath G) (g : G) (idxs : list NodeIndex) (ids : list string) :
  graph p = Some g -> resolve_ids node_by_idx g idxs = Some ids ->
  forallb utf8_valid ids = true ->
  collect_results (map (node_id_str node_by_idx p) idxs) = Ok ids.
Proof.
  intros Hg. revert ids. induction idxs as [|i idxs IH]; intros ids Hr Hv.
  - simpl in Hr. inversion Hr. reflexivity.
  - simpl in Hr. destruct (node_by_idx g i) as [nd|] eqn:Hnd; [|discriminate].
    destruct (resolve_ids node_by_idx g idxs) as [rest|] eqn:Hrest; [|discriminate].
    inversion Hr; subst ids. simpl in Hv. apply andb_prop in Hv as [Hv1 Hv2].
    cbn [map collect_results]. unfold node_id_str at 1. rewrite Hg. cbn [unwrap_opt obind].
    rewrite Hnd. cbn [unwrap_opt obind]. unfold to_str. rewrite Hv1. cbn [unwrap_opt obind].
    rewrite (IH rest eq_refl Hv2). reflexivity.
Qed.

Lemma id_without_section (p : @TSGPath G) :
  nodes p <> [] -> graph p = None -> TSGPath_id node_by_idx hash p = Panic.
Proof.
  intros Hne Hg. unfold TSGPath_id.
  destruct (nodes p) as [|i rest] eqn:Hn; [congruence|].
  cbn [is_nil map collect_results]. unfold node_id_str at 1. rewrite Hg. reflexivity.
Qed.

Lemma id_with_section (p : @TSGPath G) (g : G) (ids : list string) :
  graph p = Some g -> resolve_ids node_by_idx g (nodes p) = Some ids ->
  ids <> [] -> forallb utf8_valid ids = true ->
  TSGPath_id node_by_idx hash p = to_hash_identifier hash (join "-" ids) (Some 16%nat).
Proof.
  intros Hg Hr Hne Hv. unfold TSGPath_id.
  destruct (nodes p) as [|i rest] eqn:Hn.
  - simpl in Hr. inversion Hr. congruence.
  - cbn [is_nil].
    rewrite (collect_node_ids p g (i :: rest) ids Hg Hr Hv). cbn [obind].
    apply obind_ok_r.
Qed.

End PathFacts.

(** ** path.rs claims *)

(** C3 (counterexample): the empty path (no nodes, no edges) fails
    [validate()]. *)
Lemma validate_rejects_empty_path :
  nodes empty_path = [] /\ edges empty_path = []
  /\ TSGPath_validate empty_path = Err "Invalid path: node count must be edge count + 1".
Proof. repeat split. Qed.

(** C3 (amended): [validate()] succeeds exactly when
    [len(nodes) == len(edges) + 1], for every path, the empty one included;
    on every other count it returns the error
    ["Invalid path: node count must be edge count + 1"] (and never panics). *)
Theorem validate_iff_node_edge_count {G : Type} (p : @TSGPath G) :
  (TSGPath_validate p = Ok tt <-> length (nodes p) = (length (edges p) + 1)%nat)
  /\ (length (nodes p) <> (length (edges p) + 1)%nat ->
      TSGPath_validate p = Err "Invalid path: node count must be edge count + 1").
Proof.
  unfold TSGPath_validate.
  destruct (Nat.eqb_spec (length (nodes p)) (length (edges p) + 1)) as [Heq | Hne];
    simpl; (split; [split; intros H; congruence | intros H; congruence]).
Qed.

(** C7 (counterexample): a path with three node indices but no stored
    section ([graph] is [None]) gets no identity: [id()] panics. *)
Lemma path_id_panics_without_section :
  nodes path_n123_no_section <> []
  /\ TSGPath_id list_node_by_idx example_hash path_n123_no_section = Panic.
Proof. split; [discriminate | reflexivity]. Qed.

(** C7 (amended): [id()] fails with ["No nodes in path"] on a path with no
    nodes; a path whose stored section resolves every node index to a UTF-8
    id gets the result of [to_hash_identifier] on the ids joined by ["-"],
    an identity; a path with nodes but no stored section gets no identity. *)
Theorem path_id_outcomes {G : Type} (node_by_idx : G -> NodeIndex -> option NodeData.t)
  (hash : string -> N) (p : @TSGPath G) :
  (nodes p = [] -> TSGPath_id node_by_idx hash p = Err "No nodes in path")
  /\ (nodes p <> [] -> graph p = None -> forall h, TSGPath_id node_by_idx hash p <> Ok h)
  /\ (forall g ids, graph p = Some g -> resolve_ids node_by_idx g (nodes p) = Some ids ->
        ids <> [] -> forallb utf8_valid ids = true ->
        exists h, TSGPath_id node_by_idx hash p = Ok h
          /\ to_hash_identifier hash (join "-" ids) (Some 16%nat) = Ok h).
Proof.
  split; [|split].
  - intros Hn. unfold TSGPath_id. now rewrite Hn.
  - intros Hn Hg h. rewrite (id_without_section node_by_idx hash p Hn Hg). discriminate.
  - intros g ids Hg Hr Hne Hv. rewrite (id_with_section node_by_idx hash p g ids Hg Hr Hne Hv).
    eexists. split; reflexivity.
Qed.




(** ** Parsing: helper lemmas *)

Lemma parse_digits_bound (acc n : N) (s : string) :
  parse_digits acc s = Ok n -> acc < USIZE_BOUND -> n < USIZE_BOUND.
Proof.
  revert acc. induction s as [|c s IH]; intros acc H Hacc; cbn [parse_digits] in H.
  - inversion H; subst. exact Hacc.
  - destruct (to_digit c) as [d|]; [|discriminate].
    destruct (N.ltb_spec (acc * 10 + d) USIZE_BOUND) as [Hlt|]; [|discriminate].
    exact (IH _ H Hlt).
Qed.

Lemma usize_from_str_bound (s : string) (n : N) :
  usize_from_str s = Ok n -> n < USIZE_BOUND.
Proof.
  unfold usize_from_str. destruct s as [|c rest]; [discriminate|].
  destruct ((is_char "+" c || is_char "-" c) && is_emptyb rest); [discriminate|].
  destruct (is_char "+" c); intros H; (eapply parse_digits_bound; [exact H | reflexivity]).
Qed.

Lemma Interval_from_str_ok (s : string) (x : Interval) :
  Interval_from_str s = Ok x -> interval_in_usize x = true.
Proof.
  unfold Interval_from_str. destruct (negb _); [discriminate|].
  destruct (index (split "-" s) 0) as [p0| |]; cbn [obind]; try discriminate.
  destruct (usize_from_str p0) as [a| |] eqn:Ha; cbn [map_err obind]; try discriminate.
  destruct (index (split "-" s) 1) as [p1| |]; cbn [obind]; try discriminate.
  destruct (usize_from_str p1) as [b| |] eqn:Hb; cbn [map_err obind]; try discriminate.
  intros H. inversion H; subst. unfold interval_in_usize. cbn [start end_].
  apply usize_from_str_bound in Ha, Hb. apply andb_true_intro. split; apply N.ltb_lt; assumption.
Qed.

Lemma collect_results_map_ok {E A B} (f : A -> outcome E B) (xs : list A) (ys : list B) :
  collect_results (map f xs) = Ok ys -> Forall2 (fun x y => f x = Ok y) xs ys.
Proof.
  revert ys. induction xs as [|x xs IH]; intros ys H; cbn [map collect_results] in H.
  - inversion H. constructor.
  - destruct (f x) as [a|e|] eqn:Hx; cbn [obind] in H; try discriminate.
    destruct (collect_results (map f xs)) as [r|e|]; cbn [obind] in H; try discriminate.
    inversion H; subst. constructor; [exact Hx|]. apply IH. reflexivity.
Qed.


Lemma Exons_from_str_ok (s : string) (e : Exons) :
  Exons_from_str s = Ok e -> exons e <> [] /\ forallb interval_in_usize (exons e) = true.
Proof.
  unfold Exons_from_str.
  destruct (collect_results (map Interval_from_str (split "," s))) as [xs| |] eqn:H;
    cbn [obind]; try discriminate.
  intros E. inversion E; subst; clear E. cbn [exons].
  apply collect_results_map_ok in H. split.
  - intros ->. apply Forall2_length in H. destruct (split "," s) eqn:Hs; [|discriminate].
    exact (split_by_nonempty _ _ Hs).
  - induction H as [|x y xs' ys' Hxy _ IH]; [reflexivity|].
    cbn [forallb]. now rewrite (Interval_from_str_ok _ _ Hxy), IH.
Qed.

Lemma str_all_true (s : string) : str_all (fun _ => true) s = true.
Proof. induction s as [|c s IH]; [reflexivity|exact IH]. Qed.

(** The pieces of [s.split(p)] are free of [p] and keep every property of
    the characters of [s]. *)
Lemma split_by_pieces (p f : ascii -> bool) (s : string) :
  str_all f s = true ->
  Forall (fun x => str_all (fun c => f c && negb (p c)) x = true) (split_by p s).
Proof.
  induction s as [|c s IH]; intros H; cbn [split_by].
  - repeat constructor.
  - cbn [str_all] in H. apply andb_prop in H as [Hc Hs]. specialize (IH Hs).
    destruct (p c) eqn:Hp.
    + constructor; [reflexivity | exact IH].
    + destruct (split_by p s) as [|h t].
      * constructor; [|constructor]. cbn [str_all]. now rewrite Hc, Hp.
      * inversion IH as [|? ? Hh Ht]; subst. constructor; [|exact Ht].
        cbn [str_all]. now rewrite Hc, Hp, Hh.
Qed.

Lemma no_whitespace_suffix (a b : string) :
  no_whitespace (a +:+ b) = true -> no_whitespace b = true.
Proof.
  induction a as [|x a IH]; [easy|]. rewrite append_cons. cbn [no_whitespace].
  intros H. apply andb_prop in H as [_ H]. exact (IH H).
Qed.

(** The pieces of [split_by_whitespace] have no whitespace. *)
Lemma split_by_whitespace_no_whitespace (s : string) :
  Forall (fun x => no_whitespace x = true) (split_by_whitespace s).
Proof.
  induction s as [s IH] using string_strong_ind.
  destruct s as [|c r]; [now repeat constructor|].
  destruct (starts_with_whitespace (String c r)) eqn:Hw.
  - cbn [starts_with_whitespace] in Hw.
    destruct (is_ascii_whitespace c) eqn:H1.
    { rewrite split_by_whitespace_ws1 by exact H1. constructor; [reflexivity|].
      apply IH. cbn. lia. }
    destruct r as [|c1 r1]; [discriminate|].
    destruct (whitespace2 c c1) eqn:H2.
    { rewrite split_by_whitespace_ws2 by assumption. constructor; [reflexivity|].
      apply IH. cbn. lia. }
    destruct r1 as [|c2 r2]; [discriminate|]. cbn [orb] in Hw.
    rewrite split_by_whitespace_ws3 by assumption. constructor; [reflexivity|].
    apply IH. cbn. lia.
  - rewrite split_by_whitespace_push by exact Hw.
    assert (IHr := IH r ltac:(cbn; lia)).
    destruct (split_by_whitespace r) as [|h t] eqn:Er;
      [exfalso; exact (split_by_whitespace_nonempty r Er)|].
    inversion IHr as [|? ? Hh Ht]; subst. cbn [push]. constructor; [|exact Ht].
    cbn [no_whitespace]. rewrite Hh, andb_true_r. apply negb_true_iff.
    destruct (starts_with_whitespace (String c h)) eqn:Hch; [|reflexivity].
    destruct (split_by_whitespace_decomp r h t Er) as [[-> _] | (w & rest & -> & _ & _)];
      [congruence|].
    apply (starts_with_whitespace_mono _ (w +:+ rest)) in Hch.
    rewrite append_cons in Hch. congruence.
Qed.

(** The pieces of a string without whitespace cut at a character have no
    whitespace. *)
Lemma split_no_whitespace (c : ascii) (s : string) :
  no_whitespace s = true -> Forall (fun x => no_whitespace x = true) (split c s).
Proof.
  unfold split. induction s as [s IH] using string_strong_ind. intros Hs.
  destruct (split_by (is_char c) s) as [|h t] eqn:E;
    [exfalso; exact (split_by_nonempty _ s E)|].
  destruct (split_by_decomp _ s h t E) as [[-> ->] | (d & rest & _ & -> & ->)].
  - now repeat constructor.
  - constructor; [exact (no_whitespace_prefix _ _ Hs)|].
    apply no_whitespace_suffix in Hs. cbn [no_whitespace] in Hs.
    apply andb_prop in Hs as [_ Hs].
    apply IH; [|exact Hs]. rewrite string_length_app. cbn. lia.
Qed.

Lemma split_whitespace_pieces (s : string) :
  Forall (fun x => is_emptyb x = false /\ no_whitespace x = true) (split_whitespace s).
Proof.
  apply List.Forall_forall. intros x Hin. unfold split_whitespace in Hin.
  apply filter_In in Hin as [Hin Hne]. split; [now apply negb_true_iff|].
  exact (proj1 (List.Forall_forall _ _) (split_by_whitespace_no_whitespace s) x Hin).
Qed.

Lemma split_whitespace_utf8 (s : string) :
  utf8_valid s = true -> Forall (fun x => utf8_valid x = true) (split_whitespace s).
Proof.
  intros Hs. apply List.Forall_forall. intros x Hin. unfold split_whitespace in Hin.
  apply filter_In in Hin as [Hin _].
  exact (proj1 (List.Forall_forall _ _) (split_by_whitespace_utf8 s Hs) x Hin).
Qed.

Lemma ReadData_from_str_id (f : ascii -> bool) (s : string) (r : ReadData.t) :
  ReadData_from_str s = Ok r -> str_all f s = true ->
  str_all (fun c => f c && negb (is_char ":" c)) (ReadData.id r) = true.
Proof.
  unfold ReadData_from_str. intros H Hs.
  pose proof (split_by_pieces (is_char ":") f s Hs) as Hp. fold (split ":" s) in Hp.
  destruct (split ":" s) as [|f0 [|f1 [|f2 rest]]]; cbn [length Nat.eqb negb] in H;
    try discriminate.
  cbn [index nth_error obind] in H.
  destruct (ReadIdentity_from_str f1); cbn [obind] in H; try discriminate.
  inversion H; subst. cbn [ReadData.id]. now inversion Hp.
Qed.

(** The id of a parsed read is the first [:]-separated piece of its text. *)
Lemma ReadData_from_str_id_piece (s : string) (r : ReadData.t) :
  ReadData_from_str s = Ok r -> In (ReadData.id r) (split ":" s).
Proof.
  unfold ReadData_from_str. intros H.
  destruct (split ":" s) as [|f0 [|f1 [|f2 rest]]]; cbn [length Nat.eqb negb] in H;
    try discriminate.
  cbn [index nth_error obind] in H.
  destruct (ReadIdentity_from_str f1); cbn [obind] in H; try discriminate.
  inversion H; subst. cbn. now left.
Qed.

Lemma ReadData_roundtrip_no_colon (utf8_lossy : string -> string) (r : ReadData.t) :
  str_all (fun c => negb (is_char ":" c)) (ReadData.id r) = true ->
  utf8_valid (ReadData.id r) = true ->
  ReadData_from_str (ReadData_to_string utf8_lossy r) = Ok r.
Proof.
  intros H Hu. rewrite ReadData_to_string_utf8 by exact Hu.
  destruct r as [rid ri]. cbn [ReadData.id ReadData.identity] in *.
  unfold ReadData_from_str, split.
  change (rid +:+ ":" +:+ ReadIdentity_debug ri)
    with (join (str1 ":") [rid; ReadIdentity_debug ri]).
  rewrite split_by_join.
  - cbn -[ReadIdentity_from_str]. now rewrite ReadIdentity_from_debug.
  - reflexivity.
  - discriminate.
  - constructor; [exact H | constructor; [destruct ri; reflexivity | constructor]].
Qed.

Lemma NodeData_from_str_wf (s : string) (n : NodeData.t) :
  NodeData_from_str s = Ok n -> node_well_formed n = true /\ NodeData.attributes n = ∅.
Proof.
  unfold NodeData_from_str. intros H.
  pose proof (split_whitespace_pieces s) as Hp.
  destruct (split_whitespace s) as [|f0 [|f1 [|f2 [|f3 rest]]]];
    cbn [length Nat.ltb Nat.leb] in H; try discriminate.
  inversion Hp as [|? ? _ Hp1]; subst. inversion Hp1 as [|? ? [Hf1_ne Hf1_ws] Hp2]; subst.
  inversion Hp2 as [|? ? [_ Hf2_ws] Hp3]; subst.
  inversion Hp3 as [|? ? [_ Hf3_ws] Hrest]; subst.
  cbn [index nth_error obind] in H.
  pose proof (split_by_pieces (is_char ":") _ f2 (str_all_true f2)) as Hq.
  fold (split ":" f2) in Hq.
  pose proof (split_no_whitespace ":" f2 Hf2_ws) as Hqw.
  destruct (split ":" f2) as [|r0 [|r1 [|r2 rs]]]; cbn [index nth_error obind] in H;
    try discriminate;
    destruct (Strand_from_str r1) as [st| |]; cbn [map_err obind] in H; try discriminate.
  inversion Hq as [|? ? Hr0 _]; subst. inversion Hqw as [|? ? Hr0w _]; subst.
  destruct (Exons_from_str r2) as [ex| |] eqn:Hexok; cbn [map_err obind] in H;
    try discriminate.
  destruct (collect_results (map (fun r => unwrap (ReadData_from_str r)) (split "," f3)))
    as [rds| |] eqn:Hrds; cbn [obind] in H; try discriminate.
  inversion H; subst; clear H. split; [|reflexivity].
  destruct (Exons_from_str_ok _ _ Hexok) as [Hex_ne Hex_in].
  apply collect_results_map_ok in Hrds.
  pose proof (split_by_pieces (is_char ",") _ f3 (str_all_true f3)) as Hr.
  fold (split "," f3) in Hr.
  pose proof (split_no_whitespace "," f3 Hf3_ws) as Hrw.
  unfold node_well_formed. cbn [NodeData.id NodeData.reference_id NodeData.exons
    NodeData.reads NodeData.sequence].
  rewrite Hf1_ne, Hf1_ws, Hr0w, Hex_in. cbn [negb andb].
  assert (Hr0' : str_all (fun c => negb (is_char ":" c)) r0 = true).
  { eapply str_all_impl; [|exact Hr0]. intros c Hc. exact Hc. }
  rewrite Hr0'.
  destruct (exons ex) as [|x xs]; [congruence|]. cbn [is_nil negb andb].
  assert (Hrds_ne : is_nil rds = false).
  { destruct rds; [|reflexivity]. apply Forall2_length in Hrds.
    destruct (split "," f3) eqn:E; [exact (False_ind _ (split_by_nonempty _ _ E))|discriminate]. }
  rewrite Hrds_ne. cbn [negb andb].
  assert (Hrwf : forallb read_well_formed rds = true).
  { clear Hrds_ne. induction Hrds as [|piece rd ps rs' Hprd _ IH]; [reflexivity|].
    inversion Hr as [|? ? Hpiece Hr']; subst. inversion Hrw as [|? ? Hpiece_w Hrw']; subst.
    cbn [forallb]. apply andb_true_intro. split; [|exact (IH Hr' Hrw')].
    assert (Hok : ReadData_from_str piece = Ok rd).
    { destruct (ReadData_from_str piece); cbn [unwrap] in Hprd; congruence. }
    pose proof (ReadData_from_str_id _ _ _ Hok Hpiece) as Hid.
    unfold read_well_formed. apply andb_true_intro. split.
    - exact (proj1 (List.Forall_forall _ _) (split_no_whitespace ":" piece Hpiece_w) _
               (ReadData_from_str_id_piece _ _ Hok)).
    - eapply str_all_impl; [|exact Hid].
      intros c Hc. cbv beta in *.
      destruct (is_char ":" c), (is_char "," c); easy. }
  rewrite Hrwf. cbn [andb].
  destruct rest as [|f4 rest']; cbn [length Nat.ltb Nat.leb andb]; [reflexivity|].
  cbn [nth]. inversion Hrest as [|? ? [Hf4_ne Hf4_ws] _]; subst.
  rewrite Hf4_ne. cbn [negb andb]. rewrite ?Hf4_ne, ?Hf4_ws. reflexivity.
Qed.

(** The text fields of a node parsed from UTF-8 are UTF-8. *)
Lemma NodeData_from_str_utf8 (s : string) (n : NodeData.t) :
  utf8_valid s = true -> NodeData_from_str s = Ok n -> node_utf8 n = true.
Proof.
  intros Hs. unfold NodeData_from_str. intros H.
  pose proof (split_whitespace_utf8 s Hs) as Hp.
  destruct (split_whitespace s) as [|f0 [|f1 [|f2 [|f3 rest]]]];
    cbn [length Nat.ltb Nat.leb] in H; try discriminate.
  inversion Hp as [|? ? _ Hp1]; subst. inversion Hp1 as [|? ? Hf1 Hp2]; subst.
  inversion Hp2 as [|? ? Hf2 Hp3]; subst. inversion Hp3 as [|? ? Hf3 Hrest]; subst.
  cbn [index nth_error obind] in H.
  pose proof (split_utf8 ":" f2 eq_refl Hf2) as Hq.
  destruct (split ":" f2) as [|r0 [|r1 [|r2 rs]]]; cbn [index nth_error obind] in H;
    try discriminate;
    destruct (Strand_from_str r1) as [st| |]; cbn [map_err obind] in H; try discriminate.
  inversion Hq as [|? ? Hr0 _]; subst.
  destruct (Exons_from_str r2) as [ex| |]; cbn [map_err obind] in H; try discriminate.
  destruct (collect_results (map (fun r => unwrap (ReadData_from_str r)) (split "," f3)))
    as [rds| |] eqn:Hrds; cbn [obind] in H; try discriminate.
  inversion H; subst; clear H.
  apply collect_results_map_ok in Hrds.
  pose proof (split_utf8 "," f3 eq_refl Hf3) as Hr.
  unfold node_utf8. cbn [NodeData.id NodeData.reference_id NodeData.reads NodeData.sequence].
  rewrite Hf1, Hr0. cbn [andb].
  assert (Hru : forallb (fun r => utf8_valid (ReadData.id r)) rds = true).
  { induction Hrds as [|piece rd ps rs' Hprd _ IH]; [reflexivity|].
    inversion Hr as [|? ? Hpiece Hr']; subst. cbn [forallb]. rewrite (IH Hr'), andb_true_r.
    assert (Hok : ReadData_from_str piece = Ok rd).
    { destruct (ReadData_from_str piece); cbn [unwrap] in Hprd; congruence. }
    exact (proj1 (List.Forall_forall _ _) (split_utf8 ":" piece eq_refl Hpiece) _
             (ReadData_from_str_id_piece _ _ Hok)). }
  rewrite Hru. cbn [andb].
  destruct rest as [|f4 rest']; cbn [length Nat.ltb Nat.leb andb]; [reflexivity|].
  cbn [nth]. inversion Hrest as [|? ? Hf4 _]; subst.
  destruct (negb (is_emptyb f4)); [exact Hf4 | reflexivity].
Qed.

(** ** Exons: helper lemmas *)

Lemma last_default (y d1 d2 : Interval) (ys : list Interval) :
  List.last (y :: ys) d1 = List.last (y :: ys) d2.
Proof.
  revert y. induction ys as [|z zs IH]; intros y; [reflexivity|].
  change (List.last (z :: zs) d1 = List.last (z :: zs) d2). apply IH.
Qed.

Lemma last_nth_error (d x : Interval) (xs : list Interval) :
  nth_error (x :: xs) (length (x :: xs) - 1) = Some (List.last (x :: xs) d).
Proof.
  replace (length (x :: xs) - 1)%nat with (length xs) by (cbn [length]; lia).
  revert x. induction xs as [|y ys IH]; intros x; [reflexivity|].
  cbn [length nth_error]. rewrite IH. reflexivity.
Qed.

Lemma ordered_total_length (x : Interval) (xs : list Interval) :
  exons_ordered (x :: xs) = true ->
  start x + total_length (x :: xs) <= end_ (List.last (x :: xs) x)
  /\ Forall (fun y => start y <= end_ y) (x :: xs).
Proof.
  revert x. induction xs as [|y ys IH]; intros x H.
  - simpl in H. apply N.leb_le in H. unfold total_length. cbn.
    split; [lia | repeat constructor; exact H].
  - change (exons_ordered (x :: y :: ys))
      with ((start x <=? end_ x) && (end_ x <=? start y) && exons_ordered (y :: ys)) in H.
    apply andb_prop in H as [H Hr]. apply andb_prop in H as [H1 H2].
    apply N.leb_le in H1, H2.
    destruct (IH y Hr) as [Hle Hall].
    change (total_length (x :: y :: ys)) with (end_ x - start x + total_length (y :: ys)).
    change (List.last (x :: y :: ys) x) with (List.last (y :: ys) x).
    rewrite (last_default y x y). split; [lia | constructor; assumption].
Qed.

(** ** Extra properties: parsing and printing (node.rs) *)

(** An interval parsed by [Interval::from_str] has both coordinates within
    [usize], and printing it as [Exons] prints an exon ([{start}-{end}])
    gives a text that parses back to it. *)
Theorem interval_from_str_normal_form (s : string) (x : Interval) :
  Interval_from_str s = Ok x ->
  interval_in_usize x = true /\ Interval_from_str (Interval_to_string x) = Ok x.
Proof.
  intros H. pose proof (Interval_from_str_ok s x H) as Hin.
  split; [exact Hin | exact (Interval_from_to_string x Hin)].
Qed.

(** Printing a non-empty exon list of [usize] coordinates with [Display]
    and parsing it with [FromStr] gives back the same exons. *)
Theorem exons_display_from_str_roundtrip (e : Exons) :
  exons e <> [] -> forallb interval_in_usize (exons e) = true ->
  Exons_from_str (Exons_to_string e) = Ok e.
Proof. apply Exons_from_to_string. Qed.

(** [Exons::from_str] never returns an empty exon list; the exons it
    returns are within [usize], and their [Display] parses back to them. *)
Theorem exons_from_str_normal_form (s : string) (e : Exons) :
  Exons_from_str s = Ok e ->
  exons e <> [] /\ forallb interval_in_usize (exons e) = true
  /\ Exons_from_str (Exons_to_string e) = Ok e.
Proof.
  intros H. destruct (Exons_from_str_ok s e H) as [Hne Hin].
  split; [exact Hne|]. split; [exact Hin|]. exact (Exons_from_to_string e Hne Hin).
Qed.

(** [ReadIdentity::from_str] accepts exactly the three texts its
    [Display] writes, never panics, and otherwise fails with
    ["Invalid read identity: <text>"]. *)
Theorem read_identity_from_str_exact (s : string) (r : ReadIdentity) :
  (ReadIdentity_from_str s = Ok r <-> s = ReadIdentity_to_string r)
  /\ ReadIdentity_from_str s <> Panic
  /\ (forall e, ReadIdentity_from_str s = Err e -> e = "Invalid read identity: " +:+ s).
Proof.
  unfold ReadIdentity_from_str.
  destruct (String.eqb_spec s "SO") as [->|Hso];
    [split; [destruct r; split; intros H; simpl in *; congruence | split; congruence]|].
  destruct (String.eqb_spec s "IN") as [->|Hin];
    [split; [destruct r; split; intros H; simpl in *; congruence | split; congruence]|].
  destruct (String.eqb_spec s "SI") as [->|Hsi];
    [split; [destruct r; split; intros H; simpl in *; congruence | split; congruence]|].
  split; [|split; [discriminate | intros e H; congruence]].
  split; [discriminate|]. intros ->. destruct r; simpl in *; congruence.
Qed.

(** [impl From<&str> for ReadIdentity] panics exactly on the texts that are
    not the [Display] of a read identity. *)
Theorem read_identity_from_panics_iff (s : string) :
  ReadIdentity_from s = Panic <-> forall r, s <> ReadIdentity_to_string r.
Proof.
  unfold ReadIdentity_from, ReadIdentity_from_str.
  destruct (String.eqb_spec s "SO") as [->|Hso];
    [split; [discriminate | intros H; exfalso; exact (H SO eq_refl)]|].
  destruct (String.eqb_spec s "IN") as [->|Hin];
    [split; [discriminate | intros H; exfalso; exact (H IN eq_refl)]|].
  destruct (String.eqb_spec s "SI") as [->|Hsi];
    [split; [discriminate | intros H; exfalso; exact (H SI eq_refl)]|].
  split; [|reflexivity]. intros _ [] E; simpl in E; congruence.
Qed.

(** [Strand::from_str] accepts exactly ["+"] and ["-"], the texts of its
    [Display], and otherwise fails with ["Invalid strand: <text>"]. *)
Theorem strand_from_str_exact (s : string) (d : Strand) :
  (Strand_from_str s = Ok d <-> s = Strand_to_string d)
  /\ Strand_from_str s <> Panic
  /\ (forall e, Strand_from_str s = Err e -> e = "Invalid strand: " +:+ s).
Proof.
  unfold Strand_from_str.
  destruct (String.eqb_spec s "+") as [->|Hp];
    [split; [destruct d; split; intros H; simpl in *; congruence | split; congruence]|].
  destruct (String.eqb_spec s "-") as [->|Hm];
    [split; [destruct d; split; intros H; simpl in *; congruence | split; congruence]|].
  split; [|split; [discriminate | intros e H; congruence]].
  split; [discriminate|]. intros ->. destruct d; simpl in *; congruence.
Qed.

(** A read parsed by [ReadData::from_str] is printed by its [Display] as a
    text that parses back to it. *)
Theorem read_data_from_str_normal_form (utf8_lossy : string -> string) (s : string)
    (r : ReadData.t) :
  utf8_valid s = true -> ReadData_from_str s = Ok r ->
  ReadData_from_str (ReadData_to_string utf8_lossy r) = Ok r.
Proof.
  intros Hs H. apply ReadData_roundtrip_no_colon.
  - exact (ReadData_from_str_id (fun _ => true) s r H (str_all_true s)).
  - exact (proj1 (List.Forall_forall _ _) (split_utf8 ":" s eq_refl Hs) _
             (ReadData_from_str_id_piece _ _ H)).
Qed.

(** Every node [NodeData::from_str] returns is well formed (a non-empty id
    and read list, a non-empty exon list within [usize], fields free of the
    separators) and has no attributes. *)
Theorem node_from_str_well_formed (s : string) (n : NodeData.t) :
  NodeData_from_str s = Ok n -> node_well_formed n = true /\ NodeData.attributes n = ∅.
Proof. apply NodeData_from_str_wf. Qed.

(** A node parsed from a line is printed by [Display] as a line that
    parses back to the same node: parsing then printing normalises a line. *)
Theorem node_line_normal_form (utf8_lossy : string -> string) (s : string) (n : NodeData.t) :
  utf8_valid s = true -> NodeData_from_str s = Ok n ->
  NodeData_from_str (NodeData_to_string utf8_lossy n) = Ok n.
Proof.
  intros Hs H. destruct (NodeData_from_str_wf s n H) as [Hwf Hat].
  exact (NodeData_from_to_string utf8_lossy n Hwf (NodeData_from_str_utf8 s n Hs H) Hat).
Qed.

(** ** Extra properties: exon bounds (node.rs) *)

(** [first_exon] and [last_exon] panic exactly on an empty exon list
    ([is_empty]); otherwise they return its first and its last element. *)
Theorem first_last_exon_panic_iff_empty (e : Exons) :
  (first_exon e = None <-> Exons_is_empty e = true)
  /\ (last_exon e = None <-> Exons_is_empty e = true)
  /\ (forall x xs, exons e = x :: xs ->
        first_exon e = Some x /\ last_exon e = Some (List.last (x :: xs) x)).
Proof.
  unfold first_exon, last_exon, Exons_is_empty.
  destruct (exons e) as [|x xs] eqn:He.
  - split; [split; reflexivity|]. split; [split; reflexivity|]. intros ? ? H; discriminate.
  - split; [split; discriminate|]. split.
    + rewrite (last_nth_error x). split; discriminate.
    + intros y ys H. inversion H; subst. split; [reflexivity|]. apply last_nth_error.
Qed.

(** [reference_start] and [reference_end] never panic on a node returned
    by [NodeData::from_str]. *)
Theorem node_from_str_reference_bounds (s : string) (n : NodeData.t) :
  NodeData_from_str s = Ok n ->
  exists a b, reference_start n = Some a /\ reference_end n = Some b.
Proof.
  intros H. destruct (NodeData_from_str_wf s n H) as [Hwf _].
  unfold node_well_formed in Hwf.
  repeat match type of Hwf with
         | _ && _ = true => apply andb_prop in Hwf as [Hwf ?]
         end.
  unfold reference_start, reference_end, first_exon, last_exon.
  destruct (exons (NodeData.exons n)) as [|x xs]; [discriminate|].
  rewrite (last_nth_error x). eauto.
Qed.

(** For exons in order, [reference_start <= reference_end], and
    [Exons::span] returns a total no larger than that range. *)
Theorem ordered_exons_span_within_reference (n : NodeData.t) :
  exons (NodeData.exons n) <> [] -> exons_ordered (exons (NodeData.exons n)) = true ->
  forallb interval_in_usize (exons (NodeData.exons n)) = true ->
  exists a b sp, reference_start n = Some a /\ reference_end n = Some b /\ a <= b
    /\ Exons_span (NodeData.exons n) = Some sp /\ sp <= b - a.
Proof.
  unfold reference_start, reference_end, first_exon, last_exon, Exons_span.
  destruct (exons (NodeData.exons n)) as [|x xs] eqn:He; [congruence|].
  intros _ Hord Hin. rewrite (last_nth_error x).
  destruct (ordered_total_length x xs Hord) as [Hle Hall].
  assert (Hlast : end_ (List.last (x :: xs) x) < USIZE_BOUND).
  { assert (Hi : In (List.last (x :: xs) x) (x :: xs)).
    { apply (nth_error_In _ (length (x :: xs) - 1)). apply last_nth_error. }
    pose proof (proj1 (forallb_forall _ _) Hin _ Hi) as Hb.
    unfold interval_in_usize in Hb. apply andb_prop in Hb as [_ Hb]. now apply N.ltb_lt. }
  rewrite (sum_spans_ok 0 (x :: xs) Hall) by lia.
  exists (start x), (end_ (List.last (x :: xs) x)), (0 + total_length (x :: xs)).
  repeat split; lia.
Qed.

(** ** path.rs: helper lemmas *)

Lemma append_empty_r (a : string) : a +:+ EmptyString = a.
Proof. induction a as [|c a IH]; [reflexivity|]. rewrite append_cons, IH. reflexivity. Qed.

Lemma string_concat_cons (q : string) (qs : list string) :
  String.concat "" (q :: qs) = q +:+ String.concat "" qs.
Proof.
  destruct qs as [|q' qs]; [symmetry; apply append_empty_r|].
  cbn [String.concat]. rewrite append_empty_l. reflexivity.
Qed.

Lemma obind_ok_inv {E A B} (m : outcome E A) (k : A -> outcome E B) (b : B) :
  obind m k = Ok b -> exists a, m = Ok a /\ k a = Ok b.
Proof. destruct m as [a| |]; cbn [obind]; [eauto | discriminate | discriminate]. Qed.

Lemma obind_err_inv {E A B} (m : outcome E A) (k : A -> outcome E B) (e : E) :
  obind m k = Err e -> m = Err e \/ exists a, m = Ok a /\ k a = Err e.
Proof.
  destruct m as [a|e'|]; cbn [obind]; [eauto | intros H; inversion H; auto | discriminate].
Qed.

Lemma collect_results_never_err {E A} (xs : list (outcome E A)) :
  Forall (fun x => forall e, x <> Err e) xs -> forall e, collect_results xs <> Err e.
Proof.
  induction 1 as [|x xs Hx _ IH]; intros e; cbn [collect_results]; [discriminate|].
  destruct x as [a|e'|]; cbn [obind]; [| exfalso; exact (Hx e' eq_refl) | discriminate].
  destruct (collect_results xs) as [r|e'|]; cbn [obind];
    [discriminate | intros _; exact (IH e' eq_refl) | discriminate].
Qed.

Lemma Forall2_nth_error_l {A B} (R : A -> B -> Prop) (xs : list A) (ys : list B)
    (k : nat) (a : A) :
  Forall2 R xs ys -> nth_error xs k = Some a -> exists b, nth_error ys k = Some b /\ R a b.
Proof.
  intros H. revert k. induction H as [|x y xs ys Hxy _ IH]; intros k Hk;
    [destruct k; discriminate|].
  destruct k as [|k]; cbn [nth_error] in *; [inversion Hk; subst; eauto | exact (IH k Hk)].
Qed.

Lemma combine_seq_nth {A} (s : nat) (xs : list A) (k : nat) :
  nth_error (combine (seq s (length xs)) xs) k
  = option_map (fun x => ((s + k)%nat, x)) (nth_error xs k).
Proof.
  revert s k. induction xs as [|x xs IH]; intros s k; [destruct k; reflexivity|].
  cbn [length seq combine]. destruct k as [|k]; cbn [nth_error option_map].
  - rewrite Nat.add_0_r. reflexivity.
  - rewrite IH. destruct (nth_error xs k); cbn [option_map]; [|reflexivity].
    do 2 f_equal. lia.
Qed.

Lemma enumerate_nth {A} (xs : list A) (k : nat) :
  nth_error (enumerate xs) k = option_map (fun x => (k, x)) (nth_error xs k).
Proof. apply combine_seq_nth. Qed.

Lemma enumerate_length {A} (xs : list A) : length (enumerate xs) = length xs.
Proof. unfold enumerate. rewrite length_combine, length_seq. lia. Qed.

Lemma in_enumerate {A} (xs : list A) (idx : nat) (x : A) :
  In (idx, x) (enumerate xs) -> In x xs.
Proof. apply in_combine_r. Qed.

Section PathMethodFacts.

Context {G : Type} (node_by_idx : G -> NodeIndex -> option NodeData.t)
  (edge_id_by_idx : G -> EdgeIndex -> option string) (hash : string -> N)
  (utf8_lossy : string -> string) (attr_values : gmap string Attribute -> list Attribute).

Lemma node_id_str_never_err (p : @TSGPath G) (i : NodeIndex) (e : string) :
  node_id_str node_by_idx p i <> Err e.
Proof.
  unfold node_id_str. destruct (graph p); cbn [unwrap_opt obind]; [|discriminate].
  destruct (node_by_idx g i); cbn [unwrap_opt obind]; [|discriminate].
  destruct (to_str _); cbn [unwrap_opt]; discriminate.
Qed.

Lemma node_id_str_ok (p : @TSGPath G) (i : NodeIndex) (s : string) :
  node_id_str node_by_idx p i = Ok s ->
  exists g nd, graph p = Some g /\ node_by_idx g i = Some nd.
Proof.
  unfold node_id_str. destruct (graph p) as [g|]; cbn [unwrap_opt obind]; [|discriminate].
  destruct (node_by_idx g i) as [nd|] eqn:Hnd; cbn [unwrap_opt obind];
    [intros _; exists g, nd; auto | discriminate].
Qed.

Lemma TSGPath_id_err (p : @TSGPath G) (e : string) :
  TSGPath_id node_by_idx hash p = Err e -> nodes p = [] /\ e = "No nodes in path".
Proof.
  unfold TSGPath_id. destruct (nodes p) as [|i rest] eqn:Hn; cbn [is_nil].
  - intros H. inversion H. auto.
  - intros H. apply obind_err_inv in H as [H | (ids & _ & H)].
    + exfalso. revert H. apply collect_results_never_err.
      apply List.Forall_forall. intros x (j & <- & _)%in_map_iff. intros e'.
      apply node_id_str_never_err.
    + discriminate.
Qed.

Lemma TSGPath_id_ok (p : @TSGPath G) (h : string) :
  TSGPath_id node_by_idx hash p = Ok h ->
  nodes p <> [] /\ exists g, graph p = Some g
    /\ Forall (fun i => exists nd, node_by_idx g i = Some nd) (nodes p).
Proof.
  unfold TSGPath_id. destruct (nodes p) as [|i rest] eqn:Hn; cbn [is_nil]; [discriminate|].
  intros H. apply obind_ok_inv in H as (ids & Hids & _).
  apply collect_results_map_ok in Hids.
  inversion Hids as [|? ? ? ? Hi _]; subst.
  destruct (node_id_str_ok p i _ Hi) as (g & _ & Hg & _).
  split; [discriminate|]. exists g. split; [exact Hg|].
  apply List.Forall_forall. intros j Hj.
  destruct (In_nth_error _ _ Hj) as (k & Hk).
  destruct (Forall2_nth_error_l _ _ _ k j Hids Hk) as (s & _ & Hs).
  destruct (node_id_str_ok p j s Hs) as (g' & nd & Hg' & Hnd). rewrite Hg in Hg'.
  inversion Hg'; subst. eauto.
Qed.

Lemma NodeData_to_gtf_never_err (vals : list Attribute) (n : NodeData.t)
    (attributes : option (list Attribute)) (e : string) :
  NodeData_to_gtf utf8_lossy vals n attributes <> Err e.
Proof.
  unfold NodeData_to_gtf. intros H. apply obind_err_inv in H as [H | (a & _ & H)];
    [|discriminate].
  revert H. apply collect_results_never_err.
  apply List.Forall_forall. intros x ((idx, exon) & <- & _)%in_map_iff. intros e'.
  unfold exon_gtf_line. destruct (to_str _); cbn [unwrap_opt obind]; discriminate.
Qed.

Lemma display_node_items_never_err (p : @TSGPath G) (idx : nat) (i : NodeIndex) (e : string) :
  display_node_items node_by_idx edge_id_by_idx utf8_lossy p idx i <> Err e.
Proof.
  unfold display_node_items. destruct (graph p) as [g|]; cbn [unwrap_opt obind]; [|discriminate].
  destruct (node_by_idx g i); cbn [unwrap_opt obind]; [|discriminate].
  destruct (_ <? _)%nat; [|discriminate].
  unfold index. destruct (nth_error (edges p) idx) as [ei|]; cbn [obind]; [|discriminate].
  cbn [unwrap_opt obind]. destruct (edge_id_by_idx g ei); cbn [unwrap_opt obind]; discriminate.
Qed.

Lemma to_fa_loop_concat (p : @TSGPath G) (g : G) (acc : string) (idxs : list NodeIndex)
    (qs : list string) :
  graph p = Some g ->
  Forall2 (fun i q => exists nd, node_by_idx g i = Some nd /\ NodeData.sequence nd = Some q)
          idxs qs ->
  to_fa_loop node_by_idx p acc idxs = Ok (acc +:+ String.concat "" qs).
Proof.
  intros Hg H. revert acc.
  induction H as [|i q is qs (nd & Hnd & Hq) _ IH]; intros acc; cbn [to_fa_loop].
  - cbn [String.concat]. rewrite append_empty_r. reflexivity.
  - rewrite Hg. cbn [unwrap_opt obind]. rewrite Hnd. cbn [unwrap_opt obind].
    rewrite Hq. cbn [obind]. rewrite IH, string_concat_cons, append_assoc_str. reflexivity.
Qed.

Lemma to_fa_loop_missing (p : @TSGPath G) (g : G) (acc : string) (idxs : list NodeIndex) :
  graph p = Some g -> Forall (fun i => node_by_idx g i <> None) idxs ->
  (exists i nd, In i idxs /\ node_by_idx g i = Some nd /\ NodeData.sequence nd = None) ->
  to_fa_loop node_by_idx p acc idxs = Err "Node sequence not found".
Proof.
  intros Hg Hall. revert acc.
  induction Hall as [|i is Hi _ IH]; intros acc (j & nd & Hin & Hnd & Hseq); [destruct Hin|].
  cbn [to_fa_loop]. rewrite Hg. cbn [unwrap_opt obind].
  destruct (node_by_idx g i) as [ndi|] eqn:Hndi; [|congruence]. cbn [unwrap_opt obind].
  destruct (NodeData.sequence ndi) as [q|] eqn:Hq; cbn [obind]; [|reflexivity].
  apply IH. destruct Hin as [<- | Hin]; [congruence|]. eauto.
Qed.

End PathMethodFacts.

(** ** path.rs: where a path reads its section *)

(** C9 (counterexample): two paths with the same node and edge indices and
    attributes, differing only in the section reference stored in them, get
    different results from [id()], [Display] and [to_fa()]: these read the
    section through the stored reference, none takes it as a parameter. *)
Lemma path_identity_reads_stored_section :
  nodes path_n123 = nodes path_n123_no_section
  /\ edges path_n123 = edges path_n123_no_section
  /\ path_attributes path_n123 = path_attributes path_n123_no_section
  /\ TSGPath_id list_node_by_idx example_hash path_n123
     <> TSGPath_id list_node_by_idx example_hash path_n123_no_section
  /\ TSGPath_display list_node_by_idx example_edge_id example_hash (fun s => s) path_n123
     <> TSGPath_display list_node_by_idx example_edge_id example_hash (fun s => s)
          path_n123_no_section
  /\ TSGPath_to_fa list_node_by_idx path_n123
     <> TSGPath_to_fa list_node_by_idx path_n123_no_section.
Proof.
  split; [reflexivity|]. split; [reflexivity|]. split; [reflexivity|].
  split; [|split]; vm_compute; discriminate.
Qed.

(** C9 (amended): [id()], [Display], [to_gtf()] and [to_fa()] take no
    section parameter. On a path with nodes but no stored section none of
    them produces a result; with a stored section [g], [id()] hashes the
    node ids [g] resolves and [to_fa()] concatenates the sequences of the
    nodes [g] resolves. *)
Theorem path_ops_read_stored_section {G : Type}
  (node_by_idx : G -> NodeIndex -> option NodeData.t)
  (edge_id_by_idx : G -> EdgeIndex -> option string) (hash : string -> N)
  (utf8_lossy : string -> string) (attr_values : gmap string Attribute -> list Attribute)
  (p : @TSGPath G) :
  (nodes p <> [] -> graph p = None ->
     (forall h, TSGPath_id node_by_idx hash p <> Ok h)
     /\ (forall s, TSGPath_display node_by_idx edge_id_by_idx hash utf8_lossy p <> Ok s)
     /\ (forall s, TSGPath_to_gtf node_by_idx hash utf8_lossy attr_values p <> Ok s)
     /\ (forall s, TSGPath_to_fa node_by_idx p <> Ok s))
  /\ (forall g ids, graph p = Some g -> resolve_ids node_by_idx g (nodes p) = Some ids ->
        ids <> [] -> forallb utf8_valid ids = true ->
        TSGPath_id node_by_idx hash p = to_hash_identifier hash (join "-" ids) (Some 16%nat))
  /\ (forall g qs, graph p = Some g ->
        Forall2 (fun i q => exists nd, node_by_idx g i = Some nd /\ NodeData.sequence nd = Some q)
                (nodes p) qs ->
        TSGPath_to_fa node_by_idx p = Ok (String.concat "" qs)).
Proof.
  split; [|split].
  - intros Hn Hg. pose proof (id_without_section node_by_idx hash p Hn Hg) as Hid.
    split; [|split; [|split]]; intros s.
    + rewrite Hid. discriminate.
    + unfold TSGPath_display. rewrite Hid. discriminate.
    + unfold TSGPath_to_gtf. rewrite Hid. discriminate.
    + unfold TSGPath_to_fa. destruct (nodes p) as [|i rest]; [congruence|].
      cbn [to_fa_loop]. rewrite Hg. discriminate.
  - intros g ids Hg Hr Hne Hv. exact (id_with_section node_by_idx hash p g ids Hg Hr Hne Hv).
  - intros g qs Hg H. unfold TSGPath_to_fa.
    rewrite (to_fa_loop_concat node_by_idx p g EmptyString (nodes p) qs Hg H).
    reflexivity.
Qed.

(** ** Extra properties: building and checking paths (path.rs) *)

(** [add_node] followed by [add_edge] (in either order) keeps the result of
    [validate()]; a path built as [new()], one [add_node], then any number
    of [add_edge]/[add_node] pairs always validates. *)
Theorem add_node_edge_keeps_validate {G : Type} (p : @TSGPath G) (n : NodeIndex) (e : EdgeIndex) :
  TSGPath_validate (TSGPath_add_edge (TSGPath_add_node p n) e) = TSGPath_validate p
  /\ TSGPath_validate (TSGPath_add_node (TSGPath_add_edge p e) n) = TSGPath_validate p
  /\ forall (n0 : NodeIndex) (steps : list (EdgeIndex * NodeIndex)),
       TSGPath_validate
         (fold_left (fun q '(e', n') => TSGPath_add_node (TSGPath_add_edge q e') n')
                    steps (TSGPath_add_node (@TSGPath_new G) n0)) = Ok tt.
Proof.
  assert (Hstep : forall (q : @TSGPath G) n' e',
            TSGPath_validate (TSGPath_add_node (TSGPath_add_edge q e') n') = TSGPath_validate q).
  { intros q n' e'. unfold TSGPath_validate, TSGPath_add_node, TSGPath_add_edge.
    cbn [nodes edges]. rewrite !length_app. cbn [length].
    replace (length (nodes q) + 1 =? length (edges q) + 1 + 1)%nat
      with (length (nodes q) =? length (edges q) + 1)%nat; [reflexivity|].
    destruct (Nat.eqb_spec (length (nodes q)) (length (edges q) + 1)),
      (Nat.eqb_spec (length (nodes q) + 1) (length (edges q) + 1 + 1)); lia. }
  split; [|split].
  - unfold TSGPath_validate, TSGPath_add_node, TSGPath_add_edge. cbn [nodes edges].
    rewrite !length_app. cbn [length].
    destruct (Nat.eqb_spec (length (nodes p)) (length (edges p) + 1)),
      (Nat.eqb_spec (length (nodes p) + 1) (length (edges p) + 1 + 1)); try reflexivity; lia.
  - apply Hstep.
  - intros n0 steps.
    assert (Hgen : forall q : @TSGPath G, TSGPath_validate q = Ok tt ->
              TSGPath_validate
                (fold_left (fun q '(e', n') => TSGPath_add_node (TSGPath_add_edge q e') n')
                           steps q) = Ok tt).
    { induction steps as [|[e' n'] steps IH]; intros q Hq; [exact Hq|].
      cbn [fold_left]. apply IH. rewrite Hstep. exact Hq. }
    apply Hgen. reflexivity.
Qed.

(** A path that passes [validate()] is not empty, and its [id()] never
    returns an error: it is an identity or a panic. *)
Theorem validated_path_is_identifiable {G : Type}
  (node_by_idx : G -> NodeIndex -> option NodeData.t) (hash : string -> N)
  (p : @TSGPath G) :
  TSGPath_validate p = Ok tt ->
  TSGPath_is_empty p = false /\ forall e, TSGPath_id node_by_idx hash p <> Err e.
Proof.
  unfold TSGPath_validate. intros Hv.
  destruct (Nat.eqb_spec (length (nodes p)) (length (edges p) + 1)) as [Hl|];
    cbn [negb] in Hv; [|discriminate].
  assert (Hne : nodes p <> []) by (intros E; rewrite E in Hl; cbn in Hl; lia).
  split.
  - unfold TSGPath_is_empty. destruct (nodes p); [congruence | reflexivity].
  - intros e He. apply TSGPath_id_err in He as [He _]. exact (Hne He).
Qed.

(** When the stored section resolves every node of the path to a node with
    a sequence, [to_fa()] returns the concatenation of these sequences in
    path order. *)
Theorem to_fa_concatenates_sequences {G : Type}
  (node_by_idx : G -> NodeIndex -> option NodeData.t) (p : @TSGPath G) (g : G)
  (qs : list string) :
  graph p = Some g ->
  Forall2 (fun i q => exists nd, node_by_idx g i = Some nd /\ NodeData.sequence nd = Some q)
          (nodes p) qs ->
  TSGPath_to_fa node_by_idx p = Ok (String.concat "" qs).
Proof.
  intros Hg H. unfold TSGPath_to_fa.
  rewrite (to_fa_loop_concat node_by_idx p g EmptyString (nodes p) qs Hg H).
  reflexivity.
Qed.

(** When the stored section resolves every node of the path but one of
    these nodes has no sequence, [to_fa()] fails with
    ["Node sequence not found"]. *)
Theorem to_fa_missing_sequence {G : Type}
  (node_by_idx : G -> NodeIndex -> option NodeData.t) (p : @TSGPath G) (g : G) :
  graph p = Some g -> Forall (fun i => node_by_idx g i <> None) (nodes p) ->
  (exists i nd, In i (nodes p) /\ node_by_idx g i = Some nd /\ NodeData.sequence nd = None) ->
  TSGPath_to_fa node_by_idx p = Err "Node sequence not found".
Proof. intros Hg Hall Hmiss. exact (to_fa_loop_missing node_by_idx p g EmptyString _ Hg Hall Hmiss). Qed.

(** On a path without nodes [to_fa()] returns the empty sequence while
    [id()] fails; a path with nodes and no stored section makes [to_fa()]
    panic. *)
Theorem to_fa_empty_or_unsectioned {G : Type}
  (node_by_idx : G -> NodeIndex -> option NodeData.t) (hash : string -> N) (p : @TSGPath G) :
  (nodes p = [] -> TSGPath_to_fa node_by_idx p = Ok EmptyString
                   /\ TSGPath_id node_by_idx hash p = Err "No nodes in path")
  /\ (nodes p <> [] -> graph p = None -> TSGPath_to_fa node_by_idx p = Panic).
Proof.
  unfold TSGPath_to_fa, TSGPath_id. split.
  - intros Hn. rewrite Hn. split; reflexivity.
  - intros Hn Hg. destruct (nodes p) as [|i rest]; [congruence|].
    cbn [to_fa_loop]. rewrite Hg. reflexivity.
Qed.

(** The only error [TSGPath::to_gtf] returns is ["No nodes in path"], on a
    path without nodes: its own ["Graph not available"] and ["Node not
    found"] errors are never returned, as [id()] has already panicked in
    those cases. *)
Theorem path_to_gtf_only_error {G : Type}
  (node_by_idx : G -> NodeIndex -> option NodeData.t) (hash : string -> N)
  (utf8_lossy : string -> string) (attr_values : gmap string Attribute -> list Attribute)
  (p : @TSGPath G) (e : string) :
  TSGPath_to_gtf node_by_idx hash utf8_lossy attr_values p = Err e
  <-> nodes p = [] /\ e = "No nodes in path".
Proof.
  unfold TSGPath_to_gtf. split.
  - intros H. apply obind_err_inv in H as [H | (h & Hid & H)].
    + exact (TSGPath_id_err node_by_idx hash p e H).
    + exfalso. destruct (TSGPath_id_ok node_by_idx hash p h Hid) as (_ & g & Hg & Hall).
      apply obind_err_inv in H as [H | (exs & _ & H)].
      * revert H. apply collect_results_never_err.
        apply List.Forall_forall. intros x ((idx, i) & <- & Hin)%in_map_iff. intros e'.
        apply in_enumerate in Hin.
        destruct (proj1 (List.Forall_forall _ _) Hall i Hin) as (nd & Hnd).
        unfold path_node_gtf. rewrite Hg. cbn [ok_or obind]. rewrite Hnd. cbn [ok_or obind].
        apply NodeData_to_gtf_never_err.
      * apply obind_err_inv in H as [H | (strs & _ & H)]; [|discriminate].
        revert H. apply collect_results_never_err.
        apply List.Forall_forall. intros x (b & <- & _)%in_map_iff. intros e'.
        destruct (to_str b); discriminate.
  - intros [Hn ->]. unfold TSGPath_id. rewrite Hn. reflexivity.
Qed.

(** [Display] of a path never returns an error. It only succeeds on a path
    with nodes and with at least [len(nodes) - 1] edges: on a path without
    nodes, or with fewer edges, [self.id().unwrap()] or [self.edges[idx]]
    panics. *)
Theorem path_display_needs_nodes_and_edges {G : Type}
  (node_by_idx : G -> NodeIndex -> option NodeData.t)
  (edge_id_by_idx : G -> EdgeIndex -> option string) (hash : string -> N)
  (utf8_lossy : string -> string) (p : @TSGPath G) :
  (forall s, TSGPath_display node_by_idx edge_id_by_idx hash utf8_lossy p = Ok s ->
     nodes p <> [] /\ (length (nodes p) <= length (edges p) + 1)%nat)
  /\ (forall e, TSGPath_display node_by_idx edge_id_by_idx hash utf8_lossy p <> Err e)
  /\ (nodes p = [] \/ (length (edges p) + 1 < length (nodes p))%nat ->
      TSGPath_display node_by_idx edge_id_by_idx hash utf8_lossy p = Panic).
Proof.
  assert (Hnerr : forall e, TSGPath_display node_by_idx edge_id_by_idx hash utf8_lossy p <> Err e).
  { intros e. unfold TSGPath_display.
    destruct (TSGPath_id node_by_idx hash p) as [h| |]; cbn [unwrap obind]; [|discriminate..].
    destruct (to_str h); cbn [unwrap_opt obind]; [|discriminate].
    intros H. apply obind_err_inv in H as [H | (items & _ & H)]; [|discriminate].
    revert H. apply collect_results_never_err.
    apply List.Forall_forall. intros x ((idx, i) & <- & _)%in_map_iff. intros e'.
    apply display_node_items_never_err. }
  assert (Hok : forall s, TSGPath_display node_by_idx edge_id_by_idx hash utf8_lossy p = Ok s ->
            nodes p <> [] /\ (length (nodes p) <= length (edges p) + 1)%nat).
  2:{ split; [exact Hok|]. split; [exact Hnerr|].
      intros Hbad.
      destruct (TSGPath_display node_by_idx edge_id_by_idx hash utf8_lossy p) as [s|e|] eqn:Hd;
        [| exfalso; exact (Hnerr e eq_refl) | reflexivity].
      destruct (Hok s eq_refl) as [Hne Hle]. destruct Hbad as [Hn | Hlt]; [contradiction | lia]. }
  intros s. unfold TSGPath_display. intros H.
  apply obind_ok_inv in H as (h & Hid & H).
  assert (Hid' : TSGPath_id node_by_idx hash p = Ok h)
    by (destruct (TSGPath_id node_by_idx hash p); cbn [unwrap] in Hid; congruence).
  destruct (TSGPath_id_ok node_by_idx hash p h Hid') as (Hne & _).
  split; [exact Hne|].
  apply obind_ok_inv in H as (hs & _ & H).
  apply obind_ok_inv in H as (items & Hitems & _).
  apply collect_results_map_ok in Hitems.
  destruct (Nat.le_gt_cases (length (nodes p)) 1) as [Hle | Hgt]; [lia|].
  set (k := (length (nodes p) - 2)%nat).
  destruct (nth_error (nodes p) k) as [i|] eqn:Hk;
    [| apply nth_error_None in Hk; unfold k in Hk; lia].
  assert (Hek : nth_error (enumerate (nodes p)) k = Some (k, i))
    by (rewrite enumerate_nth, Hk; reflexivity).
  destruct (Forall2_nth_error_l _ _ _ _ _ Hitems Hek) as (it & _ & Hit).
  cbv beta iota in Hit. unfold display_node_items in Hit.
  apply obind_ok_inv in Hit as (g & _ & Hit).
  apply obind_ok_inv in Hit as (nd & _ & Hit).
  destruct (Nat.ltb_spec k (length (nodes p) - 1)) as [_ | Hge]; [|unfold k in Hge; lia].
  apply obind_ok_inv in Hit as (e & He & _).
  unfold index in He. destruct (nth_error (edges p) k) eqn:Hek'; [|discriminate].
  assert (Hlt : (k < length (edges p))%nat)
    by (apply nth_error_Some; congruence).
  unfold k in Hlt. lia.
Qed.

(** ** GTF lines: helper lemmas *)

Lemma tab_app (r : string) : TAB +:+ r = String (ascii_of_nat 9) r.
Proof. reflexivity. Qed.

Lemma str_all_zeros (f : ascii -> bool) (k : nat) : f "0"%char = true -> str_all f (zeros k) = true.
Proof. intros H. induction k as [|k IH]; [reflexivity|]. cbn [zeros str_all]. now rewrite H, IH. Qed.

Lemma str_all_concat_empty (f : ascii -> bool) (xs : list string) :
  Forall (fun s => str_all f s = true) xs -> str_all f (String.concat "" xs) = true.
Proof.
  induction 1 as [|x xs Hx _ IH]; [reflexivity|].
  rewrite string_concat_cons, str_all_app, Hx, IH. reflexivity.
Qed.

Lemma digit_not_char (d c : ascii) : is_digit d = false -> is_digit c = true ->
  negb (is_char d c) = true.
Proof.
  intros Hd Hc. destruct (is_char d c) eqn:E; [|reflexivity].
  apply is_char_true in E. subst. congruence.
Qed.

Lemma collect_results_map_exists {E A B} (f : A -> outcome E B) (P : A -> B -> Prop)
    (xs : list A) :
  (forall x, In x xs -> exists y, f x = Ok y /\ P x y) ->
  exists ys, collect_results (map f xs) = Ok ys /\ Forall2 P xs ys.
Proof.
  induction xs as [|x xs IH]; intros H; [exists []; split; constructor|].
  destruct (H x (or_introl eq_refl)) as (y & Hy & Py).
  destruct IH as (ys & Hys & Pys); [intros z Hz; apply H; right; exact Hz|].
  exists (y :: ys). cbn [map collect_results]. rewrite Hy. cbn [obind]. rewrite Hys.
  split; [reflexivity | constructor; assumption].
Qed.

Lemma exon_attr_gtf_one_line (utf8_lossy : string -> string) (a : Attribute) :
  attr_one_line a = true ->
  str_all (fun c => negb (is_char (ascii_of_nat 10) c)) (exon_attr_gtf utf8_lossy a) = true.
Proof.
  unfold attr_one_line, one_line_text, exon_attr_gtf, bstr_display. intros H.
  apply andb_prop in H as [Ht Hv]. apply andb_prop in Ht as [Ht1 Ht2].
  apply andb_prop in Hv as [Hv1 Hv2]. rewrite Ht1, Hv1, !str_all_app, Ht2, Hv2.
  reflexivity.
Qed.

Lemma exon_gtf_line_shape (utf8_lossy : string -> string) (vals : list Attribute)
    (n : NodeData.t) (attributes : option (list Attribute)) (idx : nat) (x : Interval) :
  one_line_text (NodeData.reference_id n) = true ->
  str_all (fun c => negb (is_char (ascii_of_nat 9) c)) (NodeData.reference_id n) = true ->
  Forall (fun a => attr_one_line a = true) vals ->
  Forall (fun a => attr_one_line a = true)
         (match attributes with Some l => l | None => [] end) ->
  exists line, exon_gtf_line utf8_lossy vals n attributes idx x = Ok line
    /\ str_all (fun c => negb (is_char (ascii_of_nat 10) c)) line = true
    /\ exists rest, split (ascii_of_nat 9) line
         = NodeData.reference_id n :: "tsg" :: "exon" :: usize_to_string (start x)
           :: usize_to_string (end_ x) :: "." :: Strand_to_string (NodeData.strand n)
           :: "." :: rest.
Proof.
  intros Hrid Hrid_tab Hvals Hattrs.
  unfold one_line_text in Hrid. apply andb_prop in Hrid as [Hrid_utf Hrid_nl].
  unfold exon_gtf_line, to_str. rewrite Hrid_utf. cbn [unwrap_opt obind].
  eexists. split; [reflexivity|].
  assert (Hdig : forall d v, is_digit d = false ->
            str_all (fun c => negb (is_char d c)) (usize_to_string v) = true).
  { intros d v Hd. apply str_all_usize_impl. intros c Hc. exact (digit_not_char d c Hd Hc). }
  split.
  - assert (Hpad : forall v, str_all (fun c => negb (is_char (ascii_of_nat 10) c)) (pad03 v)
                             = true).
    { intros v. unfold pad03. rewrite str_all_app, str_all_zeros, Hdig; reflexivity. }
    assert (Hv : str_all (fun c => negb (is_char (ascii_of_nat 10) c))
                   (String.concat "" (map (exon_attr_gtf utf8_lossy) vals)) = true).
    { apply str_all_concat_empty. apply List.Forall_forall.
      intros s (a & <- & Ha)%in_map_iff. apply exon_attr_gtf_one_line.
      exact (proj1 (List.Forall_forall _ _) Hvals a Ha). }
    assert (Ha : str_all (fun c => negb (is_char (ascii_of_nat 10) c))
                   (match attributes with
                    | Some l => String.concat "" (map (exon_attr_gtf utf8_lossy) (rev l))
                    | None => EmptyString
                    end) = true).
    { destruct attributes as [l|]; [|reflexivity].
      apply str_all_concat_empty. apply List.Forall_forall.
      intros s (a & <- & Ha)%in_map_iff. apply exon_attr_gtf_one_line.
      apply in_rev in Ha. exact (proj1 (List.Forall_forall _ _) Hattrs a Ha). }
    rewrite !str_all_app, Hrid_nl, !Hdig, Hpad, Hv, Ha by reflexivity.
    destruct (NodeData.strand n); reflexivity.
  - eexists. unfold split. rewrite !tab_app.
    do 8 (rewrite split_by_app_sep;
          [| first [ reflexivity | exact Hrid_tab | apply Hdig; reflexivity
                   | destruct (NodeData.strand n); reflexivity ] | reflexivity ]).
    reflexivity.
Qed.

(** ** Extra properties: GTF export (node.rs) *)

(** [NodeData::to_gtf], for any iteration order of the attribute map,
    writes one line per exon when no text it copies holds a line break; the
    [k]-th line starts with the reference id, [tsg], [exon], the
    coordinates of the [k]-th exon (which parse back to it), [.], the
    strand and [.]. *)
Theorem node_to_gtf_one_line_per_exon (utf8_lossy : string -> string)
  (vals : list Attribute) (n : NodeData.t) (attributes : option (list Attribute)) :
  vals ≡ₚ map snd (map_to_list (NodeData.attributes n)) ->
  map_Forall (fun _ a => attr_one_line a = true) (NodeData.attributes n) ->
  forallb attr_one_line (match attributes with Some l => l | None => [] end) = true ->
  one_line_text (NodeData.reference_id n) = true ->
  str_all (fun c => negb (is_char (ascii_of_nat 9) c)) (NodeData.reference_id n) = true ->
  exons (NodeData.exons n) <> [] ->
  forallb interval_in_usize (exons (NodeData.exons n)) = true ->
  exists out, NodeData_to_gtf utf8_lossy vals n attributes = Ok out
    /\ length (split (ascii_of_nat 10) out) = length (exons (NodeData.exons n))
    /\ forall k x, nth_error (exons (NodeData.exons n)) k = Some x ->
         exists line fs fe rest, nth_error (split (ascii_of_nat 10) out) k = Some line
           /\ split (ascii_of_nat 9) line
              = NodeData.reference_id n :: "tsg" :: "exon" :: fs :: fe :: "."
                :: Strand_to_string (NodeData.strand n) :: "." :: rest
           /\ usize_from_str fs = Ok (start x) /\ usize_from_str fe = Ok (end_ x).
Proof.
  intros Hperm Hmap Hattrs Hrid Hrid_tab Hne Hin.
  assert (Hvals : Forall (fun a => attr_one_line a = true) vals).
  { apply List.Forall_forall. intros a Ha.
    apply (Permutation_in _ Hperm) in Ha.
    apply in_map_iff in Ha as ((k, a') & Heq & Hk). cbn [snd] in Heq. subst a'.
    apply list_elem_of_In, elem_of_map_to_list in Hk. exact (Hmap k a Hk). }
  assert (Hattrs' : Forall (fun a => attr_one_line a = true)
                           (match attributes with Some l => l | None => [] end)).
  { apply List.Forall_forall. intros a Ha. exact (proj1 (forallb_forall _ _) Hattrs a Ha). }
  set (xs := exons (NodeData.exons n)) in *.
  destruct (collect_results_map_exists
              (fun '(idx, exon) => exon_gtf_line utf8_lossy vals n attributes idx exon)
              (fun '(idx, x) line =>
                 str_all (fun c => negb (is_char (ascii_of_nat 10) c)) line = true
                 /\ exists rest, split (ascii_of_nat 9) line
                      = NodeData.reference_id n :: "tsg" :: "exon" :: usize_to_string (start x)
                        :: usize_to_string (end_ x) :: "." :: Strand_to_string (NodeData.strand n)
                        :: "." :: rest)
              (enumerate xs)) as (lines & Hlines & Hprops).
  { intros [idx x] _.
    destruct (exon_gtf_line_shape utf8_lossy vals n attributes idx x Hrid Hrid_tab Hvals Hattrs')
      as (line & Hl & Hnl & Hsplit).
    exists line. split; [exact Hl | split; assumption]. }
  assert (Hlen : length lines = length xs)
    by (rewrite <- (Forall2_length _ _ _ Hprops); apply enumerate_length).
  assert (Hsplit : split (ascii_of_nat 10) (join NL lines) = lines).
  { unfold split. change NL with (str1 (ascii_of_nat 10)). apply split_by_join.
    - reflexivity.
    - intros E. rewrite E in Hlen. cbn [length] in Hlen.
      destruct xs; [congruence | discriminate].
    - apply List.Forall_forall. intros line Hl.
      destruct (In_nth_error _ _ Hl) as (k & Hk).
      assert (Hlk : (k < length (enumerate xs))%nat).
      { rewrite enumerate_length, <- Hlen. apply nth_error_Some. congruence. }
      destruct (nth_error (enumerate xs) k) as [[idx x]|] eqn:Hek;
        [|apply nth_error_None in Hek; lia].
      destruct (Forall2_nth_error_l _ _ _ _ _ Hprops Hek) as (line' & Hk' & [Hnl _]).
      rewrite Hk in Hk'. inversion Hk'; subst. exact Hnl. }
  exists (join NL lines). unfold NodeData_to_gtf. fold xs. rewrite Hlines. cbn [obind].
  split; [reflexivity|]. rewrite Hsplit. split; [exact Hlen|].
  intros k x Hx.
  assert (Hek : nth_error (enumerate xs) k = Some (k, x))
    by (rewrite enumerate_nth, Hx; reflexivity).
  destruct (Forall2_nth_error_l _ _ _ _ _ Hprops Hek) as (line & Hk & [_ (rest & Hs)]).
  assert (Hxin : interval_in_usize x = true)
    by exact (proj1 (forallb_forall _ _) Hin x (nth_error_In _ _ Hx)).
  unfold interval_in_usize in Hxin. apply andb_prop in Hxin as [Hs1 He1].
  apply N.ltb_lt in Hs1, He1.
  exists line, (usize_to_string (start x)), (usize_to_string (end_ x)), rest.
  split; [exact Hk|]. split; [exact Hs|].
  split; apply usize_from_str_to_string; assumption.
Qed.

(** ** Path lines: helper lemmas *)

Lemma hex_digit_ascii (d : N) : d < 16 ->
  byte_in 0 127 (hex_digit d) = true /\ is_char (ascii_of_nat 9) (hex_digit d) = false.
Proof.
  intros Hd.
  assert (d = 0 \/ d = 1 \/ d = 2 \/ d = 3 \/ d = 4 \/ d = 5 \/ d = 6 \/ d = 7 \/ d = 8
          \/ d = 9 \/ d = 10 \/ d = 11 \/ d = 12 \/ d = 13 \/ d = 14 \/ d = 15) as Hcases
    by lia.
  repeat destruct Hcases as [-> | Hcases]; try (subst d); split; reflexivity.
Qed.

Lemma hex_fixed_chars (f : ascii -> bool) (w : nat) (n : N) (acc : string) :
  (forall d, d < 16 -> f (hex_digit d) = true) -> str_all f acc = true ->
  str_all f (hex_fixed w n acc) = true.
Proof.
  intros Hf. revert n acc. induction w as [|w IH]; intros n acc Hacc; [exact Hacc|].
  cbn [hex_fixed]. apply IH. cbn [str_all]. rewrite Hf, Hacc; [reflexivity|].
  apply N.mod_lt. discriminate.
Qed.

Lemma utf8_valid_ascii (s : string) : str_all (byte_in 0 127) s = true -> utf8_valid s = true.
Proof.
  induction s as [|c s IH]; [reflexivity|]. cbn [str_all utf8_valid].
  intros H. apply andb_prop in H as [Hc Hs]. rewrite Hc. exact (IH Hs).
Qed.

Lemma in_enumerate_nth {A} (xs : list A) (idx : nat) (x : A) :
  In (idx, x) (enumerate xs) -> nth_error xs idx = Some x.
Proof.
  intros H. destruct (In_nth_error _ _ H) as (k & Hk).
  rewrite enumerate_nth in Hk. destruct (nth_error xs k) eqn:E; cbn [option_map] in Hk;
    inversion Hk; subst. exact E.
Qed.

Lemma Forall2_eq_map {A B} (g : A -> B) (xs : list A) (ys : list B) :
  Forall2 (fun a b => b = g a) xs ys -> ys = map g xs.
Proof. induction 1; cbn [map]; congruence. Qed.

Lemma map_combine_fst {A B C} (f : A -> C) (xs : list A) (ys : list B) :
  (length xs <= length ys)%nat -> map (fun '(a, _) => f a) (combine xs ys) = map f xs.
Proof.
  revert ys. induction xs as [|x xs IH]; intros ys H; [reflexivity|].
  destruct ys as [|y ys]; cbn [length] in H; [lia|].
  cbn [combine map]. rewrite IH by lia. reflexivity.
Qed.

Lemma in_interleave (ns es : list string) (x : string) :
  In x (interleave ns es) -> In x ns \/ In x es.
Proof.
  revert es. induction ns as [|a ns IH]; intros es H; [destruct es; destruct H|].
  destruct es as [|e es]; [left; exact H|].
  cbn [interleave In] in H. destruct H as [<- | [<- | H]]; [left; left; reflexivity
    | right; left; reflexivity |].
  destruct (IH es H); [left; right | right; right]; assumption.
Qed.

(** The items of node [k] of a line: its node and, except for the last
    node, the edge after it. *)
Lemma concat_items_interleave (ns es : list string) :
  length ns = S (length es) ->
  concat (map (fun k => if (k <? length ns - 1)%nat then [nth k ns ""; nth k es ""]
                        else [nth k ns ""]) (seq 0 (length ns)))
  = interleave ns es.
Proof.
  revert ns. induction es as [|e es IH]; intros ns Hlen.
  - destruct ns as [|a [|b ns]]; cbn [length] in Hlen; try lia. reflexivity.
  - destruct ns as [|a ns]; cbn [length] in Hlen; [lia|].
    cbn [length seq map concat]. 
    assert (Hl : length ns = S (length es)) by lia.
    replace (0 <? S (length ns) - 1)%nat with true by (symmetry; apply Nat.ltb_lt; lia).
    cbn [nth app interleave]. f_equal. f_equal.
    rewrite <- seq_shift, map_map. rewrite <- (IH ns Hl). f_equal.
    apply map_ext. intros k. cbn [nth].
    replace (S k <? S (length ns) - 1)%nat with (k <? length ns - 1)%nat; [reflexivity|].
    destruct (Nat.ltb_spec (S k) (S (length ns) - 1)),
      (Nat.ltb_spec k (length ns - 1)); lia.
Qed.

Lemma resolve_ids_Forall2 {G : Type} (node_by_idx : G -> NodeIndex -> option NodeData.t)
    (g : G) (idxs : list NodeIndex) (ids : list string) :
  Forall2 (fun i id => exists nd, node_by_idx g i = Some nd /\ NodeData.id nd = id) idxs ids ->
  resolve_ids node_by_idx g idxs = Some ids.
Proof.
  induction 1 as [|i id is ids' (nd & Hnd & Hid) _ IH]; [reflexivity|].
  cbn [resolve_ids]. rewrite Hnd, IH, Hid. reflexivity.
Qed.

(** ** Extra properties: the path line (path.rs) *)

(** For a validated path whose stored section resolves every node and edge
    index to an id that fits in one tab-separated field, [Display] writes
    ["P"], the identity [id()] returns, then the node and edge ids with a
    [+] suffix, alternating, as tab-separated fields. *)
Theorem path_display_fields {G : Type}
  (node_by_idx : G -> NodeIndex -> option NodeData.t)
  (edge_id_by_idx : G -> EdgeIndex -> option string) (hash : string -> N)
  (utf8_lossy : string -> string) (p : @TSGPath G) (g : G) (nids eids : list string) :
  graph p = Some g -> TSGPath_validate p = Ok tt ->
  Forall2 (fun i id => exists nd, node_by_idx g i = Some nd /\ NodeData.id nd = id)
          (nodes p) nids ->
  Forall2 (fun e id => edge_id_by_idx g e = Some id) (edges p) eids ->
  forallb field_text (nids ++ eids) = true ->
  exists h s, TSGPath_id node_by_idx hash p = Ok h
    /\ TSGPath_display node_by_idx edge_id_by_idx hash utf8_lossy p = Ok s
    /\ split (ascii_of_nat 9) s
       = "P" :: h :: interleave (map (fun x => x +:+ "+") nids) (map (fun x => x +:+ "+") eids).
Proof.
  intros Hg Hv Hn He Hf.
  unfold TSGPath_validate in Hv.
  destruct (Nat.eqb_spec (length (nodes p)) (length (edges p) + 1)) as [HL|];
    cbn [negb] in Hv; [|discriminate]. clear Hv.
  pose proof (Forall2_length _ _ _ Hn) as Hln. pose proof (Forall2_length _ _ _ He) as Hle.
  assert (Hfield : forall x, In x (nids ++ eids) -> field_text x = true)
    by (intros x Hx; exact (proj1 (forallb_forall _ _) Hf x Hx)).
  assert (Hutf : forallb utf8_valid nids = true).
  { apply forallb_forall. intros x Hx.
    assert (Hx' := Hfield x (in_or_app _ _ _ (or_introl Hx))).
    unfold field_text in Hx'. now apply andb_prop in Hx' as [-> _]. }
  assert (Hne : nids <> []) by (intros E; rewrite E in Hln; cbn [length] in Hln; lia).
  rewrite (id_with_section node_by_idx hash p g nids Hg (resolve_ids_Forall2 _ _ _ _ Hn)
             Hne Hutf).
  set (h := hex_fixed 16 (hash (join "-" nids)) EmptyString).
  assert (Hh : str_all (fun c => byte_in 0 127 c && negb (is_char (ascii_of_nat 9) c)) h = true).
  { apply hex_fixed_chars; [|reflexivity]. intros d Hd.
    destruct (hex_digit_ascii d Hd) as [-> ->]. reflexivity. }
  assert (Hh_utf : utf8_valid h = true).
  { apply utf8_valid_ascii. eapply str_all_impl; [|exact Hh].
    intros c Hc. now apply andb_prop in Hc as [-> _]. }
  set (L := length (nodes p)).
  set (nids' := map (fun x => x +:+ "+") nids).
  set (eids' := map (fun x => x +:+ "+") eids).
  set (item := fun k => if (k <? length nids' - 1)%nat then [nth k nids' ""; nth k eids' ""]
                        else [nth k nids' ""]).
  destruct (collect_results_map_exists
              (fun '(idx, i) => display_node_items node_by_idx edge_id_by_idx utf8_lossy p idx i)
              (fun a y => y = (fun '(idx, _) => item idx) a)
              (enumerate (nodes p))) as (items & Hitems & Hprops).
  { intros [idx i] Hin. exists (item idx). split; [|reflexivity].
    apply in_enumerate_nth in Hin.
    destruct (Forall2_nth_error_l _ _ _ _ _ Hn Hin) as (nid & Hnid & (nd & Hnd & Hid)).
    assert (Hnid_utf : utf8_valid nid = true).
    { assert (Hx := Hfield nid (in_or_app _ _ _ (or_introl (nth_error_In _ _ Hnid)))).
      unfold field_text in Hx. now apply andb_prop in Hx as [-> _]. }
    assert (Hidx : (idx < L)%nat) by (apply nth_error_Some; congruence).
    assert (Hnth_n : nth idx nids' "" = nid +:+ "+").
    { apply nth_error_nth. unfold nids'. rewrite nth_error_map, Hnid. reflexivity. }
    unfold display_node_items. rewrite Hg. cbn [unwrap_opt obind]. rewrite Hnd.
    cbn [unwrap_opt obind]. unfold bstr_display at 1. rewrite Hid, Hnid_utf.
    unfold item. unfold nids' at 1. rewrite length_map, <- Hln. fold L.
    destruct (Nat.ltb_spec idx (L - 1)) as [Hlt | Hge].
    - assert (Hidx_e : (idx < length (edges p))%nat) by (unfold L in Hlt; lia).
      destruct (nth_error (edges p) idx) as [e|] eqn:He_idx;
        [|apply nth_error_None in He_idx; lia].
      destruct (Forall2_nth_error_l _ _ _ _ _ He He_idx) as (eid & Heid & Heb).
      assert (Heid_utf : utf8_valid eid = true).
      { assert (Hx := Hfield eid (in_or_app _ _ _ (or_intror (nth_error_In _ _ Heid)))).
        unfold field_text in Hx. now apply andb_prop in Hx as [-> _]. }
      assert (Hnth_e : nth idx eids' "" = eid +:+ "+").
      { apply nth_error_nth. unfold eids'. rewrite nth_error_map, Heid. reflexivity. }
      unfold index. rewrite He_idx. cbn [obind unwrap_opt].
      rewrite Heb. cbn [unwrap_opt obind]. unfold bstr_display. rewrite Heid_utf.
      rewrite Hnth_n, Hnth_e. reflexivity.
    - unfold bstr_display. rewrite Hnid_utf, Hnth_n. reflexivity. }
  apply Forall2_eq_map in Hprops.
  assert (Hconcat : concat items = interleave nids' eids').
  { rewrite Hprops. unfold enumerate. rewrite map_combine_fst by (rewrite length_seq; lia).
    unfold item. fold L.
    replace L with (length nids') by (unfold nids'; rewrite length_map; lia).
    apply concat_items_interleave. unfold nids', eids'. rewrite !length_map. lia. }
  exists h, (join TAB ("P" :: h :: interleave nids' eids')).
  split; [reflexivity|]. split.
  - unfold TSGPath_display.
    rewrite (id_with_section node_by_idx hash p g nids Hg (resolve_ids_Forall2 _ _ _ _ Hn)
               Hne Hutf).
    cbn [to_hash_identifier unwrap obind]. fold h.
    unfold to_str. rewrite Hh_utf. cbn [unwrap_opt obind]. rewrite Hitems. cbn [obind].
    rewrite Hconcat. reflexivity.
  - unfold split. change TAB with (str1 (ascii_of_nat 9)). apply split_by_join;
      [reflexivity | discriminate |].
    constructor; [reflexivity|]. constructor.
    { eapply str_all_impl; [|exact Hh]. intros c Hc. now apply andb_prop in Hc as [_ ->]. }
    apply List.Forall_forall. intros x Hx. apply in_interleave in Hx.
    assert (Hplus : forall y, In y (nids ++ eids) ->
              str_all (fun d => negb (is_char (ascii_of_nat 9) d)) (y +:+ "+") = true).
    { intros y Hy. assert (Hy' := Hfield y Hy). unfold field_text in Hy'.
      apply andb_prop in Hy' as [_ Hy']. rewrite str_all_app, Hy'. reflexivity. }
    destruct Hx as [Hx | Hx]; apply in_map_iff in Hx as (y & <- & Hy); apply Hplus;
      apply in_or_app; [left | right]; exact Hy.
Qed.

(** ** Witnesses of the extra properties *)

Lemma interval_from_str_normal_form_witness :
  Interval_from_str "+0100-200" = Ok (mkInterval 100 200)
  /\ Interval_from_str (Interval_to_string (mkInterval 100 200)) = Ok (mkInterval 100 200).
Proof.
  assert (H : Interval_from_str "+0100-200" = Ok (mkInterval 100 200))
    by (vm_compute; reflexivity).
  split; [exact H | exact (proj2 (interval_from_str_normal_form _ _ H))].
Defined.

Lemma exons_display_from_str_roundtrip_witness :
  Exons_from_str (Exons_to_string example_exons) = Ok example_exons.
Proof.
  apply exons_display_from_str_roundtrip; [discriminate | vm_compute; reflexivity].
Defined.

Lemma exons_from_str_normal_form_witness :
  Exons_from_str "+100-0200,300-400" = Ok (mkExons [mkInterval 100 200; mkInterval 300 400])
  /\ Exons_from_str (Exons_to_string (mkExons [mkInterval 100 200; mkInterval 300 400]))
     = Ok (mkExons [mkInterval 100 200; mkInterval 300 400]).
Proof.
  assert (H : Exons_from_str "+100-0200,300-400"
              = Ok (mkExons [mkInterval 100 200; mkInterval 300 400]))
    by (vm_compute; reflexivity).
  split; [exact H | exact (proj2 (proj2 (exons_from_str_normal_form _ _ H)))].
Defined.

Lemma read_identity_from_str_exact_witness :
  ReadIdentity_from_str "XX" = Err ("Invalid read identity: " +:+ "XX")
  /\ ReadIdentity_from_str "SI" = Ok SI.
Proof.
  split.
  - assert (H : ReadIdentity_from_str "XX" = Err "Invalid read identity: XX")
      by reflexivity.
    rewrite H. rewrite <- (proj2 (proj2 (read_identity_from_str_exact "XX" SO)) _ H). reflexivity.
  - apply (proj2 (proj1 (read_identity_from_str_exact "SI" SI))). reflexivity.
Defined.

Lemma read_identity_from_panics_iff_witness : ReadIdentity_from "so" = Panic.
Proof.
  apply read_identity_from_panics_iff. intros r E. destruct r; discriminate E.
Defined.

Lemma strand_from_str_exact_witness :
  Strand_from_str "*" = Err ("Invalid strand: " +:+ "*") /\ Strand_from_str "-" = Ok Reverse.
Proof.
  split.
  - assert (H : Strand_from_str "*" = Err "Invalid strand: *") by reflexivity.
    rewrite H. rewrite <- (proj2 (proj2 (strand_from_str_exact "*" Forward)) _ H). reflexivity.
  - apply (proj2 (proj1 (strand_from_str_exact "-" Reverse))). reflexivity.
Defined.

Lemma read_data_from_str_normal_form_witness :
  ReadData_from_str (ReadData_to_string lossy_one_replacement (ReadData.mk "r1" SO))
  = Ok (ReadData.mk "r1" SO).
Proof.
  apply (read_data_from_str_normal_form lossy_one_replacement "r1:SO");
    vm_compute; reflexivity.
Defined.

Lemma node_from_str_well_formed_witness :
  node_well_formed node_spaced = true /\ NodeData.attributes node_spaced = ∅.
Proof. apply (node_from_str_well_formed line_spaced). vm_compute. reflexivity. Defined.

Lemma node_line_normal_form_witness :
  NodeData_from_str (NodeData_to_string lossy_one_replacement node_spaced) = Ok node_spaced.
Proof.
  apply (node_line_normal_form lossy_one_replacement line_spaced); vm_compute; reflexivity.
Defined.

Lemma first_last_exon_panic_iff_empty_witness :
  first_exon example_exons = Some (mkInterval 100 200)
  /\ last_exon example_exons = Some (mkInterval 500 600)
  /\ first_exon (mkExons []) = None.
Proof.
  split; [|split].
  - exact (proj1 (proj2 (proj2 (first_last_exon_panic_iff_empty example_exons)) _ _ eq_refl)).
  - exact (proj2 (proj2 (proj2 (first_last_exon_panic_iff_empty example_exons)) _ _ eq_refl)).
  - apply (proj1 (first_last_exon_panic_iff_empty (mkExons []))). reflexivity.
Defined.

Lemma node_from_str_reference_bounds_witness :
  exists a b, reference_start node_spaced = Some a /\ reference_end node_spaced = Some b.
Proof. apply (node_from_str_reference_bounds line_spaced). vm_compute. reflexivity. Defined.

Lemma ordered_exons_span_within_reference_witness :
  exists a b sp, reference_start node_spaced = Some a /\ reference_end node_spaced = Some b
    /\ a <= b /\ Exons_span (NodeData.exons node_spaced) = Some sp /\ sp <= b - a.
Proof.
  apply ordered_exons_span_within_reference;
    [discriminate | vm_compute; reflexivity | vm_compute; reflexivity].
Defined.

Lemma validated_path_is_identifiable_witness :
  TSGPath_validate path_n123 = Ok tt /\ TSGPath_is_empty path_n123 = false
  /\ forall e, TSGPath_id list_node_by_idx example_hash path_n123 <> Err e.
Proof.
  assert (H : TSGPath_validate path_n123 = Ok tt) by reflexivity.
  split; [exact H | exact (validated_path_is_identifiable list_node_by_idx example_hash _ H)].
Defined.

Lemma to_fa_concatenates_sequences_witness :
  TSGPath_to_fa list_node_by_idx path_n12 = Ok "ACGTT".
Proof.
  apply (to_fa_concatenates_sequences list_node_by_idx path_n12 section_with_sequences
           ["ACG"; "TT"]); [reflexivity|].
  repeat constructor; eexists; split; reflexivity.
Defined.

Lemma to_fa_missing_sequence_witness :
  TSGPath_to_fa list_node_by_idx path_n123_seq = Err "Node sequence not found".
Proof.
  apply (to_fa_missing_sequence list_node_by_idx path_n123_seq section_with_sequences);
    [reflexivity | repeat constructor; intros E; discriminate E |].
  exists 2%nat. eexists. split; [right; right; left; reflexivity | split; reflexivity].
Defined.

Lemma to_fa_empty_or_unsectioned_witness :
  (TSGPath_to_fa list_node_by_idx empty_path = Ok EmptyString
   /\ TSGPath_id list_node_by_idx example_hash empty_path = Err "No nodes in path")
  /\ TSGPath_to_fa list_node_by_idx path_n123_no_section = Panic.
Proof.
  split.
  - apply (proj1 (to_fa_empty_or_unsectioned list_node_by_idx example_hash empty_path)).
    reflexivity.
  - apply (proj2 (to_fa_empty_or_unsectioned list_node_by_idx example_hash
                    path_n123_no_section)); [discriminate | reflexivity].
Defined.

Lemma path_to_gtf_only_error_witness :
  TSGPath_to_gtf list_node_by_idx example_hash (fun s => s)
                 (fun m => map snd (map_to_list m)) empty_path = Err "No nodes in path".
Proof. apply path_to_gtf_only_error. split; reflexivity. Defined.

Lemma path_display_needs_nodes_and_edges_witness :
  (exists s, TSGPath_display list_node_by_idx example_edge_id example_hash (fun s => s)
               path_n123 = Ok s
     /\ nodes path_n123 <> [] /\ (length (nodes path_n123) <= length (edges path_n123) + 1)%nat)
  /\ TSGPath_display list_node_by_idx example_edge_id example_hash (fun s => s) empty_path = Panic
  /\ TSGPath_display list_node_by_idx example_edge_id example_hash (fun s => s)
       path_n123_one_edge = Panic.
Proof.
  split; [|split].
  - eexists. split; [vm_compute; reflexivity|].
    eapply (proj1 (path_display_needs_nodes_and_edges list_node_by_idx example_edge_id
             example_hash (fun s => s) path_n123)).
    vm_compute. reflexivity.
  - apply (proj2 (proj2 (path_display_needs_nodes_and_edges list_node_by_idx example_edge_id
             example_hash (fun s => s) empty_path))).
    left. reflexivity.
  - apply (proj2 (proj2 (path_display_needs_nodes_and_edges list_node_by_idx example_edge_id
             example_hash (fun s => s) path_n123_one_edge))).
    right. cbn. lia.
Defined.

Lemma path_ops_read_stored_section_witness :
  (forall s, TSGPath_to_fa list_node_by_idx path_n123_no_section <> Ok s)
  /\ TSGPath_to_fa list_node_by_idx path_n12 = Ok "ACGTT".
Proof.
  split.
  - apply (proj1 (path_ops_read_stored_section list_node_by_idx example_edge_id example_hash
             (fun s => s) (fun m => map snd (map_to_list m)) path_n123_no_section));
      [discriminate | reflexivity].
  - apply (proj2 (proj2 (path_ops_read_stored_section list_node_by_idx example_edge_id
             example_hash (fun s => s) (fun m => map snd (map_to_list m)) path_n12))
             section_with_sequences ["ACG"; "TT"]); [reflexivity|].
    repeat constructor; eexists; split; reflexivity.
Defined.

Lemma node_to_gtf_one_line_per_exon_witness :
  exists out, NodeData_to_gtf (fun s => s) [] node_spaced
                (Some [gtf_attribute "transcript_id" "t1"]) = Ok out
    /\ length (split (ascii_of_nat 10) out) = 2%nat.
Proof.
  destruct (node_to_gtf_one_line_per_exon (fun s => s) [] node_spaced
              (Some [gtf_attribute "transcript_id" "t1"])) as (out & Hout & Hlen & _).
  - vm_compute. reflexivity.
  - apply map_Forall_empty.
  - vm_compute. reflexivity.
  - vm_compute. reflexivity.
  - vm_compute. reflexivity.
  - discriminate.
  - vm_compute. reflexivity.
  - exists out. split; [exact Hout | exact Hlen].
Defined.

Lemma path_display_fields_witness :
  exists h s, TSGPath_id list_node_by_idx example_hash path_n123 = Ok h
    /\ TSGPath_display list_node_by_idx example_edge_id example_hash (fun s => s) path_n123 = Ok s
    /\ split (ascii_of_nat 9) s = "P" :: h :: ["n1+"; "e0+"; "n2+"; "e1+"; "n3+"].
Proof.
  apply (path_display_fields list_node_by_idx example_edge_id example_hash (fun s => s)
           path_n123 section_n123 ["n1"; "n2"; "n3"] ["e0"; "e1"]);
    [reflexivity | reflexivity | | | vm_compute; reflexivity].
  - repeat constructor; eexists; split; reflexivity.
  - repeat constructor.
Defined.

(** ** Introns: helper lemmas *)

Lemma introns_fold_none (xs : list Interval) (idx : list nat) :
  fold_left
    (fun acc i => match acc with
                  | None => None
                  | Some l => match intron_at xs i with
                              | Some v => Some (l ++ [v])
                              | None => None
                              end
                  end) idx None = None.
Proof. induction idx as [|i idx IH]; [reflexivity|]. exact IH. Qed.

Lemma introns_fold_some (xs : list Interval) (idx : list nat) (l r : list Interval) :
  fold_left
    (fun acc i => match acc with
                  | None => None
                  | Some l => match intron_at xs i with
                              | Some v => Some (l ++ [v])
                              | None => None
                              end
                  end) idx (Some l) = Some r ->
  forall i, In i idx -> intron_at xs i <> None.
Proof.
  revert l. induction idx as [|j idx IH]; intros l H i Hi; [destruct Hi|].
  cbn [fold_left] in H. destruct (intron_at xs j) as [v|] eqn:Hj.
  - destruct Hi as [<- | Hi]; [congruence | exact (IH _ H i Hi)].
  - rewrite introns_fold_none in H. discriminate.
Qed.

(** What [introns] returns, element by element. *)
Lemma introns_nth (e : Exons) (ins : list Interval) :
  introns e = Some ins ->
  length ins = (length (exons e) - 1)%nat
  /\ forall k, (k < length (exons e) - 1)%nat -> nth_error ins k = intron_at (exons e) k.
Proof.
  unfold introns. intros H.
  pose proof (introns_fold_some _ _ _ _ H) as Hall.
  destruct (introns_fold (exons e) (seq 0 (length (exons e) - 1)) [] Hall)
    as (l' & Hf & Hlen & Hnth).
  rewrite Hf in H. cbn [app] in H. injection H as <-.
  split; [rewrite Hlen, length_seq; reflexivity|].
  intros k Hk.
  assert (Hs : nth_error (seq 0 (length (exons e) - 1)) k = Some k).
  { rewrite nth_error_seq. destruct (Nat.ltb_spec k (length (exons e) - 1)); [reflexivity | lia]. }
  destruct (intron_at (exons e) k) as [v|] eqn:Hv.
  - exact (Hnth k k v Hs Hv).
  - exfalso. exact (Hall k (nth_error_In _ _ Hs) Hv).
Qed.

Lemma intron_pairs_nth (xs : list Interval) (k : nat) :
  inner_ends_fit xs = true -> nth_error (intron_pairs xs) k = intron_at xs k.
Proof.
  revert k. induction xs as [|a xs IH]; intros k Hfit.
  - destruct k; reflexivity.
  - destruct xs as [|b r].
    + destruct k as [|[|k]]; reflexivity.
    + cbn [inner_ends_fit] in Hfit. apply andb_prop in Hfit as [Ha Hrest].
      destruct k as [|k].
      * unfold intron_at. cbn [nth_error intron_pairs]. rewrite Ha. reflexivity.
      * change (nth_error (intron_pairs (b :: r)) k = intron_at (b :: r) k). exact (IH k Hrest).
Qed.

Lemma intron_pairs_length (xs : list Interval) :
  length (intron_pairs xs) = (length xs - 1)%nat.
Proof.
  induction xs as [|a xs IH]; [reflexivity|].
  destruct xs as [|b r]; [reflexivity|].
  cbn [intron_pairs length] in *. rewrite IH. lia.
Qed.

Lemma introns_of_fit (e : Exons) :
  inner_ends_fit (exons e) = true -> introns e = Some (intron_pairs (exons e)).
Proof.
  intros Hfit. unfold introns.
  assert (Hall : forall i, In i (seq 0 (length (exons e) - 1)) -> intron_at (exons e) i <> None).
  { intros i Hi. apply in_seq in Hi. rewrite <- (intron_pairs_nth _ _ Hfit).
    apply nth_error_Some. rewrite intron_pairs_length. lia. }
  destruct (introns_fold (exons e) (seq 0 (length (exons e) - 1)) [] Hall)
    as (l' & Hf & Hlen & Hnth).
  rewrite Hf. cbn [app]. f_equal. apply nth_error_ext. intros k.
  rewrite length_seq in Hlen.
  destruct (Nat.ltb_spec k (length (exons e) - 1)) as [Hk | Hk].
  - rewrite (intron_pairs_nth _ _ Hfit).
    destruct (intron_at (exons e) k) as [v|] eqn:Hv.
    + apply (Hnth k k v); [|exact Hv]. rewrite nth_error_seq.
      destruct (Nat.ltb_spec k (length (exons e) - 1)); [reflexivity | lia].
    + exfalso. apply (Hall k); [apply in_seq; lia | exact Hv].
  - rewrite (proj2 (nth_error_None _ _)) by lia.
    rewrite (proj2 (nth_error_None _ _)); [reflexivity|]. rewrite intron_pairs_length. lia.
Qed.

Lemma separated_facts (x : Interval) (rest : list Interval) :
  exons_separated (x :: rest) = true ->
  start x <= end_ x /\ end_ x <= end_ (List.last (x :: rest) x)
  /\ Forall (fun y => start y <= end_ y) (x :: rest)
  /\ Forall (fun y => start y <= end_ y) (intron_pairs (x :: rest))
  /\ end_ (List.last (x :: rest) x) - start x
     = total_length (x :: rest) + total_length (intron_pairs (x :: rest)) + N.of_nat (length rest)
  /\ (end_ (List.last (x :: rest) x) < USIZE_BOUND -> inner_ends_fit (x :: rest) = true).
Proof.
  revert x. induction rest as [|y r IH]; intros x H.
  - cbn [exons_separated] in H. apply N.leb_le in H.
    cbn [List.last intron_pairs length]. unfold total_length. cbn [fold_right].
    repeat split; try lia; repeat constructor; lia.
  - change (exons_separated (x :: y :: r))
      with ((start x <=? end_ x) && (end_ x <? start y) && exons_separated (y :: r)) in H.
    apply andb_prop in H as [H Hr]. apply andb_prop in H as [H1 H2].
    apply N.leb_le in H1. apply N.ltb_lt in H2.
    destruct (IH y Hr) as (Hy1 & Hy2 & Hall & Hpairs & Heq & Hfit).
    change (List.last (x :: y :: r) x) with (List.last (y :: r) x).
    rewrite (last_default y x y).
    change (intron_pairs (x :: y :: r)) with (mkInterval (end_ x + 1) (start y) :: intron_pairs (y :: r)).
    change (total_length (x :: y :: r)) with (end_ x - start x + total_length (y :: r)).
    change (total_length (mkInterval (end_ x + 1) (start y) :: intron_pairs (y :: r)))
      with (start y - (end_ x + 1) + total_length (intron_pairs (y :: r))).
    split; [exact H1|]. split; [lia|]. split; [constructor; assumption|].
    split; [constructor; [cbn [start end_]; lia | exact Hpairs]|].
    split; [cbn [length]; rewrite Nat2N.inj_succ; lia|].
    intros Hb. change (inner_ends_fit (x :: y :: r))
      with ((end_ x + 1 <? USIZE_BOUND) && inner_ends_fit (y :: r)).
    rewrite Hfit by exact Hb. apply andb_true_intro. split; [apply N.ltb_lt; lia | reflexivity].
Qed.

(** ** Extra properties: introns (node.rs) *)

(** For exons in strict order whose last end is a [usize], [introns()]
    returns one intron per consecutive pair, [Exons::span] succeeds on the
    exons and on the introns, and the two spans plus one per intron (the
    bases [end + 1] skips) add up to [last end - first start]. *)
Theorem exons_introns_tile_reference (e : Exons) (x : Interval) (rest : list Interval) :
  exons e = x :: rest -> exons_separated (x :: rest) = true ->
  end_ (List.last (x :: rest) x) < USIZE_BOUND ->
  exists ins sp isp, introns e = Some ins /\ length ins = length rest
    /\ Exons_span e = Some sp /\ Exons_span (mkExons ins) = Some isp
    /\ sp + isp + N.of_nat (length ins) = end_ (List.last (x :: rest) x) - start x.
Proof.
  intros He Hsep Hb.
  destruct (separated_facts x rest Hsep) as (Hx1 & Hx2 & Hall & Hpairs & Heq & Hfit).
  specialize (Hfit Hb).
  assert (Hlen : length (intron_pairs (x :: rest)) = length rest)
    by (rewrite intron_pairs_length; cbn [length]; lia).
  exists (intron_pairs (x :: rest)), (0 + total_length (x :: rest)),
    (0 + total_length (intron_pairs (x :: rest))).
  split; [rewrite introns_of_fit; rewrite He; [reflexivity | exact Hfit]|].
  split; [exact Hlen|].
  split; [unfold Exons_span; rewrite He; apply sum_spans_ok; [exact Hall | lia]|].
  split; [unfold Exons_span; cbn [exons]; apply sum_spans_ok; [exact Hpairs | lia]|].
  rewrite Hlen. lia.
Qed.

(** When two consecutive exons touch ([end] of one equal to [start] of
    the next, which ordered exons allow), the intron [introns()] returns
    between them starts after it ends, and [Interval::span] panics on it. *)
Theorem touching_exons_give_reversed_intron (e : Exons) (k : nat) (a b : Interval)
  (ins : list Interval) :
  nth_error (exons e) k = Some a -> nth_error (exons e) (S k) = Some b -> end_ a = start b ->
  introns e = Some ins ->
  exists v, nth_error ins k = Some v /\ start v = end_ a + 1 /\ end_ v = start b
    /\ Interval_span v = None.
Proof.
  intros Ha Hb Hab Hins.
  destruct (introns_nth e ins Hins) as (_ & Hnth).
  assert (Hk : (k < length (exons e) - 1)%nat).
  { assert (S k < length (exons e))%nat by (apply nth_error_Some; congruence). lia. }
  rewrite (Hnth k Hk). unfold intron_at. rewrite Ha, Hb.
  destruct (N.ltb_spec (end_ a + 1) USIZE_BOUND).
  - eexists. split; [reflexivity|]. cbn [start end_]. split; [reflexivity|].
    split; [reflexivity|]. unfold Interval_span. cbn [start end_].
    destruct (N.ltb_spec (start b) (end_ a + 1)); [reflexivity | lia].
  - exfalso. pose proof (Hnth k Hk) as E. unfold intron_at in E. rewrite Ha, Hb in E.
    destruct (N.ltb_spec (end_ a + 1) USIZE_BOUND); [lia|].
    assert (Hi : (k < length ins)%nat).
    { destruct (introns_nth e ins Hins) as (Hl & _). lia. }
    apply nth_error_Some in Hi. exact (Hi E).
Qed.

Lemma exons_introns_tile_reference_witness :
  exists ins sp isp, introns example_exons = Some ins /\ length ins = 2%nat
    /\ Exons_span example_exons = Some sp /\ Exons_span (mkExons ins) = Some isp
    /\ sp + isp + N.of_nat (length ins) = 600 - 100.
Proof.
  apply (exons_introns_tile_reference example_exons (mkInterval 100 200)
           [mkInterval 300 400; mkInterval 500 600]);
    [reflexivity | vm_compute; reflexivity | vm_compute; reflexivity].
Defined.

Lemma touching_exons_give_reversed_intron_witness :
  exists v, nth_error [mkInterval 201 200] 0 = Some v /\ start v = 200 + 1 /\ end_ v = 200
    /\ Interval_span v = None.
Proof.
  apply (touching_exons_give_reversed_intron (mkExons [mkInterval 100 200; mkInterval 200 300])
           0 (mkInterval 100 200) (mkInterval 200 300));
    [reflexivity | reflexivity | reflexivity | vm_compute; reflexivity].
Defined.

(** ** GTF text: helper lemmas *)

Lemma utf8_valid_join (sep : string) (xs : list string) :
  utf8_valid sep = true -> Forall (fun x => utf8_valid x = true) xs ->
  utf8_valid (join sep xs) = true.
Proof.
  intros Hs. induction 1 as [|x xs Hx Hxs IH]; [reflexivity|].
  destruct xs as [|y ys]; [exact Hx|].
  change (join sep (x :: y :: ys)) with (x +:+ sep +:+ join sep (y :: ys)).
  apply utf8_valid_app; [exact Hx|]. apply utf8_valid_app; [exact Hs | exact IH].
Qed.

Lemma utf8_valid_concat (xs : list string) :
  Forall (fun x => utf8_valid x = true) xs -> utf8_valid (String.concat "" xs) = true.
Proof.
  induction 1 as [|x xs Hx _ IH]; [reflexivity|].
  rewrite string_concat_cons. apply utf8_valid_app; assumption.
Qed.


Lemma plain_one_line (s : string) :
  str_all (fun c => byte_in 0 127 c && negb (is_char (ascii_of_nat 10) c)) s = true ->
  one_line_text s = true.
Proof.
  intros H. unfold one_line_text. apply andb_true_intro. split.
  - apply utf8_valid_ascii. eapply str_all_impl; [|exact H].
    intros c Hc. now apply andb_prop in Hc as [-> _].
  - eapply str_all_impl; [|exact H]. intros c Hc. now apply andb_prop in Hc as [_ ->].
Qed.

Lemma usize_to_string_plain (v : N) :
  str_all (fun c => byte_in 0 127 c && negb (is_char (ascii_of_nat 10) c))
          (usize_to_string v) = true.
Proof.
  apply str_all_usize_impl. intros c Hc.
  rewrite (digit_not_char (ascii_of_nat 10) c eq_refl Hc).
  unfold is_digit in Hc. unfold byte_in. apply andb_prop in Hc as [_ Hc].
  apply Nat.leb_le in Hc. rewrite andb_true_r. apply andb_true_intro.
  split; apply Nat.leb_le; lia.
Qed.

Lemma pad03_plain (v : N) :
  str_all (fun c => byte_in 0 127 c && negb (is_char (ascii_of_nat 10) c)) (pad03 v) = true.
Proof. unfold pad03. rewrite str_all_app, str_all_zeros, usize_to_string_plain; reflexivity. Qed.

Lemma hex_fixed_plain (w : nat) (n : N) :
  str_all (fun c => byte_in 0 127 c && negb (is_char (ascii_of_nat 10) c))
          (hex_fixed w n EmptyString) = true.
Proof.
  apply hex_fixed_chars; [|reflexivity]. intros d Hd.
  assert (d = 0 \/ d = 1 \/ d = 2 \/ d = 3 \/ d = 4 \/ d = 5 \/ d = 6 \/ d = 7 \/ d = 8
          \/ d = 9 \/ d = 10 \/ d = 11 \/ d = 12 \/ d = 13 \/ d = 14 \/ d = 15) as Hcases
    by lia.
  repeat destruct Hcases as [-> | Hcases]; try (subst d); reflexivity.
Qed.

Lemma exon_attr_gtf_valid (utf8_lossy : string -> string) (a : Attribute) :
  attr_one_line a = true -> utf8_valid (exon_attr_gtf utf8_lossy a) = true.
Proof.
  unfold attr_one_line, one_line_text. intros H.
  apply andb_prop in H as [Ht Hv]. apply andb_prop in Ht as [Ht _].
  apply andb_prop in Hv as [Hv _].
  unfold exon_attr_gtf. rewrite !bstr_display_valid by assumption.
  repeat apply utf8_valid_app; first [assumption | reflexivity].
Qed.

Lemma transcript_attr_gtf_one_line (utf8_lossy : string -> string) (a : Attribute) :
  attr_one_line a = true -> one_line_text (transcript_attr_gtf utf8_lossy a) = true.
Proof.
  unfold attr_one_line, one_line_text. intros H.
  apply andb_prop in H as [Ht Hv]. apply andb_prop in Ht as [Ht Ht'].
  apply andb_prop in Hv as [Hv Hv'].
  unfold transcript_attr_gtf. rewrite !bstr_display_valid by assumption.
  apply andb_true_intro. split.
  - repeat apply utf8_valid_app; first [assumption | reflexivity].
  - rewrite !str_all_app, Ht', Hv'. reflexivity.
Qed.

Lemma Forall2_Forall_r {A B} (R : A -> B -> Prop) (Q : B -> Prop) (xs : list A) (ys : list B) :
  Forall2 R xs ys -> (forall x y, R x y -> Q y) -> Forall Q ys.
Proof. intros H HQ. induction H; constructor; eauto. Qed.

(** Each exon line is well-formed UTF-8 on one line. *)
Lemma exon_gtf_line_text (utf8_lossy : string -> string) (vals : list Attribute)
    (n : NodeData.t) (attributes : option (list Attribute)) (idx : nat) (x : Interval) :
  one_line_text (NodeData.reference_id n) = true ->
  Forall (fun a => attr_one_line a = true) vals ->
  Forall (fun a => attr_one_line a = true)
         (match attributes with Some l => l | None => [] end) ->
  exists line, exon_gtf_line utf8_lossy vals n attributes idx x = Ok line
    /\ one_line_text line = true.
Proof.
  intros Hrid Hvals Hattrs.
  pose proof Hrid as Hrid'. unfold one_line_text in Hrid'.
  apply andb_prop in Hrid' as [Hrid_utf Hrid_nl].
  unfold exon_gtf_line, to_str. rewrite Hrid_utf. cbn [unwrap_opt obind].
  eexists. split; [reflexivity|].
  unfold one_line_text. apply andb_true_intro. split.
  - assert (Hv : utf8_valid (String.concat "" (map (exon_attr_gtf utf8_lossy) vals)) = true).
    { apply utf8_valid_concat. apply List.Forall_forall. intros s (a & <- & Ha)%in_map_iff.
      apply exon_attr_gtf_valid. exact (proj1 (List.Forall_forall _ _) Hvals a Ha). }
    assert (Ha : utf8_valid (match attributes with
                             | Some l => String.concat "" (map (exon_attr_gtf utf8_lossy) (rev l))
                             | None => EmptyString
                             end) = true).
    { destruct attributes as [l|]; [|reflexivity].
      apply utf8_valid_concat. apply List.Forall_forall. intros s (a & <- & Ha)%in_map_iff.
      apply exon_attr_gtf_valid. apply in_rev in Ha.
      exact (proj1 (List.Forall_forall _ _) Hattrs a Ha). }
    assert (Hd : forall v, utf8_valid (usize_to_string v) = true).
    { intros v. pose proof (plain_one_line _ (usize_to_string_plain v)) as H.
      unfold one_line_text in H. now apply andb_prop in H as [-> _]. }
    assert (Hp : forall v, utf8_valid (pad03 v) = true).
    { intros v. pose proof (plain_one_line _ (pad03_plain v)) as H.
      unfold one_line_text in H. now apply andb_prop in H as [-> _]. }
    assert (Hz : forall k, utf8_valid (zeros k) = true)
      by (intros k; apply utf8_valid_ascii, str_all_zeros; reflexivity).
    repeat apply utf8_valid_app;
      first [ assumption | apply Hd | apply Hp | apply Hz | reflexivity
            | destruct (NodeData.strand n); reflexivity ].
  - assert (Hdig : forall d v, is_digit d = false ->
              str_all (fun c => negb (is_char d c)) (usize_to_string v) = true).
    { intros d v Hd. apply str_all_usize_impl. intros c Hc. exact (digit_not_char d c Hd Hc). }
    assert (Hpad : forall v, str_all (fun c => negb (is_char (ascii_of_nat 10) c)) (pad03 v)
                             = true).
    { intros v. unfold pad03. rewrite str_all_app, str_all_zeros, Hdig; reflexivity. }
    assert (Hv : str_all (fun c => negb (is_char (ascii_of_nat 10) c))
                   (String.concat "" (map (exon_attr_gtf utf8_lossy) vals)) = true).
    { apply str_all_concat_empty. apply List.Forall_forall.
      intros s (a & <- & Ha)%in_map_iff. apply exon_attr_gtf_one_line.
      exact (proj1 (List.Forall_forall _ _) Hvals a Ha). }
    assert (Ha : str_all (fun c => negb (is_char (ascii_of_nat 10) c))
                   (match attributes with
                    | Some l => String.concat "" (map (exon_attr_gtf utf8_lossy) (rev l))
                    | None => EmptyString
                    end) = true).
    { destruct attributes as [l|]; [|reflexivity].
      apply str_all_concat_empty. apply List.Forall_forall.
      intros s (a & <- & Ha)%in_map_iff. apply exon_attr_gtf_one_line.
      apply in_rev in Ha. exact (proj1 (List.Forall_forall _ _) Hattrs a Ha). }
    rewrite !str_all_app, Hrid_nl, !Hdig, Hpad, Hv, Ha by reflexivity.
    destruct (NodeData.strand n); reflexivity.
Qed.

(** [NodeData::to_gtf] on a node with exons: well-formed UTF-8, one line
    per exon. *)
Lemma node_gtf_lines (utf8_lossy : string -> string) (vals : list Attribute)
    (n : NodeData.t) (attributes : option (list Attribute)) :
  one_line_text (NodeData.reference_id n) = true ->
  Forall (fun a => attr_one_line a = true) vals ->
  Forall (fun a => attr_one_line a = true)
         (match attributes with Some l => l | None => [] end) ->
  exons (NodeData.exons n) <> [] ->
  exists out, NodeData_to_gtf utf8_lossy vals n attributes = Ok out
    /\ utf8_valid out = true
    /\ length (split (ascii_of_nat 10) out) = length (exons (NodeData.exons n)).
Proof.
  intros Hrid Hvals Hattrs Hne.
  set (xs := exons (NodeData.exons n)) in *.
  destruct (collect_results_map_exists
              (fun '(idx, exon) => exon_gtf_line utf8_lossy vals n attributes idx exon)
              (fun _ line => one_line_text line = true)
              (enumerate xs)) as (lines & Hlines & Hprops).
  { intros [idx x] _. exact (exon_gtf_line_text utf8_lossy vals n attributes idx x Hrid Hvals Hattrs). }
  assert (Hlen : length lines = length xs)
    by (rewrite <- (Forall2_length _ _ _ Hprops); apply enumerate_length).
  assert (Hall : Forall (fun line => one_line_text line = true) lines)
    by (apply (Forall2_Forall_r _ _ _ _ Hprops); intros _ y Hy; exact Hy).
  exists (join NL lines). unfold NodeData_to_gtf. fold xs. rewrite Hlines. cbn [obind].
  split; [reflexivity|]. split.
  - apply utf8_valid_join; [reflexivity|].
    eapply List.Forall_impl; [|exact Hall].
    intros line Hl. unfold one_line_text in Hl. now apply andb_prop in Hl as [-> _].
  - unfold split. change NL with (str1 (ascii_of_nat 10)). rewrite split_by_join.
    + exact Hlen.
    + reflexivity.
    + intros E. rewrite E in Hlen. cbn [length] in Hlen. destruct xs; [congruence | discriminate].
    + eapply List.Forall_impl; [|exact Hall].
      intros line Hl. unfold one_line_text in Hl. now apply andb_prop in Hl as [_ ->].
Qed.

Lemma split_by_app_sep_gen (p : ascii -> bool) (c : ascii) (a s : string) :
  p c = true -> split_by p (a +:+ String c s) = split_by p a ++ split_by p s.
Proof.
  intros Hc. induction a as [|d a IH].
  - rewrite append_empty_l. cbn [split_by]. rewrite Hc. reflexivity.
  - rewrite append_cons. cbn [split_by]. rewrite IH.
    destruct (p d); [reflexivity|].
    destruct (split_by p a) as [|h t] eqn:E; [exfalso; exact (split_by_nonempty p a E)|].
    reflexivity.
Qed.

(** Splitting a join: the pieces of every joined text, in order. *)
Lemma split_by_join_concat (p : ascii -> bool) (c : ascii) (xs : list string) :
  p c = true -> xs <> [] ->
  split_by p (join (str1 c) xs) = concat (map (split_by p) xs).
Proof.
  intros Hc Hne. induction xs as [|x xs IH]; [congruence|].
  destruct xs as [|y ys].
  - cbn [join map concat]. rewrite app_nil_r. reflexivity.
  - change (join (str1 c) (x :: y :: ys)) with (x +:+ str1 c +:+ join (str1 c) (y :: ys)).
    change (str1 c +:+ join (str1 c) (y :: ys)) with (String c (join (str1 c) (y :: ys))).
    rewrite split_by_app_sep_gen by exact Hc.
    rewrite IH by discriminate. reflexivity.
Qed.

Lemma collect_to_str_valid (xs : list string) :
  Forall (fun x => utf8_valid x = true) xs ->
  collect_results (E := string) (map (fun b => unwrap_opt (to_str b)) xs) = Ok xs.
Proof.
  induction 1 as [|x xs Hx _ IH]; [reflexivity|].
  cbn [map collect_results].
  replace (to_str x) with (Some x) by (unfold to_str; rewrite Hx; reflexivity).
  cbn [unwrap_opt obind]. rewrite IH. reflexivity.
Qed.

(** ** Extra properties: path GTF export (path.rs) *)

(** When the stored section resolves every node of the path, every node id
    is well-formed UTF-8, every node has exons and a reference id and
    attribute values on one line, and the path's attributes are on one
    line, [TSGPath::to_gtf] succeeds and writes one transcript line and
    then one line per exon of each node, in path order. *)
Theorem path_to_gtf_line_count {G : Type}
  (node_by_idx : G -> NodeIndex -> option NodeData.t) (hash : string -> N)
  (utf8_lossy : string -> string) (attr_values : gmap string Attribute -> list Attribute)
  (p : @TSGPath G) (g : G) (nds : list NodeData.t) :
  graph p = Some g ->
  Forall2 (fun i nd => node_by_idx g i = Some nd) (nodes p) nds -> nds <> [] ->
  forallb (fun nd => utf8_valid (NodeData.id nd)
                     && node_gtf_ready (attr_values (NodeData.attributes nd)) nd) nds = true ->
  forallb attr_one_line (path_attributes p) = true ->
  exists out, TSGPath_to_gtf node_by_idx hash utf8_lossy attr_values p = Ok out
    /\ length (split (ascii_of_nat 10) out)
       = S (list_sum (map (fun nd => length (exons (NodeData.exons nd))) nds)).
Proof.
  intros Hg Hnds Hne Hready Hpattrs.
  assert (Hready' : forall nd, In nd nds -> utf8_valid (NodeData.id nd) = true
             /\ one_line_text (NodeData.reference_id nd) = true
             /\ Forall (fun a => attr_one_line a = true) (attr_values (NodeData.attributes nd))
             /\ exons (NodeData.exons nd) <> []).
  { intros nd Hin. pose proof (proj1 (forallb_forall _ _) Hready nd Hin) as H.
    unfold node_gtf_ready in H.
    apply andb_prop in H as [H1 H]. apply andb_prop in H as [H Hx].
    apply andb_prop in H as [H2 H3].
    split; [exact H1|]. split; [exact H2|]. split.
    - apply List.Forall_forall. intros a Ha. exact (proj1 (forallb_forall _ _) H3 a Ha).
    - destruct (exons (NodeData.exons nd)); [discriminate | congruence]. }
  assert (Hids : Forall2 (fun i id => exists nd, node_by_idx g i = Some nd /\ NodeData.id nd = id)
                   (nodes p) (map NodeData.id nds)).
  { clear - Hnds. induction Hnds; cbn [map]; constructor; eauto. }
  assert (Hne_ids : map NodeData.id nds <> []) by (destruct nds; [congruence | discriminate]).
  assert (Hutf : forallb utf8_valid (map NodeData.id nds) = true).
  { apply forallb_forall. intros x (nd & <- & Hin)%in_map_iff. exact (proj1 (Hready' nd Hin)). }
  pose proof (id_with_section node_by_idx hash p g _ Hg (resolve_ids_Forall2 _ _ _ _ Hids)
                Hne_ids Hutf) as Hid.
  unfold to_hash_identifier in Hid. cbv beta iota in Hid.
  remember (hex_fixed 16 (hash (join "-" (map NodeData.id nds))) EmptyString) as h eqn:Hh_def.
  assert (Hh : one_line_text h = true) by (subst h; apply plain_one_line, hex_fixed_plain).
  assert (Hh_utf : utf8_valid h = true)
    by (unfold one_line_text in Hh; now apply andb_prop in Hh as [-> _]).
  unfold TSGPath_to_gtf. rewrite Hid. cbn [obind].
  match goal with
  | |- context [collect_results (map ?f (enumerate (nodes p)))] =>
      destruct (collect_results_map_exists f
                  (fun '(_, i) out => utf8_valid out = true
                     /\ forall nd, node_by_idx g i = Some nd ->
                          length (split (ascii_of_nat 10) out) = length (exons (NodeData.exons nd)))
                  (enumerate (nodes p))) as (outs & Houts & Hprops)
  end.
  { intros [idx i] Hin. cbv beta iota. apply in_enumerate_nth in Hin.
    destruct (Forall2_nth_error_l _ _ _ _ _ Hnds Hin) as (nd & Hnd_k & Hnd).
    destruct (Hready' nd (nth_error_In _ _ Hnd_k)) as (_ & Hrid & Hvals & Hex).
    unfold path_node_gtf. rewrite Hg. cbn [ok_or obind]. rewrite Hnd. cbn [ok_or obind].
    edestruct (node_gtf_lines utf8_lossy (attr_values (NodeData.attributes nd)) nd
                 (Some [gtf_attribute "transcript_id" h;
                        gtf_attribute "segment_id" (pad03 (N.of_nat idx + 1))]))
      as (out & Hout & Hvalid & Hlen); [exact Hrid | exact Hvals | | exact Hex |].
    - constructor; [unfold attr_one_line, gtf_attribute; cbn [tag value]; rewrite Hh; reflexivity|].
      constructor; [|constructor].
      unfold attr_one_line, gtf_attribute; cbn [tag value].
      rewrite (plain_one_line _ (pad03_plain _)). reflexivity.
    - exists out. split; [exact Hout|]. split; [exact Hvalid|].
      intros nd' Hnd'. injection Hnd' as <-. exact Hlen. }
  rewrite Houts. cbn [obind].
  assert (Houts_valid : Forall (fun o => utf8_valid o = true) outs)
    by (apply (Forall2_Forall_r _ _ _ _ Hprops); intros [idx i] o [Ho _]; exact Ho).
  assert (Hpa : Forall (fun a => one_line_text (transcript_attr_gtf utf8_lossy a) = true)
                       (path_attributes p)).
  { apply List.Forall_forall. intros a Ha. apply transcript_attr_gtf_one_line.
    exact (proj1 (forallb_forall _ _) Hpattrs a Ha). }
  assert (Hpa_utf : utf8_valid (String.concat "" (map (transcript_attr_gtf utf8_lossy)
                                                      (path_attributes p))) = true).
  { apply utf8_valid_concat. apply List.Forall_forall. intros s (a & <- & Ha)%in_map_iff.
    pose proof (proj1 (List.Forall_forall _ _) Hpa a Ha) as H.
    unfold one_line_text in H. now apply andb_prop in H as [-> _]. }
  assert (Hpa_nl : str_all (fun c => negb (is_char (ascii_of_nat 10) c))
                     (String.concat "" (map (transcript_attr_gtf utf8_lossy)
                                            (path_attributes p))) = true).
  { apply str_all_concat_empty. apply List.Forall_forall. intros s (a & <- & Ha)%in_map_iff.
    pose proof (proj1 (List.Forall_forall _ _) Hpa a Ha) as H.
    unfold one_line_text in H. now apply andb_prop in H as [_ ->]. }
  pose proof Hh as Hh'. unfold one_line_text in Hh'. apply andb_prop in Hh' as [_ Hh_nl].
  match goal with
  | |- context [collect_results (map _ (?T :: outs))] =>
      assert (HT : utf8_valid T = true
                   /\ str_all (fun c => negb (is_char (ascii_of_nat 10) c)) T = true)
  end.
  { rewrite !bstr_display_valid by exact Hh_utf. split.
    - repeat apply utf8_valid_app; first [assumption | reflexivity].
    - rewrite !str_all_app, Hh_nl, Hpa_nl. reflexivity. }
  destruct HT as [HT_utf HT_nl].
  rewrite collect_to_str_valid by (constructor; assumption). cbn [obind].
  eexists. split; [reflexivity|].
  assert (Hmap : map (fun o => length (split (ascii_of_nat 10) o)) outs
                 = map (fun nd => length (exons (NodeData.exons nd))) nds).
  { apply nth_error_ext. intros k. rewrite !nth_error_map.
    destruct (nth_error (nodes p) k) as [i|] eqn:Hk.
    - assert (Hek : nth_error (enumerate (nodes p)) k = Some (k, i))
        by (rewrite enumerate_nth, Hk; reflexivity).
      destruct (Forall2_nth_error_l _ _ _ _ _ Hprops Hek) as (o & Ho & [_ Hlen]).
      destruct (Forall2_nth_error_l _ _ _ _ _ Hnds Hk) as (nd & Hnd_k & Hnd).
      rewrite Ho, Hnd_k. cbn [option_map]. f_equal. exact (Hlen nd Hnd).
    - apply nth_error_None in Hk.
      pose proof (Forall2_length _ _ _ Hprops) as L1. rewrite enumerate_length in L1.
      pose proof (Forall2_length _ _ _ Hnds) as L2.
      rewrite (proj2 (nth_error_None outs k)) by lia.
      rewrite (proj2 (nth_error_None nds k)) by lia. reflexivity. }
  unfold split in *. unfold NL. change (String (ascii_of_nat 10) EmptyString) with (str1 (ascii_of_nat 10)).
  rewrite split_by_join_concat by (reflexivity || discriminate).
  cbn [map concat]. rewrite (split_by_no_sep _ _ HT_nl).
  rewrite length_app, length_concat, map_map, Hmap. reflexivity.
Qed.

Lemma path_to_gtf_line_count_witness :
  exists out, TSGPath_to_gtf list_node_by_idx example_hash (fun s => s)
                (fun m => map snd (map_to_list m)) path_n12 = Ok out
    /\ length (split (ascii_of_nat 10) out) = 4%nat.
Proof.
  apply (path_to_gtf_line_count list_node_by_idx example_hash (fun s => s)
           (fun m => map snd (map_to_list m)) path_n12 section_with_sequences
           (firstn 2 section_with_sequences));
    [reflexivity | repeat constructor | discriminate | vm_compute; reflexivity | reflexivity].
Defined.
